(** * Kelly Monte-Carlo simulator: a shallow embedding of [kelly_mc]

    The development follows the package layout of the Python sources:

    - [Numpy]     the array primitives the package calls (documented NumPy
                  behaviour: [isclose], [cumsum], [searchsorted], boolean-mask
                  assignment, fancy indexing, [diff], [where], [mean],
                  [median], [percentile], [maximum.accumulate], ...);
    - [Models]    [models.py]: [Scenario], [Setup], [SimulationConfig] and
                  their [__post_init__] validators, and the records of the
                  results;
    - [Validators] [validators.py]: the lists of messages of the forms;
    - [Kelly]     [kelly.py]: the Kelly solver and the growth curve;
    - [Engine]    [engine.py]: the two-tier categorical sampler and the
                  compounding of portfolio paths;
    - [Analytics] [analytics.py]: the longest-run helper and
                  [compute_analytics].

    Numbers.  A finite IEEE double is a rational number, so Python floats are
    embedded as [Q] and the arithmetic of the program is carried out exactly
    (rounding, infinities and NaN inputs are outside the model).  The natural
    logarithm is the one of the real numbers, reached through [Q2R]; the
    non-finite values [np.log] produces at non-positive arguments are kept as
    separate constructors of [xfloat].  Python [int]s are [Z]; array indices
    produced by the sampler are [nat].  The statistics of [compute_analytics]
    divide arrays by arrays, so their cells are [float64]: a rational number,
    an infinity or nan, with NumPy's results of a division by zero.

    Libraries.  What the package takes from outside is a parameter of its
    functions: SciPy's bounded scalar minimiser, of which only the contract
    [bounded_method] is assumed; Python's percent formatting; the stream of
    doubles of the random generator, which is the seeded stream of the bit
    generator or fresh entropy; the contents of [np.empty] buffers; and, in
    [compute_analytics], [np.sqrt], [np.log] and [np.power] on doubles.
    Arrays of shape [(n, t)] are C-ordered buffers of [n * t] cells, cut into
    rows when the result is assembled. *)

From Stdlib Require Import String Ascii.
From Stdlib Require Import List Sorted ZArith QArith Qabs Qround Bool Lia Lqa.
From Stdlib Require Import Reals Lra Qreals.
Import ListNotations.

Set Implicit Arguments.

(** ** Exceptions and the error monad *)

(** The exceptions the modelled code can raise.  [ValueError] carries the
    site-specific message of [models.py]; the f-string payload is kept as
    data. *)
Inductive message : Type :=
| ProbabilityRange (got : Q)          (* "Probability must be in [0, 1], got .." *)
| ReturnAboveMinus100 (got : Q)       (* "Return must be > -100%, got .." *)
| ScenarioNameEmpty                   (* "Scenario name cannot be empty" *)
| SetupNameEmpty                      (* "Setup name cannot be empty" *)
| SetupProbabilityRange (got : Q)     (* "Setup probability must be in (0, 1], got .." *)
| AtLeastTwoScenarios                 (* "Setup must have at least 2 scenarios" *)
| ScenarioProbabilitiesSum (total : Q) (setup_name : string)
                                      (* "Scenario probabilities must sum to 1.0, got .. for setup '..'" *)
| SetupKellyPositive (got : Q)        (* "Per-setup kelly_fraction must be positive, got .." *)
| AtLeastOneSetup                     (* "At least one setup is required" *)
| SetupProbabilitiesSum (total : Q)   (* "Setup probabilities must sum to 1.0, got .." *)
| NumSimulationsAtLeast1              (* "Number of simulations must be >= 1" *)
| NumPeriodsAtLeast1                  (* "Number of periods must be >= 1" *)
| InitialCapitalPositive              (* "Initial capital must be positive" *)
| DefaultKellyPositive (got : Q)      (* "default_kelly_fraction must be positive, got .." *)
| LibraryMessage.                     (* a ValueError raised inside NumPy / SciPy *)

Inductive exn : Type :=
| ValueError (m : message)
| IndexError.

Inductive result (A : Type) : Type :=
| Ok (a : A)
| Raise (e : exn).

Arguments Ok {A} a.
Arguments Raise {A} e.

Definition bind {A B : Type} (m : result A) (k : A -> result B) : result B :=
  match m with
  | Ok a => k a
  | Raise e => Raise e
  end.

Declare Scope py_scope.
Delimit Scope py_scope with py.
Notation "x <- m ;; k" := (bind m (fun x => k))
  (at level 61, m at next level, right associativity) : py_scope.
Notation "m ;;; k" := (bind m (fun _ => k))
  (at level 61, right associativity) : py_scope.

(** [if cond: raise e] *)
Definition raise_if (cond : bool) (e : exn) : result unit :=
  if cond then Raise e else Ok tt.

(** Sequencing a list of computations, first exception wins. *)
Fixpoint sequence {A : Type} (l : list (result A)) : result (list A) :=
  match l with
  | [] => Ok []
  | m :: t => (a <- m ;; r <- sequence t ;; Ok (a :: r))%py
  end.

(** ** NumPy primitives *)

Module Numpy.

Section Generic.
Variable A : Type.

(** [a[k]] for a non-negative index [k]. *)
Definition getitem (a : list A) (k : nat) : result A :=
  match nth_error a k with
  | Some x => Ok x
  | None => Raise IndexError
  end.

(** [a[-1]] *)
Fixpoint getitem_last (a : list A) : result A :=
  match a with
  | [] => Raise IndexError
  | [x] => Ok x
  | _ :: t => getitem_last t
  end.

(** [a[-1] = v] *)
Fixpoint setitem_last (a : list A) (v : A) : result (list A) :=
  match a with
  | [] => Raise IndexError
  | [_] => Ok [v]
  | x :: t => (t' <- setitem_last t v ;; Ok (x :: t'))%py
  end.

(** Fancy indexing [a[idx]] with an integer index array. *)
Definition take (a : list A) (idx : list nat) : result (list A) :=
  sequence (map (getitem a) idx).

(** [mask.sum()] *)
Definition mask_sum (mask : list bool) : nat := length (filter (fun b => b) mask).

(** The True cells of [mask], in C order, receive the successive
    elements of [vals]; the other cells keep their content. *)
Fixpoint scatter (dst : list A) (mask : list bool) (vals : list A) : list A :=
  match dst, mask with
  | d :: dst', true :: mask' =>
      match vals with
      | v :: vals' => v :: scatter dst' mask' vals'
      | [] => d :: scatter dst' mask' []
      end
  | d :: dst', false :: mask' => d :: scatter dst' mask' vals
  | _, _ => dst
  end.

(** Boolean-mask assignment [dst[mask] = vals] for a 1-D [vals]: the
    number of values must equal the number of True cells, except that a
    single value is broadcast; anything else is a ValueError. *)
Definition setitem_mask (dst : list A) (mask : list bool) (vals : list A)
  : result (list A) :=
  if Nat.eqb (length vals) (mask_sum mask) then Ok (scatter dst mask vals)
  else match vals with
       | [v] => Ok (scatter dst mask (repeat v (mask_sum mask)))
       | _ => Raise (ValueError LibraryMessage)
       end.

(** Rows of a C-ordered buffer: [buf.reshape(-1, n_cols)]. *)
Fixpoint rows (n_rows n_cols : nat) (buf : list A) : list (list A) :=
  match n_rows with
  | O => []
  | S n => firstn n_cols buf :: rows n n_cols (skipn n_cols buf)
  end.
End Generic.

Section Pairwise.
Variables A B C : Type.
Variable f : A -> B -> C.

(** Element-wise operation on two arrays of one shape. *)
Fixpoint map2 (a : list A) (b : list B) : list C :=
  match a, b with
  | x :: a', y :: b' => f x y :: map2 a' b'
  | _, _ => []
  end.
End Pairwise.

(** [row.any()] *)
Definition any (row : list bool) : bool := existsb (fun b => b) row.

(** [row.astype(np.int8)] *)
Definition astype_int8 (row : list bool) : list Z :=
  map (fun b : bool => if b then 1%Z else 0%Z) row.

(** [np.diff(a)]: [out[k] = a[k+1] - a[k]]. *)
Fixpoint diff (a : list Z) : list Z :=
  match a with
  | x :: (y :: _) as t => (y - x)%Z :: diff t
  | _ => []
  end.

(** [np.where(d == v)[0]], counting positions from [i]. *)
Fixpoint where_eq_from (i : Z) (v : Z) (d : list Z) : list Z :=
  match d with
  | [] => []
  | x :: t =>
      if Z.eqb x v then i :: where_eq_from (i + 1) v t
      else where_eq_from (i + 1) v t
  end.

Definition where_eq (v : Z) (d : list Z) : list Z := where_eq_from 0 v d.

(** [a - b] on 1-D integer arrays, with NumPy's broadcasting rule: equal
    lengths, or one operand of length 1; otherwise a ValueError. *)
Definition subtract (a b : list Z) : result (list Z) :=
  if Nat.eqb (length a) (length b) then Ok (map2 Z.sub a b)
  else match a, b with
       | [x], _ => Ok (map (fun y => (x - y)%Z) b)
       | _, [y] => Ok (map (fun x => (x - y)%Z) a)
       | _, _ => Raise (ValueError LibraryMessage)
       end.

(** [a.max()]; a ValueError on an empty array. *)
Definition max (a : list Z) : result Z :=
  match a with
  | [] => Raise (ValueError LibraryMessage)
  | x :: t => Ok (fold_left Z.max t x)
  end.


(** *** Floating-point arrays (exact arithmetic on [Q]) *)

(** [x < y] on floats. *)
Definition Qltb (x y : Q) : bool := negb (Qle_bool y x).

(** Default relative tolerance of [np.isclose]. *)
Definition rtol : Q := 0.00001.

(** [np.isclose(a, b, atol=atol)] on finite values:
    [absolute(a - b) <= atol + rtol * absolute(b)] with the default [rtol]. *)
Definition isclose (a b atol : Q) : bool :=
  Qle_bool (Qabs (a - b)) (atol + rtol * Qabs b).

(** Python's builtin [sum]: starts from [0] and adds left to right. *)
Definition sum (l : list Q) : Q := fold_left Qplus l 0.

(** [np.dot] of two 1-D arrays. *)
Definition dot (a b : list Q) : Q := fold_left Qplus (map2 Qmult a b) 0.

(** [np.cumsum]: [out[0] = a[0]], [out[k] = out[k-1] + a[k]]. *)
Fixpoint cumsum_from (acc : Q) (a : list Q) : list Q :=
  match a with
  | [] => []
  | x :: t => (acc + x) :: cumsum_from (acc + x) t
  end.

Definition cumsum (a : list Q) : list Q :=
  match a with
  | [] => []
  | x :: t => x :: cumsum_from x t
  end.

(** [np.cumprod] along a row. *)
Fixpoint cumprod_from (acc : Q) (a : list Q) : list Q :=
  match a with
  | [] => []
  | x :: t => (acc * x) :: cumprod_from (acc * x) t
  end.

Definition cumprod (a : list Q) : list Q :=
  match a with
  | [] => []
  | x :: t => x :: cumprod_from x t
  end.

(** [a.min()]; a ValueError on an empty array. *)
Definition min (a : list Q) : result Q :=
  match a with
  | [] => Raise (ValueError LibraryMessage)
  | x :: t => Ok (fold_left (fun m y => if Qltb y m then y else m) t x)
  end.

(** The binary search of [np.searchsorted(a, v)] ([side='left']):
    [while lo < hi: mid = lo + ((hi - lo) >> 1);
     if a[mid] < v: lo = mid + 1 else: hi = mid].  [fuel] bounds the
    number of iterations; [hi - lo] of them always suffice. *)
Fixpoint binsearch_left (fuel : nat) (a : list Q) (v : Q) (lo hi : nat) : nat :=
  match fuel with
  | O => lo
  | S fuel' =>
      if Nat.ltb lo hi then
        let mid := (lo + Nat.div2 (hi - lo))%nat in
        if Qltb (nth mid a 0) v then binsearch_left fuel' a v (S mid) hi
        else binsearch_left fuel' a v lo mid
      else lo
  end.

Definition searchsorted (a : list Q) (v : Q) : nat :=
  binsearch_left (length a) a v 0 (length a).

(** The number of cells of an array of shape [shape]; NumPy refuses a
    negative dimension with a ValueError. *)
Definition shape_size (shape : list Z) : result nat :=
  if existsb (fun d => (d <? 0)%Z) shape then Raise (ValueError LibraryMessage)
  else Ok (fold_right (fun d n => (Z.to_nat d * n)%nat) 1%nat shape).

(** [np.empty(n)]: a buffer whose cells hold whatever the allocator left
    there, given by [junk]. *)
Definition empty (A : Type) (junk : nat -> A) (n : nat) : list A :=
  map junk (seq 0 n).

(** *** Doubles that may leave the finite range *)

(** A double: a rational number, or one of the IEEE specials that a
    division by zero or a library function can produce.  The two zeros of
    IEEE are not told apart. *)
Inductive float64 : Type :=
| nan
| neg_inf
| pos_inf
| finite (q : Q).

Definition isnan (a : float64) : bool :=
  match a with nan => true | _ => false end.

Definition isfinite (a : float64) : bool :=
  match a with finite _ => true | _ => false end.

(** [x / y] on two finite doubles: an infinity or nan when [y] is zero. *)
Definition true_divide (x y : Q) : float64 :=
  if Qeq_bool y 0 then
    if Qeq_bool x 0 then nan else if Qltb 0 x then pos_inf else neg_inf
  else finite (x / y).

Definition fneg (a : float64) : float64 :=
  match a with
  | nan => nan
  | neg_inf => pos_inf
  | pos_inf => neg_inf
  | finite x => finite (- x)
  end.

Definition fadd (a b : float64) : float64 :=
  match a, b with
  | nan, _ | _, nan => nan
  | neg_inf, pos_inf | pos_inf, neg_inf => nan
  | neg_inf, _ | _, neg_inf => neg_inf
  | pos_inf, _ | _, pos_inf => pos_inf
  | finite x, finite y => finite (x + y)
  end.

Definition fsub (a b : float64) : float64 := fadd a (fneg b).

(** The sign of a finite double times an infinity; nan for zero. *)
Definition scaled_inf (x : Q) (positive : bool) : float64 :=
  if Qeq_bool x 0 then nan
  else if Bool.eqb (Qltb 0 x) positive then pos_inf else neg_inf.

Definition fmul (a b : float64) : float64 :=
  match a, b with
  | nan, _ | _, nan => nan
  | finite x, finite y => finite (x * y)
  | finite x, pos_inf | pos_inf, finite x => scaled_inf x true
  | finite x, neg_inf | neg_inf, finite x => scaled_inf x false
  | pos_inf, pos_inf | neg_inf, neg_inf => pos_inf
  | pos_inf, neg_inf | neg_inf, pos_inf => neg_inf
  end.

(** [a / b] on doubles. *)
Definition divide (a b : float64) : float64 :=
  match a, b with
  | nan, _ | _, nan => nan
  | finite x, finite y => true_divide x y
  | finite _, pos_inf | finite _, neg_inf => finite 0
  | pos_inf, finite y => if Qltb y 0 then neg_inf else pos_inf
  | neg_inf, finite y => if Qltb y 0 then pos_inf else neg_inf
  | _, _ => nan
  end.

(** [a < b] and [a <= b]: False as soon as one side is nan. *)
Definition float_ltb (a b : float64) : bool :=
  match a, b with
  | nan, _ | _, nan => false
  | _, neg_inf | pos_inf, _ => false
  | neg_inf, _ | _, pos_inf => true
  | finite x, finite y => Qltb x y
  end.

Definition float_leb (a b : float64) : bool :=
  match a, b with
  | nan, _ | _, nan => false
  | neg_inf, _ | _, pos_inf => true
  | _, neg_inf | pos_inf, _ => false
  | finite x, finite y => Qle_bool x y
  end.

(** [np.minimum(m, y)]: nan wins, otherwise the smaller. *)
Definition minimum (m y : float64) : float64 :=
  if isnan m then m else if isnan y then y else if float_ltb y m then y else m.

(** [a.min()] / [np.min(a)] on doubles; a ValueError on an empty array. *)
Definition amin (a : list float64) : result float64 :=
  match a with
  | [] => Raise (ValueError LibraryMessage)
  | x :: t => Ok (fold_left minimum t x)
  end.

(** [np.mean(a)]: the sum over the count, nan on an empty array. *)
Definition mean (a : list float64) : float64 :=
  divide (fold_left fadd a (finite 0)) (finite (inject_Z (Z.of_nat (length a)))).

Section Sorting.
Variable A : Type.
Variable leb : A -> A -> bool.

Fixpoint insert (x : A) (l : list A) : list A :=
  match l with
  | [] => [x]
  | y :: t => if leb x y then x :: l else y :: insert x t
  end.

(** [np.sort(a)], as the ascending arrangement of the elements. *)
Definition sort (a : list A) : list A := fold_right insert [] a.
End Sorting.

(** [np.median(a)]: nan when the array holds a nan or is empty, otherwise
    the mean of the middle element or of the two middle elements of the
    sorted array. *)
Definition median (a : list float64) : float64 :=
  if existsb isnan a then nan
  else
    let part := sort float_leb a in
    let n := length a in
    let index := (n / 2)%nat in
    if Nat.odd n then mean (firstn 1 (skipn index part))
    else mean (firstn 2 (skipn (index - 1) part)).

(** The weighting of the two neighbours in NumPy's linear interpolation. *)
Definition lerp (a b t : Q) : Q :=
  if Qle_bool 0.5 t then b - (b - a) * (1 - t) else a + (b - a) * t.

(** [np.percentile(a, q)] of a 1-D array of finite doubles, for [q] in
    [[0, 100]] and the default method ([linear]): the sorted array is read
    at the virtual index [(n - 1) * q / 100], between its two neighbours.
    The package applies it to arrays that are not empty; nan stands for the
    answer on an empty one. *)
Definition percentile (a : list Q) (q : Q) : float64 :=
  match a with
  | [] => nan
  | _ :: _ =>
      let arr := sort Qle_bool a in
      let n := length a in
      let virtual_index := inject_Z (Z.of_nat (n - 1)) * (q / 100) in
      let previous := Z.to_nat (Qfloor virtual_index) in
      let next := Nat.min (previous + 1) (n - 1) in
      let gamma := virtual_index - inject_Z (Z.of_nat previous) in
      finite (lerp (nth previous arr 0) (nth next arr 0) gamma)
  end.

(** [np.maximum.accumulate(a)]: the running maximum. *)
Fixpoint maximum_accumulate_from (m : Q) (a : list Q) : list Q :=
  match a with
  | [] => []
  | x :: t =>
      let m' := if Qltb m x then x else m in
      m' :: maximum_accumulate_from m' t
  end.

Definition maximum_accumulate (a : list Q) : list Q :=
  match a with
  | [] => []
  | x :: t => x :: maximum_accumulate_from x t
  end.

(** [a[mask]] for a boolean mask of the shape of [a]. *)
Fixpoint compress (A : Type) (a : list A) (mask : list bool) : list A :=
  match a, mask with
  | x :: a', true :: mask' => x :: compress a' mask'
  | _ :: a', false :: mask' => compress a' mask'
  | _, _ => []
  end.

End Numpy.


(** ** models.py *)

Module Models.
Import Numpy.
Local Open Scope Q_scope.
Local Open Scope py_scope.

(** [str.isspace] on a character of an ASCII name. *)
Definition isspace (c : ascii) : bool :=
  let n := nat_of_ascii c in
  ((9 <=? n) && (n <=? 13) || (28 <=? n) && (n <=? 32))%nat.

Fixpoint lstrip (s : string) : string :=
  match s with
  | EmptyString => EmptyString
  | String c t => if isspace c then lstrip t else s
  end.

Fixpoint rstrip (s : string) : string :=
  match s with
  | EmptyString => EmptyString
  | String c t =>
      match rstrip t with
      | EmptyString => if isspace c then EmptyString else String c EmptyString
      | t' => String c t'
      end
  end.

(** [s.strip()] *)
Definition strip (s : string) : string := rstrip (lstrip s).

(** Truth value of a string: [not s] holds of the empty string only. *)
Definition not_str (s : string) : bool :=
  match s with
  | EmptyString => true
  | String _ _ => false
  end.

Module Scenario.
Record t : Type := {
  name : string;
  probability : Q;
  return_pct : Q
}.

Definition __post_init__ (self : t) : result unit :=
  raise_if (negb (Qle_bool 0 (probability self) && Qle_bool (probability self) 1))
           (ValueError (ProbabilityRange (probability self))) ;;;
  raise_if (Qle_bool (return_pct self) (-1))
           (ValueError (ReturnAboveMinus100 (return_pct self))) ;;;
  raise_if (not_str (strip (name self)))
           (ValueError ScenarioNameEmpty).

(** The dataclass constructor: the entity exists only if
    [__post_init__] returns. *)
Definition new (name : string) (probability return_pct : Q) : result t :=
  let self := Build_t name probability return_pct in
  __post_init__ self ;;; Ok self.

(** A constructed [Scenario]. *)
Definition valid (self : t) : Prop := __post_init__ self = Ok tt.
End Scenario.

Module Setup.
Record t : Type := {
  name : string;
  probability : Q;
  scenarios : list Scenario.t;
  kelly_fraction : option Q
}.

(** [sum(s.probability for s in self.scenarios)] *)
Definition total (self : t) : Q := sum (map Scenario.probability (scenarios self)).

Definition __post_init__ (self : t) : result unit :=
  raise_if (not_str (strip (name self)))
           (ValueError SetupNameEmpty) ;;;
  raise_if (negb (Qltb 0 (probability self) && Qle_bool (probability self) 1))
           (ValueError (SetupProbabilityRange (probability self))) ;;;
  raise_if (length (scenarios self) <? 2)%nat
           (ValueError AtLeastTwoScenarios) ;;;
  raise_if (negb (isclose (total self) 1 0.000001))
           (ValueError (ScenarioProbabilitiesSum (total self) (name self))) ;;;
  match kelly_fraction self with
  | Some k => raise_if (Qle_bool k 0) (ValueError (SetupKellyPositive k))
  | None => Ok tt
  end.

Definition new (name : string) (probability : Q) (scenarios : list Scenario.t)
           (kelly_fraction : option Q) : result t :=
  let self := Build_t name probability scenarios kelly_fraction in
  __post_init__ self ;;; Ok self.

(** A constructed [Setup]: its own check passed and so did the checks
    of the scenarios it holds. *)
Definition valid (self : t) : Prop :=
  __post_init__ self = Ok tt /\ Forall Scenario.valid (scenarios self).
End Setup.

Module SimulationConfig.
Record t : Type := {
  setups : list Setup.t;
  num_simulations : Z;
  num_periods : Z;
  initial_capital : Q;
  default_kelly_fraction : Q;
  seed : option Z
}.

(** [sum(s.probability for s in self.setups)] *)
Definition total (self : t) : Q := sum (map Setup.probability (setups self)).

Definition __post_init__ (self : t) : result unit :=
  raise_if (length (setups self) =? 0)%nat
           (ValueError AtLeastOneSetup) ;;;
  raise_if (negb (isclose (total self) 1 0.000001))
           (ValueError (SetupProbabilitiesSum (total self))) ;;;
  raise_if (num_simulations self <? 1)%Z
           (ValueError NumSimulationsAtLeast1) ;;;
  raise_if (num_periods self <? 1)%Z
           (ValueError NumPeriodsAtLeast1) ;;;
  raise_if (Qle_bool (initial_capital self) 0)
           (ValueError InitialCapitalPositive) ;;;
  raise_if (Qle_bool (default_kelly_fraction self) 0)
           (ValueError (DefaultKellyPositive (default_kelly_fraction self))).

Definition new (setups : list Setup.t) (num_simulations num_periods : Z)
           (initial_capital default_kelly_fraction : Q) (seed : option Z) : result t :=
  let self := Build_t setups num_simulations num_periods initial_capital
                      default_kelly_fraction seed in
  __post_init__ self ;;; Ok self.

Definition get_effective_kelly (self : t) (setup : Setup.t) : Q :=
  match Setup.kelly_fraction setup with
  | Some k => k
  | None => default_kelly_fraction self
  end.

Definition valid (self : t) : Prop :=
  __post_init__ self = Ok tt /\ Forall Setup.valid (setups self).
End SimulationConfig.

Module SimulationResult.
Record t : Type := {
  portfolio_values : list (list Q);   (* (num_simulations, num_periods + 1) *)
  period_returns : list (list Q);     (* (num_simulations, num_periods) *)
  setup_indices : list (list nat);    (* (num_simulations, num_periods) *)
  scenario_indices : list (list nat); (* (num_simulations, num_periods) *)
  config : SimulationConfig.t
}.
End SimulationResult.

(** Values of a float that went through [np.log]: a real number or one of
    the IEEE specials. *)
Inductive xfloat : Type :=
| NaN
| NegInf
| PosInf
| Finite (x : R).

Module KellyInfo.
Record t : Type := {
  setup_name : string;
  optimal_fraction : Q;
  expected_log_growth : xfloat;
  expected_return : Q;
  variance : Q;
  edge : Q;
  odds_description : string
}.
End KellyInfo.

Module AnalyticsReport.
Record t : Type := {
  (* Terminal wealth *)
  terminal_mean : float64;
  terminal_median : float64;
  terminal_std : float64;
  terminal_percentiles : list (Z * float64);   (* dict[int, float] *)
  (* Returns *)
  cagr_mean : float64;
  cagr_median : float64;
  annualized_volatility : float64;
  sharpe_ratio : float64;
  (* Drawdown *)
  max_drawdown_mean : float64;
  max_drawdown_median : float64;
  max_drawdown_worst : float64;
  avg_drawdown : float64;
  max_drawdown_duration_mean : float64;
  (* Risk *)
  probability_of_loss : float64;
  probability_of_ruin : float64;
  var_95 : float64;
  cvar_95 : float64;
  (* Per-setup Kelly info *)
  kelly_info : list KellyInfo.t
}.
End AnalyticsReport.

End Models.


(** ** validators.py *)

Module Validators.
Import Numpy Models.
Local Open Scope Q_scope.

(** [if cond: errors.append(msg)] *)
Definition append_if (cond : bool) (msg : string) (errors : list string) : list string :=
  if cond then errors ++ [msg] else errors.

(** [for e in inner: errors.append(f"[{name}] {e}")] *)
Definition append_prefixed (name : string) (inner errors : list string) : list string :=
  fold_left (fun errors e => errors ++ [("[" ++ name ++ "] " ++ e)%string]) inner errors.

Section WithFormat.
(** How an f-string prints a float: [format(x, "")] and [format(x, ".4f")]. *)
Variables format_float format_4f : Q -> string.

Definition validate_scenario (scenario : Scenario.t) : list string :=
  let errors := [] in
  let errors :=
    append_if (negb (Qle_bool 0 (Scenario.probability scenario)
                     && Qle_bool (Scenario.probability scenario) 1))
              ("Probability " ++ format_float (Scenario.probability scenario)
                 ++ " not in [0, 1]")%string errors in
  let errors :=
    append_if (Qle_bool (Scenario.return_pct scenario) (-1))
              ("Return " ++ format_float (Scenario.return_pct scenario)
                 ++ " would cause total loss (must be > -100%)")%string errors in
  let errors :=
    append_if (not_str (strip (Scenario.name scenario)))
              "Scenario name cannot be empty" errors in
  errors.

Definition validate_setup (setup : Setup.t) : list string :=
  let errors := [] in
  let errors :=
    append_if (not_str (strip (Setup.name setup))) "Setup name cannot be empty" errors in
  let errors :=
    append_if (length (Setup.scenarios setup) <? 2)%nat
              "Setup must have at least 2 scenarios" errors in
  let total_prob := sum (map Scenario.probability (Setup.scenarios setup)) in
  let errors :=
    append_if (negb (isclose total_prob 1 0.0001))
              ("Scenario probabilities sum to " ++ format_4f total_prob
                 ++ ", must equal 1.0")%string errors in
  let errors :=
    fold_left (fun errors sc =>
                 append_prefixed (Scenario.name sc) (validate_scenario sc) errors)
              (Setup.scenarios setup) errors in
  let errors :=
    match Setup.kelly_fraction setup with
    | Some k =>
        append_if (Qle_bool k 0)
                  ("Per-setup kelly_fraction must be positive, got " ++ format_float k)%string
                  errors
    | None => errors
    end in
  errors.

Definition validate_config (config : SimulationConfig.t) : list string :=
  let errors := [] in
  let errors :=
    append_if (SimulationConfig.num_simulations config <? 1)%Z
              "Number of simulations must be >= 1" errors in
  let errors :=
    append_if (1000000 <? SimulationConfig.num_simulations config)%Z
              "Number of simulations exceeds 1,000,000 limit" errors in
  let errors :=
    append_if (SimulationConfig.num_periods config <? 1)%Z
              "Number of periods must be >= 1" errors in
  let errors :=
    append_if (Qle_bool (SimulationConfig.initial_capital config) 0)
              "Initial capital must be positive" errors in
  let errors :=
    append_if (Qle_bool (SimulationConfig.default_kelly_fraction config) 0)
              ("default_kelly_fraction must be positive, got "
                 ++ format_float (SimulationConfig.default_kelly_fraction config))%string
              errors in
  let errors :=
    append_if (length (SimulationConfig.setups config) =? 0)%nat
              "At least one setup is required" errors in
  let total_setup_prob := sum (map Setup.probability (SimulationConfig.setups config)) in
  let errors :=
    append_if (negb (isclose total_setup_prob 1 0.0001))
              ("Setup probabilities sum to " ++ format_4f total_setup_prob
                 ++ ", must equal 1.0")%string errors in
  let errors :=
    fold_left (fun errors setup =>
                 append_prefixed (Setup.name setup) (validate_setup setup) errors)
              (SimulationConfig.setups config) errors in
  errors.
End WithFormat.

End Validators.


(** ** kelly.py *)

Module Kelly.
Import Numpy Models.
Local Open Scope Q_scope.
Local Open Scope py_scope.

(** *** IEEE arithmetic on the values [np.log] can produce *)

(** [np.log(t)]: the logarithm of a positive number, [-inf] at zero and
    [nan] below (NumPy warns, it does not raise). *)
Definition log (t : Q) : xfloat :=
  if Qltb 0 t then Finite (ln (Q2R t))
  else if Qle_bool 0 t then NegInf
  else NaN.

Definition xneg (a : xfloat) : xfloat :=
  match a with
  | NaN => NaN
  | NegInf => PosInf
  | PosInf => NegInf
  | Finite x => Finite (- x)
  end.

Definition xadd (a b : xfloat) : xfloat :=
  match a, b with
  | NaN, _ | _, NaN => NaN
  | NegInf, PosInf | PosInf, NegInf => NaN
  | NegInf, _ | _, NegInf => NegInf
  | PosInf, _ | _, PosInf => PosInf
  | Finite x, Finite y => Finite (x + y)
  end.

(** The product of a finite float [p] and [a]. *)
Definition xscale (p : Q) (a : xfloat) : xfloat :=
  match a with
  | NaN => NaN
  | Finite x => Finite (Q2R p * x)
  | NegInf => if Qltb 0 p then NegInf else if Qltb p 0 then PosInf else NaN
  | PosInf => if Qltb 0 p then PosInf else if Qltb p 0 then NegInf else NaN
  end.

(** [np.dot(probs, log_terms)] *)
Definition xdot (probs : list Q) (log_terms : list xfloat) : xfloat :=
  fold_left xadd (map2 xscale probs log_terms) (Finite 0).

(** *** The solver *)

(** The fields of SciPy's [OptimizeResult] the module reads. *)
Record OptimizeResult : Type := {
  x : Q;
  fun_ : xfloat
}.

(** The type of [scipy.optimize.minimize_scalar(f, bounds=(lo, hi),
    method="bounded")]. *)
Definition minimizer : Type := (Q -> xfloat) -> Q * Q -> result OptimizeResult.

(** What the module relies on: given [lo <= hi], the bounded method
    returns a point of [[lo, hi]]. *)
Definition bounded_method (minimize_scalar : minimizer) : Prop :=
  forall f lo hi,
    lo <= hi ->
    exists res, minimize_scalar f (lo, hi) = Ok res /\ lo <= x res <= hi.


Section WithLibraries.
(** [format(v, ".0%")] and [format(v, ".1%")] *)
Variables format_pct0 format_pct1 : Q -> string.
Variable minimize_scalar : minimizer.

Definition _build_odds_description (setup : Setup.t) : string :=
  let lines :=
    map (fun sc =>
           let sign := if Qle_bool 0 (Scenario.return_pct sc) then "+" else "" in
           Scenario.name sc ++ ": " ++ format_pct0 (Scenario.probability sc)
             ++ " chance of " ++ sign ++ format_pct1 (Scenario.return_pct sc))%string
        (Setup.scenarios setup) in
  String.concat "; " lines.

Definition compute_kelly_fraction (setup : Setup.t) : result KellyInfo.t :=
  let probs := map Scenario.probability (Setup.scenarios setup) in
  let returns := map Scenario.return_pct (Setup.scenarios setup) in
  let expected_return := dot probs returns in
  let variance := dot probs (map (fun r => (r - expected_return) ^ 2) returns) in
  if Qle_bool expected_return 0 then
    Ok {| KellyInfo.setup_name := Setup.name setup;
          KellyInfo.optimal_fraction := 0;
          KellyInfo.expected_log_growth := Finite 0;
          KellyInfo.expected_return := expected_return;
          KellyInfo.variance := variance;
          KellyInfo.edge := expected_return;
          KellyInfo.odds_description := _build_odds_description setup |}
  else
    min_return <- min returns ;;
    let f_max := if Qltb min_return 0 then -1 / min_return - 0.000000001 else 10 in
    let neg_expected_log_growth := fun f : Q =>
      let log_terms := map (fun r => log (1 + f * r)) returns in
      xneg (xdot probs log_terms) in
    res <- minimize_scalar neg_expected_log_growth (0, f_max) ;;
    let optimal_f := x res in
    let expected_log_growth := xneg (fun_ res) in
    let clamp := Qltb optimal_f 0.00000001 in
    let optimal_f := if clamp then 0 else optimal_f in
    let expected_log_growth := if clamp then Finite 0 else expected_log_growth in
    Ok {| KellyInfo.setup_name := Setup.name setup;
          KellyInfo.optimal_fraction := optimal_f;
          KellyInfo.expected_log_growth := expected_log_growth;
          KellyInfo.expected_return := expected_return;
          KellyInfo.variance := variance;
          KellyInfo.edge := expected_return;
          KellyInfo.odds_description := _build_odds_description setup |}.

(** The [for setup in setups] loop of [compute_blended_kelly], from the
    running [weighted_sum]. *)
Fixpoint blended_loop (weighted_sum : Q) (setups : list Setup.t) : result Q :=
  match setups with
  | [] => Ok weighted_sum
  | setup :: rest =>
      info <- compute_kelly_fraction setup ;;
      blended_loop (weighted_sum + Setup.probability setup * KellyInfo.optimal_fraction info)
                   rest
  end.

Definition compute_blended_kelly (setups : list Setup.t) : result Q :=
  blended_loop 0 setups.
End WithLibraries.

Definition expected_log_growth_at (setup : Setup.t) (fraction : Q) : xfloat :=
  let probs := map Scenario.probability (Setup.scenarios setup) in
  let returns := map Scenario.return_pct (Setup.scenarios setup) in
  let terms := map (fun r => 1 + fraction * r) returns in
  if existsb (fun t => Qle_bool t 0) terms then NegInf
  else xdot probs (map log terms).

(** The sum [sum_i p_i * ln(1 + f * r_i)] over the scenarios, in the reals. *)
Definition growth (scenarios : list Scenario.t) (f : Q) : R :=
  fold_right (fun sc acc =>
                (Q2R (Scenario.probability sc)
                 * ln (Q2R (1 + f * Scenario.return_pct sc)) + acc)%R)
             0%R scenarios.

(** A stand-in for the library routine used to run the solver on concrete
    setups: it answers the point of [[lo, hi]] nearest to [guess]. *)
Definition nearest_point (guess : Q) : minimizer :=
  fun f bounds =>
    let (lo, hi) := bounds in
    if Qltb hi lo then Raise (ValueError LibraryMessage)
    else
      let x0 := if Qltb guess lo then lo else if Qltb hi guess then hi else guess in
      Ok {| x := x0; fun_ := f x0 |}.

End Kelly.

(** ** engine.py *)

Module Engine.
Import Numpy Models.
Local Open Scope Q_scope.
Local Open Scope py_scope.

(** A [np.random.Generator]: the stream of doubles its bit generator
    yields and the number of doubles consumed so far. *)
Record Generator : Type := {
  stream : nat -> Q;
  position : nat
}.

(** [rng.random(size)]: as many of the next draws as an array of shape
    [size] has cells, in C order. *)
Definition random (rng : Generator) (size : list Z) : result (list Q * Generator) :=
  n <- shape_size size ;;
  Ok (map (stream rng) (seq (position rng) n),
      {| stream := stream rng; position := position rng + n |}).

(** A stream of draws from the half-open unit interval. *)
Definition uniform (draws : nat -> Q) : Prop := forall k, 0 <= draws k < 1.

Section WithEnvironment.
(** The stream of the default bit generator seeded with an integer. *)
Variable seeded : Z -> nat -> Q.
(** The stream obtained from fresh operating-system entropy when the
    seed is [None]; it differs from one invocation to the next. *)
Variable entropy : nat -> Q.
(** The contents of freshly allocated, uninitialised buffers. *)
Variable junk_int : nat -> nat.
Variable junk_float : nat -> Q.

(** [np.random.default_rng(seed)]; a negative seed is a ValueError. *)
Definition default_rng (seed : option Z) : result Generator :=
  match seed with
  | None => Ok {| stream := entropy; position := 0 |}
  | Some s =>
      if (s <? 0)%Z then Raise (ValueError LibraryMessage)
      else Ok {| stream := seeded s; position := 0 |}
  end.

Definition _sample_categorical (rng : Generator) (probs : list Q) (size : list Z)
  : result (list nat * Generator) :=
  cumprobs <- setitem_last (cumsum probs) 1 ;;
  drawn <- random rng size ;;
  let (u, rng) := drawn : list Q * Generator in
  Ok (map (searchsorted cumprobs) u, rng).

(** The variables the [for setup_idx] loop updates. *)
Record LoopState : Type := {
  rng : Generator;
  scenario_indices : list nat;
  period_returns : list Q
}.

Definition loop_body (scenario_probs scenario_returns : list (list Q))
           (setup_indices : list nat) (st : LoopState) (setup_idx : nat)
  : result LoopState :=
  let mask := map (fun s => Nat.eqb s setup_idx) setup_indices in
  let count := mask_sum mask in
  if (count =? 0)%nat then Ok st
  else
    probs <- getitem scenario_probs setup_idx ;;
    sampled <- _sample_categorical (rng st) probs [Z.of_nat count] ;;
    let (sc_idx, rng) := sampled : list nat * Generator in
    scenario_indices <- setitem_mask (scenario_indices st) mask sc_idx ;;
    returns <- getitem scenario_returns setup_idx ;;
    drawn <- take returns sc_idx ;;
    period_returns <- setitem_mask (period_returns st) mask drawn ;;
    Ok {| rng := rng;
          scenario_indices := scenario_indices;
          period_returns := period_returns |}.

Fixpoint for_range (body : LoopState -> nat -> result LoopState)
         (range : list nat) (st : LoopState) : result LoopState :=
  match range with
  | [] => Ok st
  | i :: rest => st' <- body st i ;; for_range body rest st'
  end.

Definition run_simulation (config : SimulationConfig.t) : result SimulationResult.t :=
  rng <- default_rng (SimulationConfig.seed config) ;;
  let n_sims := Z.to_nat (SimulationConfig.num_simulations config) in
  let n_periods := Z.to_nat (SimulationConfig.num_periods config) in
  let setups := SimulationConfig.setups config in
  let setup_probs := map Setup.probability setups in
  let scenario_probs :=
    map (fun setup => map Scenario.probability (Setup.scenarios setup)) setups in
  let scenario_returns :=
    map (fun setup => map Scenario.return_pct (Setup.scenarios setup)) setups in
  let kelly_fractions := map (SimulationConfig.get_effective_kelly config) setups in
  sampled <- _sample_categorical rng setup_probs
               [SimulationConfig.num_simulations config;
                SimulationConfig.num_periods config] ;;
  let (setup_indices, rng) := sampled : list nat * Generator in
  let st0 := {| rng := rng;
                scenario_indices := empty junk_int (n_sims * n_periods);
                period_returns := empty junk_float (n_sims * n_periods) |} in
  st <- for_range (loop_body scenario_probs scenario_returns setup_indices)
                  (seq 0 (length setups)) st0 ;;
  effective_kelly <- take kelly_fractions setup_indices ;;
  let growth_factors :=
    map2 (fun k r => 1 + k * r) effective_kelly (period_returns st) in
  let cum_growth := map cumprod (rows n_sims n_periods growth_factors) in
  let initial_capital := SimulationConfig.initial_capital config in
  let portfolio_values :=
    map (fun row => initial_capital :: map (Qmult initial_capital) row) cum_growth in
  Ok {| SimulationResult.portfolio_values := portfolio_values;
        SimulationResult.period_returns := rows n_sims n_periods (period_returns st);
        SimulationResult.setup_indices := rows n_sims n_periods setup_indices;
        SimulationResult.scenario_indices :=
          rows n_sims n_periods (scenario_indices st);
        SimulationResult.config := config |}.
End WithEnvironment.

(** *** Auxiliary notions for the proofs *)

(** [r] is entry [j] of the return table of setup [s]. *)
Definition drawn_from (scenario_returns : list (list Q)) (s j : nat) (r : Q) : Prop :=
  exists returns, nth_error scenario_returns s = Some returns /\ nth_error returns j = Some r.

(** The loop invariant: every cell whose setup index is below [k] holds a
    scenario index of that setup and the matching raw return. *)
Definition filled (scenario_returns : list (list Q)) (setup_indices : list nat)
           (k : nat) (st : LoopState) : Prop :=
  length (scenario_indices st) = length setup_indices /\
  length (period_returns st) = length setup_indices /\
  forall c s,
    nth_error setup_indices c = Some s -> (s < k)%nat ->
    exists j r,
      nth_error (scenario_indices st) c = Some j /\
      nth_error (period_returns st) c = Some r /\
      drawn_from scenario_returns s j r.

(** Two runs of the loop agree on the generator and on every cell whose
    setup index is below [k]. *)
Definition agree (setup_indices : list nat) (k : nat) (st1 st2 : LoopState) : Prop :=
  rng st1 = rng st2 /\
  length (scenario_indices st1) = length setup_indices /\
  length (scenario_indices st2) = length setup_indices /\
  length (period_returns st1) = length setup_indices /\
  length (period_returns st2) = length setup_indices /\
  forall c s,
    nth_error setup_indices c = Some s -> (s < k)%nat ->
    nth_error (scenario_indices st1) c = nth_error (scenario_indices st2) c /\
    nth_error (period_returns st1) c = nth_error (period_returns st2) c.

(** Two computations end alike: both raise the same exception, or both
    return and the results are related. *)
Definition alike (A : Type) (R : A -> A -> Prop) (m1 m2 : result A) : Prop :=
  match m1, m2 with
  | Ok a1, Ok a2 => R a1 a2
  | Raise e1, Raise e2 => e1 = e2
  | _, _ => False
  end.

(** The tables are aligned: one non-empty probability vector and one
    return vector of the same length per setup. *)
Definition aligned (scenario_probs scenario_returns : list (list Q)) : Prop :=
  Forall2 (fun probs returns => probs <> [] /\ length probs = length returns)
          scenario_probs scenario_returns.

(** The lookup tables [run_simulation] builds from the configuration. *)
Definition scenario_probs_of (setups : list Setup.t) : list (list Q) :=
  map (fun setup => map Scenario.probability (Setup.scenarios setup)) setups.

Definition scenario_returns_of (setups : list Setup.t) : list (list Q) :=
  map (fun setup => map Scenario.return_pct (Setup.scenarios setup)) setups.

(** [m[i, j]] *)
Definition cell (A : Type) (m : list (list A)) (i j : nat) : option A :=
  match nth_error m i with
  | Some row => nth_error row j
  | None => None
  end.

End Engine.


(** ** Setups and configurations of the test suite *)

Module Fixtures.
Import Models.
Local Open Scope Q_scope.

(** A formatter that prints nothing, for running the solver where the
    description does not matter. *)
Definition no_format (v : Q) : string := "".

(** [test_two_outcome_matches_closed_form]: Kelly optimum 4.0. *)
Definition two_outcome_scenarios : list Scenario.t :=
  [ Scenario.Build_t "Win" 0.6 0.2; Scenario.Build_t "Loss" 0.4 (-0.1) ].

Definition two_outcome : Setup.t :=
  Setup.Build_t "TwoOutcome" 1 two_outcome_scenarios None.

(** The same regime, active half of the time. *)
Definition two_outcome_half : Setup.t :=
  Setup.Build_t "TwoOutcome" 0.5 two_outcome_scenarios None.

(** [test_negative_expected_value] *)
Definition bad_bet : Setup.t :=
  Setup.Build_t "BadBet" 1
    [ Scenario.Build_t "Win" 0.3 0.1; Scenario.Build_t "Loss" 0.7 (-0.1) ] None.

(** [two_setup_config] of the test suite. *)
Definition two_setup_config : SimulationConfig.t :=
  SimulationConfig.Build_t
    [ Setup.Build_t "Bull" 0.6
        [ Scenario.Build_t "Win" 0.55 0.25;
          Scenario.Build_t "Loss" 0.35 (-0.12);
          Scenario.Build_t "Stress" 0.10 (-0.45) ] None;
      Setup.Build_t "Bear" 0.4
        [ Scenario.Build_t "Win" 0.30 0.15;
          Scenario.Build_t "Loss" 0.50 (-0.20);
          Scenario.Build_t "Stress" 0.20 (-0.60) ] None ]
    1000 50 100 0.25 (Some 42%Z).

(** One path, two periods, twice leveraged: a 90% loss is on the table. *)
Definition leveraged_config : SimulationConfig.t :=
  SimulationConfig.Build_t
    [ Setup.Build_t "Risky" 1
        [ Scenario.Build_t "Win" 0.5 0.1; Scenario.Build_t "Loss" 0.5 (-0.9) ] None ]
    1 2 100 2 (Some 42%Z).

(** The opening draws of [np.random.default_rng(42)], to eight decimals;
    the stream is continued with 0.5. *)
Definition opening_draws_42 : nat -> Q :=
  fun k => nth k [0.77395605; 0.43887844; 0.85859792; 0.69736803;
                  0.09417735; 0.97562235; 0.7611397; 0.78606431; 0.12811363] 0.5.

(** [test_always_positive_returns_no_loss] *)
Definition always_positive_config : SimulationConfig.t :=
  SimulationConfig.Build_t
    [ Setup.Build_t "Bull" 1
        [ Scenario.Build_t "Small" 0.5 0.05; Scenario.Build_t "Big" 0.5 0.10 ] None ]
    100 20 100 0.25 (Some 42%Z).

(** Three paths of three periods: one that ends above the start, one
    below, one flat. *)
Definition three_paths : SimulationResult.t :=
  {| SimulationResult.portfolio_values :=
       [ [100; 110; 99; 120]; [100; 90; 95; 80]; [100; 100; 100; 100] ];
     SimulationResult.period_returns :=
       [ [0.1; -0.1; 0.2]; [-0.1; 0.05; -0.15]; [0; 0; 0] ];
     SimulationResult.setup_indices := [ [0; 0; 0]; [0; 0; 0]; [0; 0; 0] ]%nat;
     SimulationResult.scenario_indices := [ [0; 1; 0]; [1; 0; 1]; [0; 0; 0] ]%nat;
     SimulationResult.config := two_setup_config |}.

(** A result without a period: the initial capital alone. *)
Definition no_period : SimulationResult.t :=
  {| SimulationResult.portfolio_values := [ [100]; [100] ];
     SimulationResult.period_returns := [ []; [] ];
     SimulationResult.setup_indices := [ []; [] ];
     SimulationResult.scenario_indices := [ []; [] ];
     SimulationResult.config := two_setup_config |}.

(** Stand-ins for the library's [sqrt], [log] and [power], for running
    the analytics where these fields do not matter. *)
Definition unary (a : Numpy.float64) : Numpy.float64 := a.
Definition binary (a b : Numpy.float64) : Numpy.float64 := a.

(** Streams of draws that repeat one value. *)
Definition constant_stream (u : Q) : nat -> Q := fun _ => u.

End Fixtures.

(** ** analytics.py *)

Module Analytics.
Import Numpy.
Local Open Scope Z_scope.
Local Open Scope py_scope.

(** The body of the [for i in range(n_rows)] loop of
    [_max_consecutive_true]: the value left in [result[i]]. *)
Definition max_consecutive_true_row (n_cols : Z) (row : list bool) : result Z :=
  if negb (any row) then Ok 0
  else
    let d := diff (astype_int8 row) in
    let starts := map (fun k => k + 1) (where_eq 1 d) in
    let ends := map (fun k => k + 1) (where_eq (-1) d) in
    row_0 <- getitem row 0 ;;
    let starts := if (row_0 : bool) then [0] ++ starts else starts in
    row_last <- getitem_last row ;;
    let ends := if (row_last : bool) then ends ++ [n_cols] else ends in
    if (0 <? length starts)%nat && (0 <? length ends)%nat then
      lengths <- subtract ends starts ;;
      max lengths
    else Ok 0.

(** [_max_consecutive_true(arr)] for an array of shape [(n_rows, n_cols)]. *)
Definition _max_consecutive_true (n_cols : Z) (arr : list (list bool)) : result (list Z) :=
  sequence (map (max_consecutive_true_row n_cols) arr).

(** The specification's reading of "longest unbroken run": a linear scan
    that tracks the current and the best run length. *)
Fixpoint longest_run_from (cur best : nat) (row : list bool) : nat :=
  match row with
  | [] => best
  | true :: t => longest_run_from (S cur) (Nat.max best (S cur)) t
  | false :: t => longest_run_from 0 best t
  end.

Definition longest_run (row : list bool) : nat := longest_run_from 0 0 row.

(** [is_run row i k]: the [k] cells of [row] from column [i] on exist and
    are all True. *)
Definition is_run (row : list bool) (i k : nat) : Prop :=
  (i + k <= length row)%nat /\
  forall j, (i <= j < i + k)%nat -> nth_error row j = Some true.

(** The lengths of the maximal runs of True of a row, left to right, when
    [cur] True cells immediately precede the row. *)
Fixpoint run_lengths_from (cur : Z) (row : list bool) : list Z :=
  match row with
  | [] => if 0 <? cur then [cur] else []
  | true :: t => run_lengths_from (cur + 1) t
  | false :: t => (if 0 <? cur then [cur] else []) ++ run_lengths_from 0 t
  end.

(** *** Auxiliary notions for the proofs *)

(** Start and end markers of the difference array, from column [i]. *)
Definition starts_from (i : Z) (l : list bool) : list Z :=
  map (fun k => k + 1) (where_eq_from i 1 (diff (astype_int8 l))).

Definition ends_from (i : Z) (l : list bool) : list Z :=
  map (fun k => k + 1) (where_eq_from i (-1) (diff (astype_int8 l))).

(** The closing marker [n_cols] appended when the row ends in True. *)
Definition closing (i : Z) (b : bool) (t : list bool) : list Z :=
  if last t b then [i + 1 + Z.of_nat (length t)] else [].

(** The maximum of the run lengths, [0] for a row without a run. *)
Definition max0 (l : list Z) : Z := fold_left Z.max l 0.

(** The tail of the loop body, once [starts] and [ends] are complete. *)
Definition finish (starts ends : list Z) : result Z :=
  if ((0 <? length starts)%nat && (0 <? length ends)%nat)%bool then
    (lengths <- subtract ends starts ;; max lengths)%py
  else Ok 0.

(** [L] is the length of the longest unbroken run of True cells of [row]:
    some run has that length and no run is longer. *)
Definition longest_true_run (row : list bool) (L : nat) : Prop :=
  (exists i, is_run row i L) /\ (forall i k, is_run row i k -> (k <= L)%nat).

(** *** Paths *)

(** A path that starts above zero. *)
Definition starts_positive (row : list Q) : Prop :=
  exists v t, row = v :: t /\ (0 < v)%Q.

(** A path that never falls from one period to the next. *)
Definition never_falls (row : list Q) : Prop :=
  forall j a b, nth_error row j = Some a -> nth_error row (S j) = Some b -> (a <= b)%Q.

(** *** compute_analytics *)

(** What [compute_analytics] can raise: the exceptions of the modules it
    calls and Python's own [ZeroDivisionError]. *)
Inductive error : Type :=
| Exception (e : exn)
| ZeroDivisionError.

Inductive outcome (A : Type) : Type :=
| Return (a : A)
| Throw (e : error).

Arguments Return {A} a.
Arguments Throw {A} e.

Definition and_then {A B : Type} (m : outcome A) (k : A -> outcome B) : outcome B :=
  match m with
  | Return a => k a
  | Throw e => Throw e
  end.

(** A call into NumPy or into the package. *)
Definition call {A : Type} (m : result A) : outcome A :=
  match m with
  | Ok a => Return a
  | Raise e => Throw (Exception e)
  end.

Declare Scope outcome_scope.
Delimit Scope outcome_scope with outcome.
Notation "x <- m ;; k" := (and_then m (fun x => k))
  (at level 61, m at next level, right associativity) : outcome_scope.

(** [pv.shape[1]].  A matrix is the list of its rows; the list without
    rows stands for the matrix of shape [(0, 0)]. *)
Definition shape_1 (A : Type) (pv : list (list A)) : nat :=
  match pv with
  | [] => 0%nat
  | row :: _ => length row
  end.

(** [pv[:, -1]]: an IndexError when the matrix has no column. *)
Definition last_column (pv : list (list Q)) : result (list Q) :=
  if (shape_1 pv =? 0)%nat then Raise IndexError
  else sequence (map (@getitem_last Q) pv).

(** A boolean read as a double, as [np.mean] does for a boolean array. *)
Definition of_bool (b : bool) : float64 := finite (if b then 1 else 0)%Q.

Section WithLibraries.
Local Open Scope Q_scope.
Local Open Scope outcome_scope.
Variables format_pct0 format_pct1 : Q -> string.
Variable minimize_scalar : Kelly.minimizer.
(** [np.sqrt], [np.log] and [np.power] on doubles. *)
Variables np_sqrt np_log : float64 -> float64.
Variable np_power : float64 -> float64 -> float64.

(** [np.std(a)]: the root of the mean squared deviation from the mean. *)
Definition std (a : list float64) : float64 :=
  let arrmean := mean a in
  np_sqrt (mean (map (fun v => fmul (fsub v arrmean) (fsub v arrmean)) a)).

Definition compute_analytics (result : Models.SimulationResult.t)
  : outcome Models.AnalyticsReport.t :=
  let config := Models.SimulationResult.config result in
  let pv := Models.SimulationResult.portfolio_values result in
  let n_periods := (Z.of_nat (shape_1 pv) - 1)%Z in
  let initial := Models.SimulationConfig.initial_capital config in
  (* Terminal wealth *)
  terminal <- call (last_column pv) ;;
  let percentile_keys := [1; 5; 10; 25; 50; 75; 90; 95; 99]%Z in
  let terminal_percentiles :=
    map (fun p => (p, percentile terminal (inject_Z p))) percentile_keys in
  (* CAGR per path *)
  exponent <- (if (n_periods =? 0)%Z then Throw ZeroDivisionError
               else Return (1 / inject_Z n_periods)) ;;
  let cagr_per_path :=
    map (fun t => fsub (np_power (true_divide t initial) (finite exponent)) (finite 1))
        terminal in
  (* Volatility from log returns *)
  let log_returns :=
    map (fun row => map np_log (map2 true_divide (tl row) (removelast row))) pv in
  let period_vol := map std log_returns in
  let annualized_vol := mean period_vol in
  (* Sharpe-like metric across all observations *)
  let all_returns := map finite (concat (Models.SimulationResult.period_returns result)) in
  let std_returns := std all_returns in
  let sharpe :=
    if float_ltb (finite 0) std_returns then divide (mean all_returns) std_returns
    else finite 0 in
  (* Drawdown analysis *)
  let running_max := map maximum_accumulate pv in
  let drawdowns := map2 (map2 (fun v m => true_divide (v - m) m)) pv running_max in
  max_dd_per_path <- call (sequence (map amin drawdowns)) ;;
  let is_in_drawdown :=
    map (map (fun d => float_ltb d (finite (-0.0000000001)))) drawdowns in
  dd_durations <- call (_max_consecutive_true (Z.of_nat (shape_1 pv)) is_in_drawdown) ;;
  let avg_drawdown :=
    if any (concat is_in_drawdown)
    then mean (compress (concat drawdowns) (concat is_in_drawdown))
    else finite 0 in
  (* Risk metrics *)
  let prob_loss := mean (map (fun t => of_bool (Qltb t initial)) terminal) in
  let ruin_threshold := initial * 0.10 in
  let prob_ruin := mean (map (fun t => of_bool (Qltb t ruin_threshold)) terminal) in
  let terminal_pnl := map (fun t => t - initial) terminal in
  let var_95 := percentile terminal_pnl 5 in
  let cvar_mask := map (fun v => float_leb (finite v) var_95) terminal_pnl in
  let cvar_95 :=
    if any cvar_mask then mean (map finite (compress terminal_pnl cvar_mask))
    else var_95 in
  (* Kelly info per setup *)
  kelly_info <-
    call (sequence (map (Kelly.compute_kelly_fraction format_pct0 format_pct1
                                                      minimize_scalar)
                        (Models.SimulationConfig.setups config))) ;;
  max_dd_worst <- call (amin max_dd_per_path) ;;
  Return {| Models.AnalyticsReport.terminal_mean := mean (map finite terminal);
            Models.AnalyticsReport.terminal_median := median (map finite terminal);
            Models.AnalyticsReport.terminal_std := std (map finite terminal);
            Models.AnalyticsReport.terminal_percentiles := terminal_percentiles;
            Models.AnalyticsReport.cagr_mean := mean cagr_per_path;
            Models.AnalyticsReport.cagr_median := median cagr_per_path;
            Models.AnalyticsReport.annualized_volatility := annualized_vol;
            Models.AnalyticsReport.sharpe_ratio := sharpe;
            Models.AnalyticsReport.max_drawdown_mean := mean max_dd_per_path;
            Models.AnalyticsReport.max_drawdown_median := median max_dd_per_path;
            Models.AnalyticsReport.max_drawdown_worst := max_dd_worst;
            Models.AnalyticsReport.avg_drawdown := avg_drawdown;
            Models.AnalyticsReport.max_drawdown_duration_mean :=
              mean (map (fun d => finite (inject_Z d)) dd_durations);
            Models.AnalyticsReport.probability_of_loss := prob_loss;
            Models.AnalyticsReport.probability_of_ruin := prob_ruin;
            Models.AnalyticsReport.var_95 := var_95;
            Models.AnalyticsReport.cvar_95 := cvar_95;
            Models.AnalyticsReport.kelly_info := kelly_info |}.
End WithLibraries.

End Analytics.

(* ================================================================== *)
(** * Properties *)
(* ================================================================== *)

(** Linear arithmetic over the rationals and over the reals. *)
Ltac lraQ := Lqa.lra.
Ltac nraQ := Lqa.nra.
Ltac lraR := Lra.lra.

(** ** models.py: construction-time checks *)

Module ModelsProps.
Import Numpy Models.
Local Open Scope Q_scope.

Lemma Qltb_lt (x y : Q) : Qltb x y = true <-> x < y.
Proof.
  unfold Qltb. rewrite negb_true_iff. split.
  - intros H. apply Qnot_le_lt. intros Hle.
    apply Qle_bool_iff in Hle. congruence.
  - intros H. destruct (Qle_bool y x) eqn:E; [|reflexivity].
    apply Qle_bool_iff in E. exfalso. exact (Qlt_not_le _ _ H E).
Qed.

Lemma Qltb_ge (x y : Q) : Qltb x y = false <-> y <= x.
Proof.
  unfold Qltb. rewrite negb_false_iff. apply Qle_bool_iff.
Qed.

Lemma Qle_bool_gt (x y : Q) : Qle_bool x y = false <-> y < x.
Proof.
  rewrite <- Qltb_lt. unfold Qltb. rewrite negb_true_iff. reflexivity.
Qed.

Lemma raise_if_ok (c : bool) (e : exn) : raise_if c e = Ok tt <-> c = false.
Proof. destruct c; simpl; split; congruence. Qed.

Lemma bind_unit_ok (m k : result unit) :
  bind m (fun _ => k) = Ok tt <-> m = Ok tt /\ k = Ok tt.
Proof.
  destruct m as [[]|e]; simpl; split; try tauto; try congruence;
    try (intros [H _]; congruence).
Qed.

(** The effective tolerance of [np.isclose(total, 1.0, atol=1e-6)]: the
    default relative term adds [1e-5 * |1.0|] to the absolute one. *)
Lemma isclose_one (total : Q) :
  isclose total 1 0.000001 = true <-> Qabs (total - 1) <= 0.000011.
Proof.
  unfold isclose, rtol. rewrite Qle_bool_iff.
  change (Qabs 1) with 1. split; intros H; lraQ.
Qed.

(** What a constructed [Scenario] satisfies. *)
Lemma Scenario_valid_inv (sc : Scenario.t) :
  Scenario.valid sc ->
  0 <= Scenario.probability sc <= 1 /\ -1 < Scenario.return_pct sc.
Proof.
  unfold Scenario.valid, Scenario.__post_init__.
  rewrite !bind_unit_ok, !raise_if_ok, negb_false_iff, andb_true_iff, !Qle_bool_iff.
  intros (H1 & H2 & _). apply Qle_bool_gt in H2. tauto.
Qed.

(** What a constructed [Setup] satisfies. *)
Lemma Setup_valid_inv (setup : Setup.t) :
  Setup.valid setup ->
  0 < Setup.probability setup <= 1 /\
  (2 <= length (Setup.scenarios setup))%nat /\
  Qabs (Setup.total setup - 1) <= 0.000011 /\
  (forall k, Setup.kelly_fraction setup = Some k -> 0 < k) /\
  Forall Scenario.valid (Setup.scenarios setup).
Proof.
  unfold Setup.valid, Setup.__post_init__.
  rewrite !bind_unit_ok, !raise_if_ok, !negb_false_iff, andb_true_iff,
    Qltb_lt, Qle_bool_iff, isclose_one, Nat.ltb_ge.
  intros [(_ & H2 & H3 & H4 & H5) H6]. repeat split; try tauto.
  intros k Hk. rewrite Hk in H5. apply raise_if_ok, Qle_bool_gt in H5. exact H5.
Qed.

(** What a constructed [SimulationConfig] satisfies. *)
Lemma SimulationConfig_valid_inv (config : SimulationConfig.t) :
  SimulationConfig.valid config ->
  SimulationConfig.setups config <> [] /\
  Qabs (SimulationConfig.total config - 1) <= 0.000011 /\
  (1 <= SimulationConfig.num_simulations config)%Z /\
  (1 <= SimulationConfig.num_periods config)%Z /\
  0 < SimulationConfig.initial_capital config /\
  0 < SimulationConfig.default_kelly_fraction config /\
  Forall Setup.valid (SimulationConfig.setups config).
Proof.
  unfold SimulationConfig.valid, SimulationConfig.__post_init__.
  rewrite !bind_unit_ok, !raise_if_ok, !negb_false_iff, isclose_one,
    !Z.ltb_ge, !Qle_bool_gt, Nat.eqb_neq.
  intros [(H1 & H2 & H3 & H4 & H5 & H6) H7]. repeat split; try tauto.
  intros E. apply H1. rewrite E. reflexivity.
Qed.

(** The probability-sum check of [Setup]: once the earlier checks pass,
    construction raises the sum error exactly when the total is further
    than [1.1e-5] from [1.0]. *)
Lemma Setup_sum_check (setup : Setup.t) :
  not_str (strip (Setup.name setup)) = false ->
  0 < Setup.probability setup <= 1 ->
  (2 <= length (Setup.scenarios setup))%nat ->
  (Setup.__post_init__ setup =
     Raise (ValueError (ScenarioProbabilitiesSum (Setup.total setup) (Setup.name setup)))
   <-> 0.000011 < Qabs (Setup.total setup - 1)).
Proof.
  intros Hn [Hp0 Hp1] Hlen. unfold Setup.__post_init__.
  rewrite Hn. apply Qltb_lt in Hp0. apply Qle_bool_iff in Hp1. rewrite Hp0, Hp1.
  apply Nat.ltb_ge in Hlen. rewrite Hlen. cbn [raise_if bind negb andb].
  destruct (isclose (Setup.total setup) 1 0.000001) eqn:E; cbn [raise_if bind negb andb].
  - apply isclose_one in E. split.
    + destruct (Setup.kelly_fraction setup) as [k|]; [|discriminate].
      unfold raise_if. destruct (Qle_bool k 0); discriminate.
    + intros H. exfalso. lraQ.
  - split; [|reflexivity]. intros _.
    apply Qnot_le_lt. intros H. apply isclose_one in H. congruence.
Qed.

(** The same check in [SimulationConfig]. *)
Lemma SimulationConfig_sum_check (config : SimulationConfig.t) :
  SimulationConfig.setups config <> [] ->
  (SimulationConfig.__post_init__ config =
     Raise (ValueError (SetupProbabilitiesSum (SimulationConfig.total config)))
   <-> 0.000011 < Qabs (SimulationConfig.total config - 1)).
Proof.
  intros Hne. unfold SimulationConfig.__post_init__.
  destruct (SimulationConfig.setups config) as [|s0 rest] eqn:Es; [congruence|].
  cbn [length Nat.eqb raise_if bind negb andb].
  destruct (isclose (SimulationConfig.total config) 1 0.000001) eqn:E;
    cbn [raise_if bind negb andb].
  - apply isclose_one in E. split; [|intros H; exfalso; lraQ].
    unfold raise_if, bind.
    repeat match goal with |- context [if ?c then _ else _] => destruct c end;
      discriminate.
  - split; [|reflexivity]. intros _.
    apply Qnot_le_lt. intros H. apply isclose_one in H. congruence.
Qed.

(** C7.  The check is looser than the tolerance [1e-6] written in the
    call: scenario probabilities 0.5 and 0.500005 are [5e-6] away from
    summing to 1, more than [1e-6], and [Setup] is constructed all the
    same; two setups of probabilities 0.5 and 0.500005 likewise make a
    [SimulationConfig]. *)
Theorem sum_check_accepts_beyond_atol :
  let win := Scenario.Build_t "Win" 0.5 0.1 in
  let loss := Scenario.Build_t "Loss" 0.500005 (-0.1) in
  let even := Scenario.Build_t "Loss" 0.5 (-0.1) in
  let a := Setup.Build_t "A" 0.5 [win; even] None in
  let b := Setup.Build_t "B" 0.500005 [win; even] None in
  (0.000001 < Qabs (sum [0.5; 0.500005] - 1) /\
   Setup.new "A" 1 [win; loss] None = Ok (Setup.Build_t "A" 1 [win; loss] None)) /\
  (0.000001 < Qabs (sum [Setup.probability a; Setup.probability b] - 1) /\
   Setup.new "A" 0.5 [win; even] None = Ok a /\
   Setup.new "B" 0.500005 [win; even] None = Ok b /\
   SimulationConfig.new [a; b] 10000 100 100 0.25 None =
     Ok (SimulationConfig.Build_t [a; b] 10000 100 100 0.25 None)).
Proof.
  cbv zeta. repeat split; reflexivity.
Qed.

End ModelsProps.

(** ** validators.py: the error lists *)

Module ValidatorsProps.
Import Numpy Models Validators ModelsProps.
Local Open Scope Q_scope.

Lemma append_if_nil (cond : bool) (msg : string) (errors : list string) :
  append_if cond msg errors = [] <-> cond = false /\ errors = [].
Proof.
  unfold append_if. destruct cond.
  - split; [|intros [? _]; discriminate].
    intros H. apply app_eq_nil in H as [_ H]. discriminate.
  - tauto.
Qed.

Lemma append_prefixed_app (name : string) (inner : list string) :
  forall errors,
    append_prefixed name inner errors
    = errors ++ map (fun e => ("[" ++ name ++ "] " ++ e)%string) inner.
Proof.
  unfold append_prefixed. induction inner as [|e inner IH]; intros errors; simpl.
  - rewrite app_nil_r. reflexivity.
  - rewrite IH, <- app_assoc. reflexivity.
Qed.

(** The nested loops add, for each item in turn, its own messages with
    its name in front. *)
Lemma nested_loop_app (A : Type) (name : A -> string) (validate : A -> list string)
      (items : list A) :
  forall errors,
    fold_left (fun errors x => append_prefixed (name x) (validate x) errors) items errors
    = errors ++ flat_map (fun x => map (fun e => ("[" ++ name x ++ "] " ++ e)%string)
                                       (validate x)) items.
Proof.
  induction items as [|x items IH]; intros errors; simpl.
  - rewrite app_nil_r. reflexivity.
  - rewrite IH, append_prefixed_app, <- app_assoc. reflexivity.
Qed.

Lemma nested_items_clean (A : Type) (name : A -> string) (validate : A -> list string)
      (items : list A) :
  Forall (fun x => validate x = []) items ->
  flat_map (fun x => map (fun e => ("[" ++ name x ++ "] " ++ e)%string) (validate x)) items
  = [].
Proof.
  intros Hall. induction Hall as [|x items Hx _ IH]; [reflexivity|].
  cbn [flat_map]. rewrite Hx, IH. reflexivity.
Qed.

Lemma nested_loop_nil (A : Type) (name : A -> string) (validate : A -> list string)
      (items : list A) (errors : list string) :
  fold_left (fun errors x => append_prefixed (name x) (validate x) errors) items errors = []
  <-> errors = [] /\ Forall (fun x => validate x = []) items.
Proof.
  rewrite nested_loop_app. split.
  - intros H. apply app_eq_nil in H as [H1 H2]. split; [exact H1|].
    clear H1. induction items as [|x items IH]; [constructor|].
    simpl in H2. apply app_eq_nil in H2 as [Hx Hrest].
    constructor; [|apply IH; exact Hrest].
    destruct (validate x); [reflexivity | discriminate].
  - intros [-> Hall]. simpl. induction Hall as [|x items Hx _ IH]; [reflexivity|].
    simpl. rewrite Hx, IH. reflexivity.
Qed.

(** The effective tolerance of [np.isclose(total, 1.0, atol=1e-4)]. *)
Lemma isclose_one_wide (total : Q) :
  isclose total 1 0.0001 = true <-> Qabs (total - 1) <= 0.00011.
Proof.
  unfold isclose, rtol. rewrite Qle_bool_iff.
  change (Qabs 1) with 1. split; intros H; lraQ.
Qed.

Section WithFormat.
Variables format_float format_4f : Q -> string.

Lemma validate_scenario_nil (scenario : Scenario.t) :
  validate_scenario format_float scenario = [] <-> Scenario.valid scenario.
Proof.
  unfold validate_scenario, Scenario.valid, Scenario.__post_init__.
  rewrite !append_if_nil, !bind_unit_ok, !raise_if_ok. tauto.
Qed.

Lemma validate_setup_nil (setup : Setup.t) :
  validate_setup format_float format_4f setup = [] <->
  not_str (strip (Setup.name setup)) = false /\
  (2 <= length (Setup.scenarios setup))%nat /\
  Qabs (Setup.total setup - 1) <= 0.00011 /\
  Forall Scenario.valid (Setup.scenarios setup) /\
  (forall k, Setup.kelly_fraction setup = Some k -> 0 < k).
Proof.
  unfold validate_setup, Setup.total.
  set (total := sum (map Scenario.probability (Setup.scenarios setup))).
  assert (Hall : Forall (fun sc => validate_scenario format_float sc = [])
                        (Setup.scenarios setup)
                 <-> Forall Scenario.valid (Setup.scenarios setup)).
  { rewrite !Forall_forall. split; intros H sc Hsc; apply validate_scenario_nil, H, Hsc. }
  assert (Hkelly : forall E : list string,
            match Setup.kelly_fraction setup with
            | Some k =>
                append_if (Qle_bool k 0)
                  ("Per-setup kelly_fraction must be positive, got " ++ format_float k)%string
                  E
            | None => E
            end = []
            <-> E = [] /\ (forall k, Setup.kelly_fraction setup = Some k -> 0 < k)).
  { intros E. destruct (Setup.kelly_fraction setup) as [k|].
    - rewrite append_if_nil, Qle_bool_gt. split.
      + intros [Hk ->]. split; [reflexivity|]. intros k' [= <-]. exact Hk.
      + intros [-> Hk]. split; [apply Hk|]; reflexivity.
    - split; [intros ->; split; [reflexivity | discriminate] | tauto]. }
  rewrite Hkelly, nested_loop_nil, !append_if_nil, Hall,
    negb_false_iff, isclose_one_wide, Nat.ltb_ge.
  tauto.
Qed.

Lemma validate_config_nil (config : SimulationConfig.t) :
  validate_config format_float format_4f config = [] <->
  (1 <= SimulationConfig.num_simulations config <= 1000000)%Z /\
  (1 <= SimulationConfig.num_periods config)%Z /\
  0 < SimulationConfig.initial_capital config /\
  0 < SimulationConfig.default_kelly_fraction config /\
  SimulationConfig.setups config <> [] /\
  Qabs (SimulationConfig.total config - 1) <= 0.00011 /\
  Forall (fun setup => validate_setup format_float format_4f setup = [])
         (SimulationConfig.setups config).
Proof.
  unfold validate_config, SimulationConfig.total.
  rewrite nested_loop_nil, !append_if_nil, negb_false_iff, isclose_one_wide,
    !Z.ltb_ge, !Qle_bool_gt, Nat.eqb_neq.
  assert (Hne : length (SimulationConfig.setups config) <> 0%nat
                <-> SimulationConfig.setups config <> []).
  { destruct (SimulationConfig.setups config); simpl; split; congruence. }
  rewrite Hne. intuition lia.
Qed.

(** X1.  [validate_scenario] reports nothing exactly for the scenarios the
    [Scenario] constructor accepts: the validator and the constructor
    apply the same three checks. *)
Theorem validate_scenario_agrees_with_constructor (scenario : Scenario.t) :
  validate_scenario format_float scenario = [] <->
  Scenario.new (Scenario.name scenario) (Scenario.probability scenario)
               (Scenario.return_pct scenario) = Ok scenario.
Proof.
  rewrite validate_scenario_nil. unfold Scenario.valid, Scenario.new.
  destruct scenario as [n p r]. cbn [Scenario.name Scenario.probability Scenario.return_pct].
  destruct (Scenario.__post_init__ _) as [[]|e]; cbn [bind]; split; congruence.
Qed.

(** X2.  A setup is constructed ([Setup] and each of its scenarios passed
    [__post_init__]) exactly when [validate_setup] reports nothing and,
    besides, the two checks the validator does not make hold: the setup's
    own probability lies in (0, 1] and the scenario probabilities pass the
    constructor's tighter sum check. *)
Theorem validate_setup_versus_constructor (setup : Setup.t) :
  Setup.valid setup <->
  validate_setup format_float format_4f setup = [] /\
  0 < Setup.probability setup <= 1 /\
  isclose (Setup.total setup) 1 0.000001 = true.
Proof.
  rewrite validate_setup_nil. unfold Setup.valid, Setup.__post_init__.
  rewrite !bind_unit_ok, !raise_if_ok, !negb_false_iff, andb_true_iff,
    Qltb_lt, Qle_bool_iff, Nat.ltb_ge.
  assert (Hkelly : match Setup.kelly_fraction setup with
                   | Some k => raise_if (Qle_bool k 0) (ValueError (SetupKellyPositive k))
                   | None => Ok tt
                   end = Ok tt
                   <-> forall k, Setup.kelly_fraction setup = Some k -> 0 < k).
  { destruct (Setup.kelly_fraction setup) as [k|].
    - rewrite raise_if_ok, Qle_bool_gt. split.
      + intros Hk k' [= <-]. exact Hk.
      + intros Hk. apply Hk. reflexivity.
    - split; [discriminate | reflexivity]. }
  rewrite Hkelly.
  assert (Hwide : isclose (Setup.total setup) 1 0.000001 = true ->
                  Qabs (Setup.total setup - 1) <= 0.00011).
  { intros H. apply isclose_one in H. lraQ. }
  tauto.
Qed.

(** X3.  On a constructed configuration [validate_config] has a single
    check left that can fire, the cap on the number of simulations: the
    list it returns is empty up to 1,000,000 simulations and holds that one
    message above. *)
Theorem validate_config_of_constructed (config : SimulationConfig.t) :
  SimulationConfig.valid config ->
  validate_config format_float format_4f config =
    if (1000000 <? SimulationConfig.num_simulations config)%Z
    then ["Number of simulations exceeds 1,000,000 limit"%string]
    else [].
Proof.
  intros Hvalid.
  destruct (SimulationConfig_valid_inv Hvalid)
    as (Hne & Hsum & Hsims & Hperiods & Hcap & Hkelly & Hsetups).
  assert (Hclean : Forall (fun setup => validate_setup format_float format_4f setup = [])
                          (SimulationConfig.setups config)).
  { rewrite Forall_forall in *. intros setup Hin.
    apply validate_setup_nil.
    destruct (Setup_valid_inv (Hsetups setup Hin)) as (_ & Hlen & Htot & Hk & Hscs).
    destruct (Hsetups setup Hin) as [Hpost _].
    unfold Setup.__post_init__ in Hpost.
    rewrite !bind_unit_ok, !raise_if_ok in Hpost. destruct Hpost as (Hname & _).
    repeat split; try assumption. lraQ. }
  unfold validate_config.
  rewrite nested_loop_app, (nested_items_clean _ _ Hclean), app_nil_r.
  unfold append_if, SimulationConfig.total in *.
  replace (SimulationConfig.num_simulations config <? 1)%Z with false
    by (symmetry; apply Z.ltb_ge; lia).
  replace (SimulationConfig.num_periods config <? 1)%Z with false
    by (symmetry; apply Z.ltb_ge; lia).
  replace (Qle_bool (SimulationConfig.initial_capital config) 0) with false
    by (symmetry; apply Qle_bool_gt; exact Hcap).
  replace (Qle_bool (SimulationConfig.default_kelly_fraction config) 0) with false
    by (symmetry; apply Qle_bool_gt; exact Hkelly).
  replace (length (SimulationConfig.setups config) =? 0)%nat with false
    by (symmetry; apply Nat.eqb_neq; destruct (SimulationConfig.setups config);
        [congruence | discriminate]).
  replace (isclose (sum (map Setup.probability (SimulationConfig.setups config))) 1 0.0001)
    with true by (symmetry; apply isclose_one_wide; lraQ).
  cbn [negb]. destruct (1000000 <? SimulationConfig.num_simulations config)%Z; reflexivity.
Qed.

(** X4.  [validate_config] returns the empty list exactly when every one
    of its own checks passes and [validate_setup] reports nothing for any
    setup: no error of a nested setup or scenario is lost on the way up. *)
Theorem validate_config_clean_iff (config : SimulationConfig.t) :
  validate_config format_float format_4f config = [] <->
  (1 <= SimulationConfig.num_simulations config <= 1000000)%Z /\
  (1 <= SimulationConfig.num_periods config)%Z /\
  0 < SimulationConfig.initial_capital config /\
  0 < SimulationConfig.default_kelly_fraction config /\
  SimulationConfig.setups config <> [] /\
  Qabs (sum (map Setup.probability (SimulationConfig.setups config)) - 1) <= 0.00011 /\
  forall setup, In setup (SimulationConfig.setups config) ->
    not_str (strip (Setup.name setup)) = false /\
    (2 <= length (Setup.scenarios setup))%nat /\
    Qabs (sum (map Scenario.probability (Setup.scenarios setup)) - 1) <= 0.00011 /\
    (forall k, Setup.kelly_fraction setup = Some k -> 0 < k) /\
    forall scenario, In scenario (Setup.scenarios setup) ->
      0 <= Scenario.probability scenario <= 1 /\
      -1 < Scenario.return_pct scenario /\
      not_str (strip (Scenario.name scenario)) = false.
Proof.
  rewrite validate_config_nil. unfold SimulationConfig.total.
  assert (Hsetups :
    Forall (fun setup => validate_setup format_float format_4f setup = [])
           (SimulationConfig.setups config)
    <-> forall setup, In setup (SimulationConfig.setups config) ->
          not_str (strip (Setup.name setup)) = false /\
          (2 <= length (Setup.scenarios setup))%nat /\
          Qabs (sum (map Scenario.probability (Setup.scenarios setup)) - 1) <= 0.00011 /\
          (forall k, Setup.kelly_fraction setup = Some k -> 0 < k) /\
          forall scenario, In scenario (Setup.scenarios setup) ->
            0 <= Scenario.probability scenario <= 1 /\
            -1 < Scenario.return_pct scenario /\
            not_str (strip (Scenario.name scenario)) = false).
  { rewrite Forall_forall.
    assert (Hsc : forall sc, Scenario.valid sc <->
              0 <= Scenario.probability sc <= 1 /\ -1 < Scenario.return_pct sc /\
              not_str (strip (Scenario.name sc)) = false).
    { intros sc. unfold Scenario.valid, Scenario.__post_init__.
      rewrite !bind_unit_ok, !raise_if_ok, negb_false_iff, andb_true_iff,
        !Qle_bool_iff, Qle_bool_gt. tauto. }
    split; intros H setup Hin; specialize (H setup Hin).
    - apply validate_setup_nil in H. destruct H as (H1 & H2 & H3 & H4 & H5).
      unfold Setup.total in H3. repeat split; try assumption;
        rewrite Forall_forall in H4; apply Hsc, H4; assumption.
    - apply validate_setup_nil. destruct H as (H1 & H2 & H3 & H4 & H5).
      unfold Setup.total. repeat split; try assumption.
      rewrite Forall_forall. intros sc Hin'. apply Hsc, H5, Hin'. }
  rewrite Hsetups. tauto.
Qed.

End WithFormat.

Lemma two_setup_config_constructed : SimulationConfig.valid Fixtures.two_setup_config.
Proof. repeat constructor. Qed.

Lemma validate_config_of_constructed_witness :
  validate_config Fixtures.no_format Fixtures.no_format Fixtures.two_setup_config =
    if (1000000 <? SimulationConfig.num_simulations Fixtures.two_setup_config)%Z
    then ["Number of simulations exceeds 1,000,000 limit"%string]
    else [].
Proof.
  exact (@validate_config_of_constructed Fixtures.no_format Fixtures.no_format
           Fixtures.two_setup_config two_setup_config_constructed).
Defined.

End ValidatorsProps.

(** ** NumPy primitives *)

Module NumpyProps.
Import Numpy ModelsProps.
Local Open Scope Q_scope.

(** *** Binary search *)

(** The loop invariant of the binary search, for any array, sorted or
    not: what lies just left of [lo] is below [v], what lies at [hi] is
    not. *)
Lemma binsearch_left_spec (a : list Q) (v : Q) (fuel : nat) :
  forall lo hi : nat,
    (hi - lo <= fuel)%nat -> (lo <= hi)%nat -> (hi <= length a)%nat ->
    (lo = 0%nat \/ nth (lo - 1) a 0 < v) ->
    (hi = length a \/ v <= nth hi a 0) ->
    let r := binsearch_left fuel a v lo hi in
    (lo <= r <= hi)%nat /\
    (r = 0%nat \/ nth (r - 1) a 0 < v) /\
    (r = length a \/ v <= nth r a 0).
Proof.
  induction fuel as [|fuel IH]; intros lo hi Hfuel Hle Hhi Hlo Hup; cbn [binsearch_left].
  - assert (lo = hi) by lia. subst hi. cbv zeta. repeat split; try lia; assumption.
  - destruct (Nat.ltb lo hi) eqn:E.
    2:{ apply Nat.ltb_ge in E. assert (lo = hi) by lia. subst hi.
        cbv zeta. repeat split; try lia; assumption. }
    apply Nat.ltb_lt in E. cbv zeta.
    pose proof (Nat.lt_div2 (hi - lo) ltac:(lia)) as Hhalf.
    assert (Hmid : (lo <= lo + Nat.div2 (hi - lo) < hi)%nat)
      by (revert Hhalf; generalize (Nat.div2 (hi - lo)); intros; lia).
    clear Hhalf. set (mid := (lo + Nat.div2 (hi - lo))%nat) in *.
    clearbody mid.
    destruct (Qltb (nth mid a 0) v) eqn:Ecmp.
    + apply Qltb_lt in Ecmp.
      destruct (IH (S mid) hi) as (H1 & H2 & H3); try lia; try assumption.
      * right. replace (S mid - 1)%nat with mid by lia. exact Ecmp.
      * repeat split; try lia; assumption.
    + apply Qltb_ge in Ecmp.
      destruct (IH lo mid) as (H1 & H2 & H3); try lia; try assumption.
      * right. exact Ecmp.
      * repeat split; try lia; assumption.
Qed.

Lemma searchsorted_spec (a : list Q) (v : Q) :
  let r := searchsorted a v in
  (r <= length a)%nat /\
  (r = 0%nat \/ nth (r - 1) a 0 < v) /\
  (r = length a \/ v <= nth r a 0).
Proof.
  unfold searchsorted.
  destruct (@binsearch_left_spec a v (length a) 0%nat (length a))
    as (H1 & H2 & H3); try lia; try (left; reflexivity).
  cbv zeta. repeat split; try lia; assumption.
Qed.

(** On a sorted array the result is the insertion point NumPy documents
    for [side='left']: everything before it is below [v], nothing from it
    on is. *)
Lemma searchsorted_sorted (a : list Q) (v : Q) :
  (forall i j, (i <= j < length a)%nat -> nth i a 0 <= nth j a 0) ->
  let r := searchsorted a v in
  (forall j, (j < r)%nat -> nth j a 0 < v) /\
  (forall j, (r <= j < length a)%nat -> v <= nth j a 0).
Proof.
  intros Hsorted. destruct (searchsorted_spec a v) as (Hr & Hleft & Hright).
  cbv zeta in *. set (r := searchsorted a v) in *. split.
  - intros j Hj. destruct Hleft as [E|Hleft]; [lia|].
    pose proof (Hsorted j (r - 1)%nat ltac:(lia)). lraQ.
  - intros j Hj. destruct Hright as [E|Hright]; [lia|].
    pose proof (Hsorted r j ltac:(lia)). lraQ.
Qed.

(** *** Cumulative sums *)

Lemma cumsum_from_length (a : list Q) : forall acc, length (cumsum_from acc a) = length a.
Proof. induction a as [|x t IH]; intros acc; simpl; [reflexivity | rewrite IH; reflexivity]. Qed.

Lemma cumsum_length (a : list Q) : length (cumsum a) = length a.
Proof. destruct a; simpl; [reflexivity | rewrite cumsum_from_length; reflexivity]. Qed.

Lemma cumsum_from_step (a : list Q) :
  forall acc k,
    (S k < length a)%nat ->
    nth (S k) (cumsum_from acc a) 0 = nth k (cumsum_from acc a) 0 + nth (S k) a 0.
Proof.
  induction a as [|x t IH]; intros acc k Hk; [simpl in Hk; lia|].
  cbn [cumsum_from nth]. destruct k as [|k].
  - destruct t as [|y t]; [simpl in Hk; lia | reflexivity].
  - rewrite IH by (simpl in Hk; lia). reflexivity.
Qed.

(** [out[k+1] = out[k] + a[k+1]] *)
Lemma cumsum_step (a : list Q) (k : nat) :
  (S k < length a)%nat ->
  nth (S k) (cumsum a) 0 = nth k (cumsum a) 0 + nth (S k) a 0.
Proof.
  destruct a as [|x t]; intros Hk; [simpl in Hk; lia|].
  cbn [cumsum nth]. destruct k as [|k].
  - destruct t as [|y t]; [simpl in Hk; lia | reflexivity].
  - rewrite cumsum_from_step by (simpl in Hk; lia). reflexivity.
Qed.





(** *** Assignment to the last cell *)

Lemma setitem_last_spec (A : Type) (d v : A) (a : list A) :
  a <> [] ->
  exists a',
    setitem_last a v = Ok a' /\
    length a' = length a /\
    nth (length a - 1) a' d = v /\
    forall k, (k < length a - 1)%nat -> nth k a' d = nth k a d.
Proof.
  induction a as [|x t IH]; [congruence|]. intros _.
  destruct t as [|y t].
  - exists [v]. repeat split. intros k Hk. simpl in Hk. lia.
  - destruct IH as (t' & Ht & Hlen & Hlast & Hkeep); [discriminate|].
    exists (x :: t'). change (setitem_last (x :: y :: t) v)
      with (bind (setitem_last (y :: t) v) (fun t' => Ok (x :: t'))).
    rewrite Ht. cbn [bind]. split; [reflexivity|]. split; [simpl; simpl in Hlen; lia|].
    split.
    + cbn [length] in *. replace (S (S (length t)) - 1)%nat with (S (length t)) by lia.
      replace (S (length t) - 1)%nat with (length t) in Hlast by lia.
      exact Hlast.
    + intros [|k] Hk; [reflexivity|]. cbn [nth]. apply Hkeep.
      cbn [length] in *. lia.
Qed.

(** *** Lists seen through [nth_error] *)

Lemma Forall_nth_error (A : Type) (P : A -> Prop) (l : list A) :
  (forall c x, nth_error l c = Some x -> P x) -> Forall P l.
Proof.
  induction l as [|a t IH]; intros H; constructor.
  - apply (H 0%nat). reflexivity.
  - apply IH. intros c x Hc. apply (H (S c)). exact Hc.
Qed.

Lemma nth_error_ext (A : Type) (l1 l2 : list A) :
  (forall c, nth_error l1 c = nth_error l2 c) -> l1 = l2.
Proof.
  revert l2; induction l1 as [|a t IH]; intros [|b u] H.
  - reflexivity.
  - specialize (H 0%nat). discriminate.
  - specialize (H 0%nat). discriminate.
  - f_equal.
    + specialize (H 0%nat). simpl in H. congruence.
    + apply IH. intros c. exact (H (S c)).
Qed.

Lemma nth_error_map2 (A B C : Type) (f : A -> B -> C) (a : list A) (b : list B) :
  forall c z,
    nth_error (map2 f a b) c = Some z ->
    exists x y, nth_error a c = Some x /\ nth_error b c = Some y /\ z = f x y.
Proof.
  revert b; induction a as [|x a IH]; intros [|y b] c z H;
    try (destruct c; discriminate).
  destruct c as [|c]; simpl in *.
  - exists x, y. repeat split. congruence.
  - apply IH. exact H.
Qed.

(** *** Fancy indexing *)

Lemma take_spec (A : Type) (a : list A) (idx : list nat) :
  Forall (fun i => (i < length a)%nat) idx ->
  exists vals,
    take a idx = Ok vals /\
    Forall2 (fun i v => nth_error a i = Some v) idx vals.
Proof.
  unfold take. induction 1 as [|i idx Hi _ IH]; simpl.
  - exists []. split; [reflexivity | constructor].
  - destruct IH as (vals & -> & Hvals).
    unfold getitem. destruct (nth_error a i) as [v|] eqn:E.
    + exists (v :: vals). split; [reflexivity|]. constructor; assumption.
    + apply nth_error_None in E. lia.
Qed.

Lemma take_ok_inv (A : Type) (a : list A) (idx : list nat) (vals : list A) :
  take a idx = Ok vals ->
  Forall (fun i => (i < length a)%nat) idx.
Proof.
  unfold take. revert vals. induction idx as [|i idx IH]; intros vals H; [constructor|].
  simpl in H. unfold getitem in H.
  destruct (nth_error a i) as [v|] eqn:E; [|discriminate].
  cbn [bind] in H. destruct (sequence (map _ idx)) as [r|e] eqn:Er; [|discriminate].
  constructor.
  - apply nth_error_Some. congruence.
  - apply (IH r). reflexivity.
Qed.

Lemma Forall2_nth_error (A B : Type) (R : A -> B -> Prop) (l1 : list A) (l2 : list B) :
  Forall2 R l1 l2 ->
  forall c x, nth_error l1 c = Some x -> exists y, nth_error l2 c = Some y /\ R x y.
Proof.
  induction 1 as [|a b l1 l2 Hab _ IH]; intros c x Hc; [destruct c; discriminate|].
  destruct c as [|c]; simpl in *.
  - exists b. split; [reflexivity|]. congruence.
  - apply IH. exact Hc.
Qed.

Lemma nth_error_map_inv' (A B : Type) (f : A -> B) (l : list A) (n : nat) (y : B) :
  nth_error (map f l) n = Some y -> exists x, nth_error l n = Some x /\ f x = y.
Proof.
  rewrite nth_error_map. destruct (nth_error l n) as [x|]; [|discriminate].
  intros [= <-]. exists x. split; reflexivity.
Qed.

Lemma nth_error_seq' (start len c : nat) :
  (c < len)%nat -> nth_error (seq start len) c = Some (start + c)%nat.
Proof.
  revert start c. induction len as [|len IH]; intros start c Hc; [lia|].
  destruct c as [|c]; cbn [seq nth_error].
  - f_equal. lia.
  - rewrite IH by lia. f_equal. lia.
Qed.

Lemma Forall2_length_eq (A B : Type) (R : A -> B -> Prop) (l1 : list A) (l2 : list B) :
  Forall2 R l1 l2 -> length l1 = length l2.
Proof. induction 1; simpl; congruence. Qed.

End NumpyProps.

(** ** kelly.py: the growth curve and the solver *)

Module KellyProps.
Import Numpy Models Kelly ModelsProps.
Local Open Scope Q_scope.

Lemma min_spec (l : list Q) (m : Q) :
  min l = Ok m -> In m l /\ forall y, In y l -> m <= y.
Proof.
  destruct l as [|x t]; [discriminate|]. simpl. intros [= <-].
  revert x. induction t as [|z t IH]; intros x; simpl.
  - split; [left; reflexivity|]. intros y [<-|[]]. lraQ.
  - destruct (IH (if Qltb z x then z else x)) as [Hin Hle].
    split.
    + destruct Hin as [E|Hin]; [|right; right; exact Hin].
      rewrite <- E. destruct (Qltb z x); [right; left | left]; reflexivity.
    + assert (Hzx : (if Qltb z x then z else x) <= x /\ (if Qltb z x then z else x) <= z).
      { destruct (Qltb z x) eqn:E.
        - apply Qltb_lt in E. split; lraQ.
        - apply Qltb_ge in E. split; lraQ. }
      pose proof (Hle _ (or_introl eq_refl)) as H0.
      intros y [<-|[<-|Hy]].
      * lraQ.
      * lraQ.
      * apply Hle. right. exact Hy.
Qed.

(** With every outcome term positive the dot product of the
    probabilities and the logarithms is the real sum [growth]. *)
Lemma xdot_growth (scs : list Scenario.t) (f : Q) :
  (forall sc, In sc scs -> 0 < 1 + f * Scenario.return_pct sc) ->
  forall a : R,
    fold_left xadd
      (map2 xscale (map Scenario.probability scs)
            (map log (map (fun r => 1 + f * r) (map Scenario.return_pct scs))))
      (Finite a)
    = Finite (a + growth scs f)%R.
Proof.
  induction scs as [|sc scs IH]; intros Hpos a.
  - simpl. f_equal. lraR.
  - cbn [map map2 fold_left].
    assert (Hlog : log (1 + f * Scenario.return_pct sc) =
                   Finite (ln (Q2R (1 + f * Scenario.return_pct sc)))).
    { unfold log. replace (Qltb 0 (1 + f * Scenario.return_pct sc)) with true;
        [reflexivity|]. symmetry. apply Qltb_lt, Hpos. left; reflexivity. }
    rewrite Hlog. cbn [xscale xadd].
    rewrite IH by (intros sc' Hin; apply Hpos; right; exact Hin).
    f_equal. unfold growth. cbn [fold_right]. lraR.
Qed.

Lemma expected_log_growth_at_feasible (setup : Setup.t) (f : Q) :
  (forall sc, In sc (Setup.scenarios setup) -> 0 < 1 + f * Scenario.return_pct sc) ->
  expected_log_growth_at setup f = Finite (growth (Setup.scenarios setup) f).
Proof.
  intros Hpos. unfold expected_log_growth_at.
  destruct (existsb _ _) eqn:E.
  - apply existsb_exists in E as (t & Hin & Ht).
    apply in_map_iff in Hin as (r & <- & Hin). apply in_map_iff in Hin as (sc & <- & Hsc).
    apply Qle_bool_iff in Ht. specialize (Hpos sc Hsc). lraQ.
  - unfold xdot. rewrite xdot_growth by exact Hpos. f_equal. lraR.
Qed.

Lemma growth_at_zero (scs : list Scenario.t) : growth scs 0 = 0%R.
Proof.
  induction scs as [|sc scs IH]; simpl; [reflexivity|].
  rewrite IH.
  replace (Q2R (1 + 0 * Scenario.return_pct sc)) with 1%R.
  - rewrite ln_1. lraR.
  - rewrite <- RMicromega.Q2R_1. apply Qeq_eqR. lraQ.
Qed.

(** C6.  [expected_log_growth_at] raises nothing; it answers [-inf]
    exactly when some outcome term [1 + f * r_i] is non-positive, it
    answers the sum of the [p_i * ln(1 + f * r_i)] otherwise, and at
    [f = 0] it answers exactly [0.0]. *)
Theorem expected_log_growth_at_spec (setup : Setup.t) (f : Q) :
  (expected_log_growth_at setup f = NegInf <->
   exists sc, In sc (Setup.scenarios setup) /\ 1 + f * Scenario.return_pct sc <= 0) /\
  ((forall sc, In sc (Setup.scenarios setup) -> 0 < 1 + f * Scenario.return_pct sc) ->
   expected_log_growth_at setup f = Finite (growth (Setup.scenarios setup) f)) /\
  expected_log_growth_at setup 0 = Finite 0.
Proof.
  split; [|split].
  - split.
    + intros Hinf.
      destruct (existsb (fun t => Qle_bool t 0)
                  (map (fun r => 1 + f * r)
                       (map Scenario.return_pct (Setup.scenarios setup)))) eqn:E.
      * apply existsb_exists in E as (t & Hin & Ht).
        apply in_map_iff in Hin as (r & <- & Hin). apply in_map_iff in Hin as (sc & <- & Hsc).
        exists sc. split; [exact Hsc | apply Qle_bool_iff; exact Ht].
      * exfalso. rewrite expected_log_growth_at_feasible in Hinf; [discriminate|].
        intros sc Hsc. apply Qle_bool_gt.
        destruct (Qle_bool (1 + f * Scenario.return_pct sc) 0) eqn:E'; [|reflexivity].
        assert (existsb (fun t => Qle_bool t 0)
                  (map (fun r => 1 + f * r)
                       (map Scenario.return_pct (Setup.scenarios setup))) = true) as C.
        { apply existsb_exists. exists (1 + f * Scenario.return_pct sc).
          split; [|exact E']. apply (in_map (fun r => 1 + f * r)), in_map. exact Hsc. }
        congruence.
    + intros (sc & Hsc & Hle). unfold expected_log_growth_at.
      replace (existsb _ _) with true; [reflexivity|].
      symmetry. apply existsb_exists. exists (1 + f * Scenario.return_pct sc).
      split; [|apply Qle_bool_iff; exact Hle].
      apply (in_map (fun r => 1 + f * r)), in_map. exact Hsc.
  - apply expected_log_growth_at_feasible.
  - rewrite expected_log_growth_at_feasible.
    + rewrite growth_at_zero. reflexivity.
    + intros sc _. lraQ.
Qed.

(** The upper bound handed to the optimiser. *)
Lemma f_max_bound (m : Q) :
  -1 < m ->
  let f_max := if Qltb m 0 then -1 / m - 0.000000001 else 10 in
  0 <= f_max /\ (m < 0 -> f_max * m > -1).
Proof.
  intros Hm. cbv zeta. destruct (Qltb m 0) eqn:E.
  - apply Qltb_lt in E.
    assert (Hi : m * / m == 1) by (apply Qmult_inv_r; lraQ).
    unfold Qdiv. set (i := / m) in *.
    assert (Hneg : i < -1).
    { apply Qnot_le_lt. intros Hge.
      assert (i < 0).
      { apply Qnot_le_lt. intros Hi0. nraQ. }
      nraQ. }
    split; [lraQ|]. intros _. nraQ.
  - apply Qltb_ge in E. split; [lraQ|]. intros H. lraQ.
Qed.


Section WithLibraries.
Variables format_pct0 format_pct1 : Q -> string.
Variable minimize_scalar : minimizer.
Hypothesis minimize_scalar_bounded : bounded_method minimize_scalar.

(** The two ways [compute_kelly_fraction] returns on a constructed setup. *)
Lemma compute_kelly_fraction_cases (setup : Setup.t) :
  Setup.valid setup ->
  let probs := map Scenario.probability (Setup.scenarios setup) in
  let returns := map Scenario.return_pct (Setup.scenarios setup) in
  let expected_return := dot probs returns in
  let variance := dot probs (map (fun r => (r - expected_return) ^ 2) returns) in
  exists info,
        compute_kelly_fraction format_pct0 format_pct1 minimize_scalar setup = Ok info /\
    KellyInfo.expected_return info = expected_return /\
    KellyInfo.variance info = variance /\
    KellyInfo.edge info = expected_return /\
    KellyInfo.odds_description info =
      _build_odds_description format_pct0 format_pct1 setup /\
    ((expected_return <= 0 /\
      KellyInfo.optimal_fraction info = 0 /\
      KellyInfo.expected_log_growth info = Finite 0)
     \/
     (0 < expected_return /\
      exists m,
        In m returns /\ (forall r, In r returns -> m <= r) /\
        0 <= KellyInfo.optimal_fraction info
          <= (if Qltb m 0 then -1 / m - 0.000000001 else 10))).
Proof.
  intros Hvalid. cbv zeta.
  destruct (Setup_valid_inv Hvalid) as (_ & Hlen & _ & _ & Hscs).
  unfold compute_kelly_fraction.
  set (probs := map Scenario.probability (Setup.scenarios setup)).
  set (returns := map Scenario.return_pct (Setup.scenarios setup)).
  set (er := dot probs returns).
  destruct (Qle_bool er 0) eqn:Eer.
  - eexists. split; [reflexivity|]. cbn [KellyInfo.expected_return
      KellyInfo.variance KellyInfo.edge KellyInfo.odds_description
      KellyInfo.optimal_fraction KellyInfo.expected_log_growth].
    repeat split. left. apply Qle_bool_iff in Eer. repeat split. exact Eer.
  - apply Qle_bool_gt in Eer.
    destruct (min returns) as [m|e] eqn:Emin.
    2:{ exfalso. subst returns. destruct (Setup.scenarios setup); [simpl in Hlen; lia|].
        discriminate. }
    destruct (min_spec _ Emin) as [Hin Hlow].
    assert (Hm : -1 < m).
    { subst returns. apply in_map_iff in Hin as (sc & <- & Hsc).
      rewrite Forall_forall in Hscs.
      apply (Scenario_valid_inv (Hscs sc Hsc)). }
    destruct (f_max_bound Hm) as [Hfm _]. cbv zeta in Hfm.
    cbn [bind].
    set (f_max := if Qltb m 0 then -1 / m - 0.000000001 else 10) in *.
    match goal with |- context [minimize_scalar ?obj (0, f_max)] =>
      destruct (minimize_scalar_bounded obj Hfm) as (res & -> & Hx0 & Hx1) end.
    cbn [bind]. eexists. split; [reflexivity|].
    cbn [KellyInfo.expected_return KellyInfo.variance KellyInfo.edge
         KellyInfo.odds_description KellyInfo.optimal_fraction
         KellyInfo.expected_log_growth].
    repeat split. right. split; [exact Eer|].
    exists m. split; [exact Hin|]. split; [exact Hlow|].
    destruct (Qltb (x res) 0.00000001); split;
      first [exact Hfm | exact Hx1 | exact Hx0 | lraQ].
Qed.



(** C5, as amended.  For a single constructed setup the blended figure
    is the setup's probability times its optimal fraction; it is the
    optimal fraction itself when that probability is 1. *)
Theorem compute_blended_kelly_single (setup : Setup.t) :
  Setup.valid setup ->
  exists info w,
    compute_kelly_fraction format_pct0 format_pct1 minimize_scalar setup = Ok info /\
    compute_blended_kelly format_pct0 format_pct1 minimize_scalar [setup] = Ok w /\
    w == Setup.probability setup * KellyInfo.optimal_fraction info /\
    (Setup.probability setup == 1 -> w == KellyInfo.optimal_fraction info).
Proof.
  intros Hvalid.
  destruct (compute_kelly_fraction_cases Hvalid) as (info & Hrun & _).
  exists info, (0 + Setup.probability setup * KellyInfo.optimal_fraction info).
  split; [exact Hrun|]. split.
  - unfold compute_blended_kelly. cbn [blended_loop]. rewrite Hrun. reflexivity.
  - split; [lraQ|]. intros Hp. rewrite Hp. lraQ.
Qed.

End WithLibraries.

Lemma nearest_point_bounded (guess : Q) : bounded_method (nearest_point guess).
Proof.
  intros f lo hi Hle. unfold nearest_point.
  replace (Qltb hi lo) with false by (symmetry; apply Qltb_ge; exact Hle).
  eexists. split; [reflexivity|]. cbn [x].
  destruct (Qltb guess lo) eqn:E1; [lraQ|]. apply Qltb_ge in E1.
  destruct (Qltb hi guess) eqn:E2; [lraQ|]. apply Qltb_ge in E2. lraQ.
Qed.

Lemma two_outcome_valid : Setup.valid Fixtures.two_outcome.
Proof. split; [reflexivity|]. repeat (constructor; [reflexivity|]). constructor. Qed.

Lemma two_outcome_half_valid : Setup.valid Fixtures.two_outcome_half.
Proof. split; [reflexivity|]. repeat (constructor; [reflexivity|]). constructor. Qed.

Lemma bad_bet_valid : Setup.valid Fixtures.bad_bet.
Proof. split; [reflexivity|]. repeat (constructor; [reflexivity|]). constructor. Qed.



Lemma compute_blended_kelly_single_witness :
  exists info w,
    compute_kelly_fraction Fixtures.no_format Fixtures.no_format (nearest_point 4)
                           Fixtures.two_outcome = Ok info /\
    compute_blended_kelly Fixtures.no_format Fixtures.no_format (nearest_point 4)
                          [Fixtures.two_outcome] = Ok w /\
    w == 1 * KellyInfo.optimal_fraction info /\
    (1 == 1 -> w == KellyInfo.optimal_fraction info).
Proof.
  exact (compute_blended_kelly_single
           Fixtures.no_format Fixtures.no_format
           (nearest_point_bounded 4) two_outcome_valid).
Defined.

(** The solver on the two-outcome setup, whatever its probability: the
    expected return is positive, the feasible interval is
    [[0, 10 - 1e-9]] and the optimiser's answer is kept when it is not
    below [1e-8]. *)
Lemma two_outcome_solved (p x0 : Q) (minimize_scalar : minimizer) :
  let setup := Setup.Build_t "TwoOutcome" p Fixtures.two_outcome_scenarios None in
  (forall f, exists res,
      minimize_scalar f (0, -1 / -0.1 - 0.000000001) = Ok res /\ x res = x0) ->
  Qltb x0 0.00000001 = false ->
  exists info,
    compute_kelly_fraction Fixtures.no_format Fixtures.no_format minimize_scalar setup
      = Ok info /\
    KellyInfo.optimal_fraction info = x0.
Proof.
  cbv zeta. intros Hmin Hbig. unfold compute_kelly_fraction.
  cbn [Setup.scenarios Fixtures.two_outcome_scenarios map Scenario.probability
       Scenario.return_pct].
  replace (Qle_bool (dot [0.6; 0.4] [0.2; -0.1]) 0) with false by reflexivity.
  replace (min [0.2; -0.1]) with (Ok (-0.1) : result Q) by reflexivity.
  cbn [bind]. replace (Qltb (-0.1) 0) with true by reflexivity.
  match goal with |- context [minimize_scalar ?obj _] =>
    destruct (Hmin obj) as (res & -> & Hx) end.
  cbn [bind]. rewrite Hx, Hbig.
  eexists. split; reflexivity.
Qed.

(** C5, the claim as stated fails.  The two-outcome setup of the test
    suite, given probability 0.5, is a constructed setup.  Whatever the
    optimiser answers, as soon as the solver reports a positive fraction the
    blended figure of the one-element tuple is half of it; with the optimum
    4 the solver reports 4 and the blended figure is 2. *)
Lemma blended_figure_of_half_active_setup :
  Setup.valid Fixtures.two_outcome_half /\
  (forall (minimize_scalar : minimizer) info,
      compute_kelly_fraction Fixtures.no_format Fixtures.no_format minimize_scalar
                             Fixtures.two_outcome_half = Ok info ->
      0 < KellyInfo.optimal_fraction info ->
      exists w,
        compute_blended_kelly Fixtures.no_format Fixtures.no_format minimize_scalar
                              [Fixtures.two_outcome_half] = Ok w /\
        ~ w == KellyInfo.optimal_fraction info) /\
  bounded_method (nearest_point 4) /\
  exists info w,
    compute_kelly_fraction Fixtures.no_format Fixtures.no_format (nearest_point 4)
                           Fixtures.two_outcome_half = Ok info /\
    compute_blended_kelly Fixtures.no_format Fixtures.no_format (nearest_point 4)
                          [Fixtures.two_outcome_half] = Ok w /\
    KellyInfo.optimal_fraction info == 4 /\
    w == 2.
Proof.
  split; [exact two_outcome_half_valid|].
  assert (Hblend : forall (minimize_scalar : minimizer) info,
             compute_kelly_fraction Fixtures.no_format Fixtures.no_format minimize_scalar
                                    Fixtures.two_outcome_half = Ok info ->
             compute_blended_kelly Fixtures.no_format Fixtures.no_format minimize_scalar
                                   [Fixtures.two_outcome_half]
             = Ok (0 + 0.5 * KellyInfo.optimal_fraction info)).
  { intros minimize_scalar info Hrun.
    unfold compute_blended_kelly. cbn [blended_loop]. rewrite Hrun. reflexivity. }
  split; [|split; [apply nearest_point_bounded|]].
  - intros minimize_scalar info Hrun Hpos. eexists. split; [exact (Hblend _ _ Hrun)|].
    intros Heq. lraQ.
  - destruct (@two_outcome_solved 0.5 4 (nearest_point 4)) as (info & Hrun & Hopt).
    + intros f. eexists. split; reflexivity.
    + reflexivity.
    + exists info, (0 + 0.5 * KellyInfo.optimal_fraction info).
      split; [exact Hrun|]. split; [exact (Hblend _ _ Hrun)|].
      rewrite Hopt. split; reflexivity.
Qed.

(** *** The solver's answer *)



Lemma fold_left_Qplus_nonneg (l : list Q) :
  Forall (fun v => 0 <= v) l -> forall acc, 0 <= acc -> 0 <= fold_left Qplus l acc.
Proof.
  induction 1 as [|v l Hv _ IH]; intros acc Hacc; simpl; [exact Hacc|].
  apply IH. lraQ.
Qed.

Lemma dot_squares_nonneg (probs returns : list Q) (c : Q) :
  Forall (fun p => 0 <= p) probs ->
  0 <= dot probs (map (fun r => (r - c) ^ 2) returns).
Proof.
  intros Hp. unfold dot. apply fold_left_Qplus_nonneg; [|lraQ].
  revert returns. induction Hp as [|p probs Hp0 _ IH]; intros [|r returns];
    cbn [map map2]; try constructor.
  - change ((r - c) ^ 2) with ((r - c) * (r - c)).
    apply Qmult_le_0_compat; [exact Hp0|].
    destruct (Qlt_le_dec (r - c) 0); nraQ.
  - apply IH.
Qed.

Section Solver.
Variables format_pct0 format_pct1 : Q -> string.
Variable minimize_scalar : minimizer.
Hypothesis minimize_scalar_bounded : bounded_method minimize_scalar.




(** X7.  The variance reported for a constructed setup,
    [sum_i p_i * (r_i - expected_return)^2], is never negative, and the
    edge reported is the expected return. *)
Theorem variance_non_negative (setup : Setup.t) :
  Setup.valid setup ->
  exists info,
    compute_kelly_fraction format_pct0 format_pct1 minimize_scalar setup = Ok info /\
    0 <= KellyInfo.variance info /\
    KellyInfo.edge info = KellyInfo.expected_return info.
Proof.
  intros Hvalid.
  destruct (compute_kelly_fraction_cases format_pct0 format_pct1
              minimize_scalar_bounded Hvalid)
    as (info & Hrun & Her & Hvar & Hedge & _).
  cbv zeta in *. exists info. split; [exact Hrun|]. rewrite Hvar, Hedge, Her.
  split; [|reflexivity]. apply dot_squares_nonneg.
  destruct (Setup_valid_inv Hvalid) as (_ & _ & _ & _ & Hscs).
  rewrite Forall_map. rewrite Forall_forall in *. intros sc Hsc.
  apply (Scenario_valid_inv (Hscs sc Hsc)).
Qed.

(** The loop of [compute_blended_kelly] adds, left to right, the products
    of each setup's probability and optimal fraction to the running sum. *)
Lemma blended_loop_spec (setups : list Setup.t) :
  Forall Setup.valid setups ->
  forall weighted_sum,
  exists infos,
    Forall2 (fun setup info =>
               compute_kelly_fraction format_pct0 format_pct1 minimize_scalar setup
               = Ok info)
            setups infos /\
    blended_loop format_pct0 format_pct1 minimize_scalar weighted_sum setups
    = Ok (fold_left Qplus
            (map2 (fun setup info =>
                     Setup.probability setup * KellyInfo.optimal_fraction info)
                  setups infos)
            weighted_sum).
Proof.
  induction 1 as [|setup setups Hvalid _ IH]; intros weighted_sum.
  - exists []. split; [constructor | reflexivity].
  - destruct (compute_kelly_fraction_cases format_pct0 format_pct1
                minimize_scalar_bounded Hvalid) as (info & Hrun & _).
    destruct (IH (weighted_sum
                  + Setup.probability setup * KellyInfo.optimal_fraction info))
      as (infos & Hall & Hloop).
    exists (info :: infos). split; [constructor; assumption|].
    cbn [blended_loop map2 fold_left]. rewrite Hrun. cbn [bind]. exact Hloop.
Qed.

(** X8.  For any tuple of constructed setups [compute_blended_kelly]
    returns the sum, taken left to right from 0, of
    [setup.probability * optimal_fraction] over the setups; the figure is
    never negative, it is 0 for the empty tuple, and it is 0 when no setup
    has a positive expected return. *)
Theorem compute_blended_kelly_weighted_sum (setups : list Setup.t) :
  Forall Setup.valid setups ->
  exists infos w,
    Forall2 (fun setup info =>
               compute_kelly_fraction format_pct0 format_pct1 minimize_scalar setup
               = Ok info)
            setups infos /\
    compute_blended_kelly format_pct0 format_pct1 minimize_scalar setups = Ok w /\
    w = sum (map2 (fun setup info =>
                     Setup.probability setup * KellyInfo.optimal_fraction info)
                  setups infos) /\
    0 <= w /\
    (setups = [] -> w = 0) /\
    ((forall setup, In setup setups ->
        dot (map Scenario.probability (Setup.scenarios setup))
            (map Scenario.return_pct (Setup.scenarios setup)) <= 0) ->
     w == 0).
Proof.
  intros Hvalid.
  destruct (blended_loop_spec Hvalid 0) as (infos & Hall & Hloop).
  eexists infos, _. split; [exact Hall|]. split; [exact Hloop|].
  split; [reflexivity|].
  assert (Hterms : Forall2 (fun setup info =>
                      0 <= Setup.probability setup * KellyInfo.optimal_fraction info /\
                      (dot (map Scenario.probability (Setup.scenarios setup))
                           (map Scenario.return_pct (Setup.scenarios setup)) <= 0 ->
                       Setup.probability setup * KellyInfo.optimal_fraction info == 0))
                   setups infos).
  { clear Hloop. induction Hall as [|setup info setups infos Hrun _ IH];
      [constructor|].
    inversion Hvalid as [|? ? Hs Hrest]; subst.
    constructor; [|apply IH; exact Hrest].
    destruct (compute_kelly_fraction_cases format_pct0 format_pct1
                minimize_scalar_bounded Hs) as (info' & Hrun' & _ & _ & _ & _ & Hcases).
    rewrite Hrun in Hrun'. injection Hrun' as <-. cbv zeta in Hcases.
    destruct (Setup_valid_inv Hs) as (Hp & _).
    destruct Hcases as [(_ & Hf & _) | (Hpos & m & _ & _ & Hf0 & _)].
    - rewrite Hf. split; [lraQ | intros _; lraQ].
    - split; [nraQ | intros Hle; lraQ]. }
  clear Hloop Hall Hvalid.
  assert (Hgen : forall acc,
            0 <= acc ->
            0 <= fold_left Qplus
                   (map2 (fun setup info =>
                            Setup.probability setup * KellyInfo.optimal_fraction info)
                         setups infos) acc /\
            ((forall setup, In setup setups ->
                dot (map Scenario.probability (Setup.scenarios setup))
                    (map Scenario.return_pct (Setup.scenarios setup)) <= 0) ->
             fold_left Qplus
               (map2 (fun setup info =>
                        Setup.probability setup * KellyInfo.optimal_fraction info)
                     setups infos) acc == acc)).
  { induction Hterms as [|setup info setups infos [H0 Hz] _ IH]; intros acc Hacc.
    - cbn [map2 fold_left]. split; [exact Hacc | intros _; reflexivity].
    - cbn [map2 fold_left].
      destruct (IH (acc + Setup.probability setup * KellyInfo.optimal_fraction info))
        as [Hnn Hzero]; [lraQ|].
      split; [exact Hnn|]. intros Hno.
      rewrite Hzero by (intros s Hin; apply Hno; right; exact Hin).
      rewrite (Hz (Hno setup (or_introl eq_refl))). lraQ. }
  destruct (Hgen 0 ltac:(lraQ)) as [Hnn Hzero].
  split; [exact Hnn|]. split; [intros ->; reflexivity | exact Hzero].
Qed.

End Solver.



Lemma variance_non_negative_witness :
  exists info,
    compute_kelly_fraction Fixtures.no_format Fixtures.no_format (nearest_point 4)
                           Fixtures.two_outcome = Ok info /\
    0 <= KellyInfo.variance info /\
    KellyInfo.edge info = KellyInfo.expected_return info.
Proof.
  exact (@variance_non_negative Fixtures.no_format Fixtures.no_format (nearest_point 4)
           (nearest_point_bounded 4) Fixtures.two_outcome two_outcome_valid).
Defined.

Lemma compute_blended_kelly_weighted_sum_witness :
  exists infos w,
    Forall2 (fun setup info =>
               compute_kelly_fraction Fixtures.no_format Fixtures.no_format
                                      (nearest_point 4) setup = Ok info)
            [Fixtures.two_outcome_half; Fixtures.bad_bet] infos /\
    compute_blended_kelly Fixtures.no_format Fixtures.no_format (nearest_point 4)
                          [Fixtures.two_outcome_half; Fixtures.bad_bet] = Ok w /\
    w = sum (map2 (fun setup info =>
                     Setup.probability setup * KellyInfo.optimal_fraction info)
                  [Fixtures.two_outcome_half; Fixtures.bad_bet] infos) /\
    0 <= w /\
    ([Fixtures.two_outcome_half; Fixtures.bad_bet] = [] -> w = 0) /\
    ((forall setup, In setup [Fixtures.two_outcome_half; Fixtures.bad_bet] ->
        dot (map Scenario.probability (Setup.scenarios setup))
            (map Scenario.return_pct (Setup.scenarios setup)) <= 0) ->
     w == 0).
Proof.
  exact (@compute_blended_kelly_weighted_sum Fixtures.no_format Fixtures.no_format
           (nearest_point 4) (nearest_point_bounded 4)
           [Fixtures.two_outcome_half; Fixtures.bad_bet]
           (Forall_cons _ two_outcome_half_valid (Forall_cons _ bad_bet_valid (Forall_nil _)))).
Defined.

End KellyProps.

(** ** engine.py: the categorical sampler *)

Module SamplerProps.
Import Numpy Models Engine ModelsProps NumpyProps.
Local Open Scope Q_scope.

(** The cumulative table the sampler searches. *)
Lemma cumprobs_spec (probs : list Q) :
  probs <> [] ->
  exists cumprobs,
    setitem_last (cumsum probs) 1 = Ok cumprobs /\
    length cumprobs = length probs /\
    nth (length probs - 1) cumprobs 0 = 1 /\
    forall k, (k < length probs - 1)%nat -> nth k cumprobs 0 = nth k (cumsum probs) 0.
Proof.
  intros Hne.
  destruct (@setitem_last_spec Q 0 1 (cumsum probs)) as (c & Hc & Hlen & Hlast & Hkeep).
  - destruct probs; [congruence | discriminate].
  - rewrite cumsum_length in *. exists c. repeat split; assumption.
Qed.

(** With the last entry forced to 1 a draw of at most 1 lands on a valid
    index, whatever the other entries are. *)
Lemma searchsorted_in_range (cumprobs : list Q) (u : Q) :
  cumprobs <> [] ->
  nth (length cumprobs - 1) cumprobs 0 = 1 ->
  u <= 1 ->
  (searchsorted cumprobs u < length cumprobs)%nat.
Proof.
  intros Hne Hlast Hu.
  destruct (searchsorted_spec cumprobs u) as (Hr & Hleft & _). cbv zeta in *.
  destruct (Nat.eq_dec (searchsorted cumprobs u) (length cumprobs)) as [E|E]; [|lia].
  exfalso. rewrite E in Hleft. destruct Hleft as [H0|Hlt].
  - destruct cumprobs; [congruence | discriminate].
  - rewrite Hlast in Hlt. lraQ.
Qed.

Lemma shape_size_vector (n : nat) : shape_size [Z.of_nat n] = Ok n.
Proof.
  unfold shape_size. cbn [existsb fold_right orb].
  replace (Z.of_nat n <? 0)%Z with false by (symmetry; apply Z.ltb_ge; lia).
  rewrite Nat2Z.id, Nat.mul_1_r. reflexivity.
Qed.

Lemma shape_size_matrix (a b : Z) (n : nat) :
  shape_size [a; b] = Ok n <->
  (0 <= a)%Z /\ (0 <= b)%Z /\ n = (Z.to_nat a * Z.to_nat b)%nat.
Proof.
  unfold shape_size. cbn [existsb fold_right orb]. rewrite Nat.mul_1_r.
  destruct (a <? 0)%Z eqn:Ea, (b <? 0)%Z eqn:Eb; cbn [orb];
    try apply Z.ltb_lt in Ea; try apply Z.ltb_ge in Ea;
    try apply Z.ltb_lt in Eb; try apply Z.ltb_ge in Eb;
    (split; [try discriminate; intros [= <-]; repeat split; lia
            | intros (Ha & Hb & ->); try lia; reflexivity]).
Qed.

Lemma sample_categorical_spec (rng : Generator) (probs : list Q)
      (size : list Z) (n : nat) :
  probs <> [] ->
  (forall k, stream rng k <= 1) ->
  shape_size size = Ok n ->
  exists idx,
    _sample_categorical rng probs size =
      Ok (idx, {| stream := stream rng; position := (position rng + n)%nat |}) /\
    length idx = n /\
    Forall (fun i => (i < length probs)%nat) idx.
Proof.
  intros Hne Hu Hsize.
  destruct (cumprobs_spec Hne) as (c & Hc & Hlen & Hlast & _).
  unfold _sample_categorical, random. rewrite Hc, Hsize. cbn [bind].
  eexists. split; [reflexivity|]. split.
  - rewrite !length_map, length_seq. reflexivity.
  - rewrite Forall_map, Forall_map. apply Forall_forall. intros k _.
    rewrite <- Hlen. apply searchsorted_in_range.
    + destruct c; [destruct probs; [congruence | discriminate] | discriminate].
    + rewrite Hlen. exact Hlast.
    + apply Hu.
Qed.





(** *** The inverse CDF *)

Lemma cumsum_monotone (probs : list Q) :
  Forall (fun p => 0 <= p) probs ->
  forall i j, (i <= j < length probs)%nat ->
              nth i (cumsum probs) 0 <= nth j (cumsum probs) 0.
Proof.
  intros Hpos i j. induction j as [|j IH]; intros Hij.
  - replace i with 0%nat by lia. lraQ.
  - destruct (Nat.eq_dec i (S j)) as [->|Hne]; [lraQ|].
    rewrite cumsum_step by lia.
    assert (0 <= nth (S j) probs 0).
    { rewrite Forall_forall in Hpos. apply Hpos, nth_In. lia. }
    specialize (IH ltac:(lia)). lraQ.
Qed.

(** The table searched by the sampler is sorted when no probability is
    negative and the entries before the last sum to at most 1. *)
Lemma cumprobs_sorted (probs cumprobs : list Q) :
  probs <> [] ->
  Forall (fun p => 0 <= p) probs ->
  (forall j, (j < length probs - 1)%nat -> nth j (cumsum probs) 0 <= 1) ->
  setitem_last (cumsum probs) 1 = Ok cumprobs ->
  forall i j, (i <= j < length cumprobs)%nat -> nth i cumprobs 0 <= nth j cumprobs 0.
Proof.
  intros Hne Hpos Hbelow Hc i j Hij.
  destruct (cumprobs_spec Hne) as (c & Hc' & Hlen & Hlast & Hkeep).
  rewrite Hc in Hc'. injection Hc' as <-. rewrite Hlen in Hij.
  destruct (Nat.eq_dec j (length probs - 1)) as [->|Hj].
  - rewrite Hlast. destruct (Nat.eq_dec i (length probs - 1)) as [->|Hi].
    + rewrite Hlast. lraQ.
    + rewrite Hkeep by lia. apply Hbelow. lia.
  - rewrite !Hkeep by lia. apply cumsum_monotone; [exact Hpos | lia].
Qed.

(** X9.  Whatever the probability vector holds, as long as it is not
    empty, the sampler fed draws from [0, 1) returns one index per cell of
    the requested shape, every index is a valid position of the vector, and
    the generator has advanced by exactly that many draws. *)
Theorem sample_categorical_in_range (rng : Generator) (probs : list Q)
        (size : list Z) (n : nat) :
  probs <> [] ->
  uniform (stream rng) ->
  shape_size size = Ok n ->
  exists idx,
    _sample_categorical rng probs size =
      Ok (idx, {| stream := stream rng; position := (position rng + n)%nat |}) /\
    length idx = n /\
    Forall (fun i => (i < length probs)%nat) idx.
Proof.
  intros Hne Hu Hsize. apply sample_categorical_spec; [exact Hne | | exact Hsize].
  intros k. destruct (Hu k). lraQ.
Qed.

(** X10.  The sampler inverts the cumulative distribution.  For a vector
    without negative entries whose entries before the last sum to at most
    1, cell [c] of the result is decided by draw [c] alone: it is the first
    index [k] whose cumulative probability [p_0 + ... + p_k] reaches the
    draw, the last index taking every draw the earlier ones leave. *)
Theorem sample_categorical_inverse_cdf (rng : Generator) (probs : list Q) (n : nat) :
  probs <> [] ->
  Forall (fun p => 0 <= p) probs ->
  (forall j, (j < length probs - 1)%nat -> nth j (cumsum probs) 0 <= 1) ->
  uniform (stream rng) ->
  exists idx rng',
    _sample_categorical rng probs [Z.of_nat n] = Ok (idx, rng') /\
    length idx = n /\
    forall c k,
      nth_error idx c = Some k ->
      let u := stream rng (position rng + c) in
      (k < length probs)%nat /\
      (forall j, (j < k)%nat -> nth j (cumsum probs) 0 < u) /\
      ((k < length probs - 1)%nat -> u <= nth k (cumsum probs) 0).
Proof.
  intros Hne Hpos Hbelow Hu.
  destruct (cumprobs_spec Hne) as (cumprobs & Hc & Hlen & Hlast & Hkeep).
  pose proof (cumprobs_sorted Hne Hpos Hbelow Hc) as Hsorted.
  unfold _sample_categorical, random. rewrite Hc, shape_size_vector. cbn [bind].
  do 2 eexists. split; [reflexivity|]. split.
  - rewrite !length_map, length_seq. reflexivity.
  - intros c k Hk. cbv zeta.
    apply nth_error_map_inv' in Hk as (u & Hu' & <-).
    apply nth_error_map_inv' in Hu' as (pos & Hpos' & <-).
    assert (Hc' : (c < n)%nat).
    { assert (Hsome : nth_error (seq (position rng) n) c <> None) by congruence.
      apply nth_error_Some in Hsome. rewrite length_seq in Hsome. exact Hsome. }
    rewrite nth_error_seq' in Hpos' by exact Hc'. injection Hpos' as <-.
    set (u := stream rng (position rng + c)).
    assert (Hrange : (searchsorted cumprobs u < length cumprobs)%nat).
    { apply searchsorted_in_range.
      - destruct cumprobs; [destruct probs; [congruence | discriminate] | discriminate].
      - rewrite Hlen. exact Hlast.
      - destruct (Hu (position rng + c)%nat). fold u in H0. lraQ. }
    destruct (searchsorted_sorted cumprobs u Hsorted) as [Hbefore Hfrom].
    split; [lia|]. split.
    + intros j Hj. rewrite <- Hkeep by lia. apply Hbefore. exact Hj.
    + intros Hk. rewrite <- Hkeep by exact Hk. apply Hfrom. lia.
Qed.

Lemma half_stream_uniform : uniform (stream {| stream := fun _ => 0.5; position := 0 |}).
Proof. intros k. cbn [stream]. split; lraQ. Qed.

Lemma sample_categorical_in_range_witness :
  exists idx,
    _sample_categorical {| stream := fun _ => 0.5; position := 0 |} [0.6; 0.4] [3%Z; 2%Z] =
      Ok (idx, {| stream := fun _ => 0.5; position := (0 + 6)%nat |}) /\
    length idx = 6%nat /\
    Forall (fun i => (i < 2)%nat) idx.
Proof.
  apply (@sample_categorical_in_range
           {| stream := fun _ => 0.5; position := 0 |} [0.6; 0.4] [3%Z; 2%Z] 6%nat).
  - discriminate.
  - exact half_stream_uniform.
  - reflexivity.
Defined.

Lemma sample_categorical_inverse_cdf_witness :
  exists idx rng',
    _sample_categorical {| stream := fun _ => 0.5; position := 0 |} [0.6; 0.4]
                        [Z.of_nat 3] = Ok (idx, rng') /\
    length idx = 3%nat /\
    forall c k,
      nth_error idx c = Some k ->
      let u := stream {| stream := fun _ => 0.5; position := 0 |}
                      (position {| stream := fun _ => 0.5; position := 0 |} + c) in
      (k < 2)%nat /\
      (forall j, (j < k)%nat -> nth j (cumsum [0.6; 0.4]) 0 < u) /\
      ((k < 2 - 1)%nat -> u <= nth k (cumsum [0.6; 0.4]) 0).
Proof.
  apply (@sample_categorical_inverse_cdf
           {| stream := fun _ => 0.5; position := 0 |} [0.6; 0.4] 3%nat).
  - discriminate.
  - repeat constructor; discriminate.
  - intros j Hj. cbn [length Nat.sub] in Hj. destruct j; [cbn; discriminate | lia].
  - exact half_stream_uniform.
Defined.

End SamplerProps.

(** ** engine.py: the simulation *)

Module EngineProps.
Import Numpy Models Engine ModelsProps NumpyProps SamplerProps.
Local Open Scope Q_scope.

(** *** Boolean-mask assignment *)

Lemma scatter_length (A : Type) (mask : list bool) :
  forall (dst vals : list A), length (scatter dst mask vals) = length dst.
Proof.
  induction mask as [|b mask IH]; intros [|d dst] vals; try reflexivity.
  destruct b; [destruct vals|]; simpl; rewrite IH; reflexivity.
Qed.

Lemma scatter_false (A : Type) (mask : list bool) :
  forall (dst vals : list A) c,
    nth_error mask c = Some false ->
    nth_error (scatter dst mask vals) c = nth_error dst c.
Proof.
  induction mask as [|b mask IH]; intros [|d dst] vals c Hc;
    try (destruct c; discriminate); try reflexivity.
  destruct c as [|c].
  - simpl in Hc. injection Hc as ->. reflexivity.
  - simpl in Hc. destruct b; [destruct vals|]; simpl; apply IH; exact Hc.
Qed.

(** The True cells receive the values; what two buffers hold there
    afterwards does not depend on what they held before. *)
Lemma scatter_true (A : Type) (mask : list bool) :
  forall (dst1 dst2 vals : list A) c,
    length dst1 = length dst2 ->
    (mask_sum mask <= length vals)%nat ->
    nth_error mask c = Some true ->
    nth_error (scatter dst1 mask vals) c = nth_error (scatter dst2 mask vals) c.
Proof.
  induction mask as [|b mask IH]; intros [|d1 dst1] [|d2 dst2] vals c Hlen Hsum Hc;
    try (destruct c; discriminate); try discriminate; try reflexivity.
  injection Hlen as Hlen. unfold mask_sum in Hsum.
  destruct b; cbn [filter length] in Hsum.
  - destruct vals as [|v vals]; [simpl in Hsum; lia|].
    destruct c as [|c]; [reflexivity|]. simpl in *.
    apply IH; [exact Hlen | unfold mask_sum; lia | exact Hc].
  - destruct c as [|c]; [discriminate|]. simpl in *.
    apply IH; [exact Hlen | exact Hsum | exact Hc].
Qed.

(** Values scattered through one mask into two buffers stay paired. *)
Lemma scatter_pair (A B : Type) (R : A -> B -> Prop) (mask : list bool) :
  forall (dst1 : list A) (dst2 : list B) (vals1 : list A) (vals2 : list B) c,
    length dst1 = length mask ->
    length dst2 = length mask ->
    Forall2 R vals1 vals2 ->
    length vals1 = mask_sum mask ->
    nth_error mask c = Some true ->
    exists a b,
      nth_error (scatter dst1 mask vals1) c = Some a /\
      nth_error (scatter dst2 mask vals2) c = Some b /\
      R a b.
Proof.
  induction mask as [|m mask IH];
    intros [|d1 dst1] [|d2 dst2] vals1 vals2 c Hl1 Hl2 HR Hsum Hc;
    try (destruct c; discriminate); try discriminate.
  injection Hl1 as Hl1. injection Hl2 as Hl2. unfold mask_sum in Hsum.
  destruct m; cbn [filter length] in Hsum.
  - destruct HR as [|a b vals1 vals2 Hab HR]; [discriminate|].
    destruct c as [|c].
    + exists a, b. repeat split. exact Hab.
    + simpl in *. apply IH; try assumption. unfold mask_sum. lia.
  - destruct c as [|c]; [discriminate|]. simpl in *.
    apply IH; assumption.
Qed.

Lemma mask_sum_positive (mask : list bool) (c : nat) :
  nth_error mask c = Some true -> mask_sum mask <> 0%nat.
Proof.
  revert c; induction mask as [|b mask IH]; intros [|c] Hc; try discriminate.
  - simpl in Hc. injection Hc as ->. discriminate.
  - simpl in Hc. unfold mask_sum in *. destruct b; simpl; [discriminate|].
    apply (IH c). exact Hc.
Qed.

Lemma setitem_mask_exact (A : Type) (dst : list A) (mask : list bool) (vals : list A) :
  length vals = mask_sum mask ->
  setitem_mask dst mask vals = Ok (scatter dst mask vals).
Proof. intros H. unfold setitem_mask. rewrite H, Nat.eqb_refl. reflexivity. Qed.

(** Whether the assignment raises, and what it scatters, is decided by
    the mask and the values alone. *)
Lemma setitem_mask_cases (A : Type) (mask : list bool) (vals : list A) :
  (exists e, forall dst, setitem_mask dst mask vals = Raise e) \/
  (exists vals', (mask_sum mask <= length vals')%nat /\
                 forall dst, setitem_mask dst mask vals = Ok (scatter dst mask vals')).
Proof.
  unfold setitem_mask. destruct (Nat.eqb (length vals) (mask_sum mask)) eqn:E.
  - right. exists vals. apply Nat.eqb_eq in E. split; [lia | reflexivity].
  - destruct vals as [|v [|w vals]].
    + left. eexists. reflexivity.
    + right. exists (repeat v (mask_sum mask)). rewrite repeat_length.
      split; [lia | reflexivity].
    + left. eexists. reflexivity.
Qed.

(** *** Rows of a buffer *)

Lemma rows_length (A : Type) (n_rows n_cols : nat) :
  forall buf : list A, length (rows n_rows n_cols buf) = n_rows.
Proof.
  induction n_rows as [|n IH]; intros buf; simpl; [reflexivity | rewrite IH; reflexivity].
Qed.

Lemma rows_nth_error (A : Type) (n_cols : nat) (n_rows : nat) :
  forall (buf : list A) i,
    (i < n_rows)%nat ->
    nth_error (rows n_rows n_cols buf) i = Some (firstn n_cols (skipn (i * n_cols) buf)).
Proof.
  induction n_rows as [|n IH]; intros buf i Hi; [lia|].
  destruct i as [|i]; simpl rows.
  - reflexivity.
  - cbn [nth_error]. rewrite IH by lia. rewrite skipn_skipn.
    do 3 f_equal. simpl. lia.
Qed.

Lemma rows_cell (A : Type) (n_rows n_cols : nat) (buf : list A) (i j : nat) :
  (i < n_rows)%nat -> (j < n_cols)%nat ->
  cell (rows n_rows n_cols buf) i j = nth_error buf (i * n_cols + j).
Proof.
  intros Hi Hj. unfold cell. rewrite rows_nth_error by exact Hi.
  rewrite nth_error_firstn. apply Nat.ltb_lt in Hj. rewrite Hj.
  apply nth_error_skipn.
Qed.

Lemma rows_Forall (A : Type) (P : A -> Prop) (n_cols n_rows : nat) :
  forall buf : list A,
    Forall P buf -> Forall (Forall P) (rows n_rows n_cols buf).
Proof.
  induction n_rows as [|n IH]; intros buf Hbuf; simpl; constructor.
  - apply Forall_nth_error. intros c x Hc.
    rewrite nth_error_firstn in Hc. destruct (Nat.ltb c n_cols); [|discriminate].
    rewrite Forall_forall in Hbuf. apply Hbuf. eapply nth_error_In. exact Hc.
  - apply IH. apply Forall_nth_error. intros c x Hc.
    rewrite nth_error_skipn in Hc.
    rewrite Forall_forall in Hbuf. apply Hbuf. eapply nth_error_In. exact Hc.
Qed.

Lemma rows_row_length (A : Type) (n_cols n_rows : nat) :
  forall buf : list A,
    length buf = (n_rows * n_cols)%nat ->
    Forall (fun row => length row = n_cols) (rows n_rows n_cols buf).
Proof.
  induction n_rows as [|n IH]; intros buf Hlen; simpl; constructor.
  - rewrite length_firstn. simpl in Hlen. lia.
  - apply IH. rewrite length_skipn. simpl in Hlen. lia.
Qed.

(** *** Compounding *)

Lemma cumprod_from_positive (a : list Q) :
  forall acc, 0 < acc -> Forall (fun g => 0 < g) a ->
              Forall (fun v => 0 < v) (cumprod_from acc a).
Proof.
  induction a as [|x t IH]; intros acc Hacc Ha; simpl; constructor.
  - inversion Ha; subst. nraQ.
  - inversion Ha; subst. apply IH; [nraQ | assumption].
Qed.

Lemma cumprod_positive (a : list Q) :
  Forall (fun g => 0 < g) a -> Forall (fun v => 0 < v) (cumprod a).
Proof.
  destruct a as [|x t]; intros Ha; simpl; constructor; inversion Ha; subst.
  - assumption.
  - apply cumprod_from_positive; assumption.
Qed.

Lemma cumprod_from_length (a : list Q) : forall acc, length (cumprod_from acc a) = length a.
Proof. induction a as [|x t IH]; intros acc; simpl; [reflexivity | rewrite IH; reflexivity]. Qed.

Lemma cumprod_length (a : list Q) : length (cumprod a) = length a.
Proof. destruct a; simpl; [reflexivity | rewrite cumprod_from_length; reflexivity]. Qed.

(** *** The scenario-sampling loop *)

Lemma mask_nth_error (setup_indices : list nat) (k c s : nat) :
  nth_error setup_indices c = Some s ->
  nth_error (map (fun s => Nat.eqb s k) setup_indices) c = Some (Nat.eqb s k).
Proof. intros H. rewrite nth_error_map, H. reflexivity. Qed.

Lemma loop_body_fills (scenario_probs scenario_returns : list (list Q))
      (setup_indices : list nat) (st : LoopState) (k : nat) :
  aligned scenario_probs scenario_returns ->
  (k < length scenario_probs)%nat ->
  (forall i, stream (rng st) i <= 1) ->
  filled scenario_returns setup_indices k st ->
  exists st',
    loop_body scenario_probs scenario_returns setup_indices st k = Ok st' /\
    stream (rng st') = stream (rng st) /\
    filled scenario_returns setup_indices (S k) st'.
Proof.
  intros Hal Hk Hu (Hl1 & Hl2 & Hcells). unfold loop_body.
  set (mask := map (fun s => Nat.eqb s k) setup_indices).
  assert (Hmask : length mask = length setup_indices) by (unfold mask; apply length_map).
  destruct (Nat.eqb (mask_sum mask) 0) eqn:Ecount.
  - (* no cell drew this setup *)
    apply Nat.eqb_eq in Ecount. exists st. split; [reflexivity|]. split; [reflexivity|].
    split; [exact Hl1|]. split; [exact Hl2|]. intros c s Hc Hs.
    destruct (Nat.eq_dec s k) as [->|Hne]; [|apply (Hcells c s Hc); lia].
    exfalso. apply (@mask_sum_positive mask c); [|exact Ecount].
    unfold mask. rewrite (@mask_nth_error setup_indices k c k Hc), Nat.eqb_refl. reflexivity.
  - destruct (nth_error scenario_probs k) as [probs|] eqn:Eprobs.
    2:{ apply nth_error_None in Eprobs. lia. }
    destruct (Forall2_nth_error Hal _ Eprobs) as (returns & Ereturns & Hne & Hlen).
    destruct (@sample_categorical_spec (rng st) probs [Z.of_nat (mask_sum mask)]
                (mask_sum mask) Hne Hu (shape_size_vector _))
      as (sc_idx & Hsample & Hsize & Hvalid).
    destruct (@take_spec Q returns sc_idx) as (drawn & Htake & Hdrawn).
    { rewrite <- Hlen. exact Hvalid. }
    unfold getitem. rewrite Eprobs, Ereturns. cbn [bind].
    rewrite Hsample. cbn [bind].
    rewrite setitem_mask_exact by exact Hsize. cbn [bind].
    rewrite Htake. cbn [bind].
    rewrite setitem_mask_exact
      by (rewrite <- (Forall2_length_eq Hdrawn); exact Hsize).
    cbn [bind]. eexists. split; [reflexivity|]. split; [reflexivity|].
    unfold filled. cbn [scenario_indices period_returns].
    rewrite !scatter_length. split; [exact Hl1|]. split; [exact Hl2|].
    intros c s Hc Hs. pose proof (@mask_nth_error setup_indices k c s Hc) as Hm. fold mask in Hm.
    destruct (Nat.eqb s k) eqn:Esk.
    + apply Nat.eqb_eq in Esk. subst s.
      destruct (@scatter_pair nat Q (fun j r => nth_error returns j = Some r) mask
                  (scenario_indices st) (period_returns st) sc_idx drawn c)
        as (j & r & Hj & Hr & Hjr); try assumption; try lia.
      exists j, r. repeat split; try assumption.
      exists returns. split; assumption.
    + apply Nat.eqb_neq in Esk.
      destruct (Hcells c s Hc ltac:(lia)) as (j & r & Hj & Hr & Hjr).
      exists j, r. rewrite !scatter_false by exact Hm. repeat split; assumption.
Qed.

Lemma for_range_fills (scenario_probs scenario_returns : list (list Q))
      (setup_indices : list nat) (m : nat) :
  aligned scenario_probs scenario_returns ->
  forall (k : nat) (st : LoopState),
    (k + m <= length scenario_probs)%nat ->
    (forall i, stream (rng st) i <= 1) ->
    filled scenario_returns setup_indices k st ->
    exists st',
      for_range (loop_body scenario_probs scenario_returns setup_indices) (seq k m) st
        = Ok st' /\
      filled scenario_returns setup_indices (k + m) st'.
Proof.
  intros Hal. induction m as [|m IH]; intros k st Hk Hu Hfilled.
  - exists st. split; [reflexivity|]. rewrite Nat.add_0_r. exact Hfilled.
  - destruct (@loop_body_fills scenario_probs scenario_returns setup_indices st k)
      as (st1 & Hbody & Hstream & Hfilled1); try assumption; try lia.
    destruct (IH (S k) st1) as (st' & Hrest & Hfilled'); try assumption; try lia.
    { intros i. rewrite Hstream. apply Hu. }
    exists st'. cbn [seq for_range]. rewrite Hbody. cbn [bind].
    split; [exact Hrest|]. replace (k + S m)%nat with (S k + m)%nat by lia.
    exact Hfilled'.
Qed.

Lemma nth_error_map_inv (A B : Type) (f : A -> B) (l : list A) (n : nat) (y : B) :
  nth_error (map f l) n = Some y ->
  exists x, nth_error l n = Some x /\ y = f x.
Proof.
  rewrite nth_error_map. destruct (nth_error l n) as [x|]; [|discriminate].
  intros [= <-]. exists x. split; reflexivity.
Qed.

Lemma map2_length (A B C : Type) (f : A -> B -> C) (a : list A) :
  forall b : list B, length a = length b -> length (map2 f a b) = length a.
Proof.
  induction a as [|x a IH]; intros [|y b] H; try discriminate; [reflexivity|].
  simpl. rewrite IH; [reflexivity|]. simpl in H. lia.
Qed.

(** The tables of a constructed configuration are aligned. *)
Lemma tables_aligned (setups : list Setup.t) :
  Forall Setup.valid setups ->
  aligned (scenario_probs_of setups) (scenario_returns_of setups).
Proof.
  unfold aligned, scenario_probs_of, scenario_returns_of.
  induction 1 as [|setup setups Hvalid _ IH]; simpl; constructor; [|exact IH].
  destruct (Setup_valid_inv Hvalid) as (_ & Hlen & _).
  rewrite !length_map. split; [|reflexivity].
  destruct (Setup.scenarios setup); [simpl in Hlen; lia | discriminate].
Qed.

(** What a table entry says about the configuration. *)
Lemma drawn_from_setup (setups : list Setup.t) (s j : nat) (r : Q) :
  drawn_from (scenario_returns_of setups) s j r ->
  exists setup scenario,
    nth_error setups s = Some setup /\
    nth_error (Setup.scenarios setup) j = Some scenario /\
    r = Scenario.return_pct scenario.
Proof.
  intros (returns & Hs & Hj). unfold scenario_returns_of in Hs.
  apply nth_error_map_inv in Hs as (setup & Hsetup & ->).
  apply nth_error_map_inv in Hj as (scenario & Hscenario & ->).
  exists setup, scenario. repeat split; assumption.
Qed.

Section WithEnvironment.
Variable seeded : Z -> nat -> Q.
Variable entropy : nat -> Q.
Variable junk_int : nat -> nat.
Variable junk_float : nat -> Q.
Hypothesis seeded_uniform : forall s, uniform (seeded s).
Hypothesis entropy_uniform : uniform entropy.

(** [run_simulation] on a constructed configuration: it returns, the setup
    indices are valid, every cell was filled by the loop, and the result
    is assembled from these buffers. *)
Lemma run_simulation_spec (config : SimulationConfig.t) :
  SimulationConfig.valid config ->
  (forall s, SimulationConfig.seed config = Some s -> (0 <= s)%Z) ->
  let n_sims := Z.to_nat (SimulationConfig.num_simulations config) in
  let n_periods := Z.to_nat (SimulationConfig.num_periods config) in
  let setups := SimulationConfig.setups config in
  let initial_capital := SimulationConfig.initial_capital config in
  exists setup_indices st effective_kelly,
    length setup_indices = (n_sims * n_periods)%nat /\
    Forall (fun s => (s < length setups)%nat) setup_indices /\
    filled (scenario_returns_of setups) setup_indices (length setups) st /\
    Forall2 (fun s k =>
               nth_error (map (SimulationConfig.get_effective_kelly config) setups) s
               = Some k)
            setup_indices effective_kelly /\
    run_simulation seeded entropy junk_int junk_float config =
      Ok {| SimulationResult.portfolio_values :=
              map (fun row => initial_capital :: map (Qmult initial_capital) row)
                  (map cumprod
                       (rows n_sims n_periods
                             (map2 (fun k r => 1 + k * r) effective_kelly
                                   (period_returns st))));
            SimulationResult.period_returns := rows n_sims n_periods (period_returns st);
            SimulationResult.setup_indices := rows n_sims n_periods setup_indices;
            SimulationResult.scenario_indices :=
              rows n_sims n_periods (scenario_indices st);
            SimulationResult.config := config |}.
Proof.
  intros Hvalid Hseed. cbv zeta.
  destruct (SimulationConfig_valid_inv Hvalid)
    as (Hne & _ & Hsims & Hperiods & _ & _ & Hsetups).
  set (n := (Z.to_nat (SimulationConfig.num_simulations config)
             * Z.to_nat (SimulationConfig.num_periods config))%nat).
  set (setups := SimulationConfig.setups config) in *.
  (* the generator *)
  assert (Hrng : exists rng0, default_rng seeded entropy (SimulationConfig.seed config)
                              = Ok rng0 /\ (forall i, 0 <= stream rng0 i < 1)).
  { unfold default_rng. destruct (SimulationConfig.seed config) as [s|].
    - specialize (Hseed s eq_refl). apply Z.ltb_ge in Hseed. rewrite Hseed.
      eexists. split; [reflexivity|]. apply seeded_uniform.
    - eexists. split; [reflexivity|]. apply entropy_uniform. }
  destruct Hrng as (rng0 & Hrng0 & Hu0).
  (* the setup draw *)
  destruct (@sample_categorical_spec rng0 (map Setup.probability setups)
              [SimulationConfig.num_simulations config;
               SimulationConfig.num_periods config] n)
    as (si & Hsample & Hsize & Hsi).
  { intros E. apply Hne. destruct setups; [reflexivity | discriminate]. }
  { intros i. destruct (Hu0 i). lraQ. }
  { apply shape_size_matrix. repeat split; lia. }
  rewrite length_map in Hsi.
  (* the scenario loop *)
  set (st0 := {| rng := {| stream := stream rng0; position := (position rng0 + n)%nat |};
                 scenario_indices := empty junk_int n;
                 period_returns := empty junk_float n |}).
  destruct (@for_range_fills (scenario_probs_of setups) (scenario_returns_of setups)
              si (length setups) (tables_aligned Hsetups) 0%nat st0)
    as (st & Hloop & Hfilled).
  { unfold scenario_probs_of. rewrite length_map. lia. }
  { intros i. cbn [st0 rng stream]. destruct (Hu0 i). lraQ. }
  { unfold filled, st0, empty. cbn [scenario_indices period_returns].
    rewrite !length_map, !length_seq, Hsize. repeat split. intros c s _ Hs. lia. }
  cbn [Nat.add] in Hfilled.
  (* the Kelly lookup *)
  destruct (@take_spec Q (map (SimulationConfig.get_effective_kelly config) setups) si)
    as (ek & Htake & Hek).
  { rewrite length_map. exact Hsi. }
  exists si, st, ek.
  split; [exact Hsize|]. split; [exact Hsi|]. split; [exact Hfilled|].
  split; [exact Hek|].
  unfold run_simulation. rewrite Hrng0. cbn [bind]. fold setups. fold n.
  rewrite Hsample. cbn [bind]. fold st0.
  unfold scenario_probs_of, scenario_returns_of in Hloop. rewrite Hloop. cbn [bind].
  rewrite Htake. cbn [bind]. reflexivity.
Qed.

(** C2.  On a constructed configuration [run_simulation] returns, and in
    every cell [(i, j)] of the result the recorded setup index is a setup of
    the configuration, the recorded scenario index is a scenario of that
    setup, and the recorded raw return is that scenario's [return_pct]. *)
Theorem run_simulation_cells_consistent (config : SimulationConfig.t) :
  SimulationConfig.valid config ->
  (forall s, SimulationConfig.seed config = Some s -> (0 <= s)%Z) ->
  exists res,
    run_simulation seeded entropy junk_int junk_float config = Ok res /\
    forall i j,
      (i < Z.to_nat (SimulationConfig.num_simulations config))%nat ->
      (j < Z.to_nat (SimulationConfig.num_periods config))%nat ->
      exists s sc setup scenario,
        cell (SimulationResult.setup_indices res) i j = Some s /\
        cell (SimulationResult.scenario_indices res) i j = Some sc /\
        nth_error (SimulationConfig.setups config) s = Some setup /\
        nth_error (Setup.scenarios setup) sc = Some scenario /\
        cell (SimulationResult.period_returns res) i j
          = Some (Scenario.return_pct scenario).
Proof.
  intros Hvalid Hseed.
  destruct (run_simulation_spec Hvalid Hseed)
    as (si & st & ek & Hsize & Hsi & (_ & _ & Hcells) & _ & Hrun).
  cbv zeta in *. eexists. split; [exact Hrun|].
  intros i j Hi Hj.
  cbn [SimulationResult.setup_indices SimulationResult.scenario_indices
       SimulationResult.period_returns].
  rewrite !rows_cell by assumption.
  set (T := Z.to_nat (SimulationConfig.num_periods config)) in *.
  set (N := Z.to_nat (SimulationConfig.num_simulations config)) in *.
  assert (Hc : (i * T + j < length si)%nat) by (rewrite Hsize; nia).
  destruct (nth_error si (i * T + j)) as [s|] eqn:Es.
  2:{ apply nth_error_None in Es. lia. }
  rewrite Forall_forall in Hsi. pose proof (Hsi s (nth_error_In _ _ Es)) as Hs.
  destruct (Hcells _ _ Es Hs) as (sc & r & Hsc & Hr & Hdrawn).
  apply drawn_from_setup in Hdrawn as (setup & scenario & Hsetup & Hscenario & ->).
  exists s, sc, setup, scenario. repeat split; assumption.
Qed.

(** Where the portfolio does stay positive.  On a constructed
    configuration in which every outcome is solvent under the fraction
    applied to it, that is [1 + f * r > 0] for the effective Kelly fraction
    [f] of each setup and the return [r] of each of its scenarios,
    [run_simulation] returns a portfolio matrix of shape
    [(n_sims, n_periods + 1)] all of whose entries are strictly positive.
    The engine itself checks no such bound. *)
Theorem run_simulation_portfolio_positive (config : SimulationConfig.t) :
  SimulationConfig.valid config ->
  (forall s, SimulationConfig.seed config = Some s -> (0 <= s)%Z) ->
  (forall setup scenario,
      In setup (SimulationConfig.setups config) ->
      In scenario (Setup.scenarios setup) ->
      0 < 1 + SimulationConfig.get_effective_kelly config setup
              * Scenario.return_pct scenario) ->
  exists res,
    run_simulation seeded entropy junk_int junk_float config = Ok res /\
    length (SimulationResult.portfolio_values res)
      = Z.to_nat (SimulationConfig.num_simulations config) /\
    Forall (fun row =>
              length row = S (Z.to_nat (SimulationConfig.num_periods config)) /\
              Forall (fun v => 0 < v) row)
           (SimulationResult.portfolio_values res).
Proof.
  intros Hvalid Hseed Hsolvent.
  destruct (run_simulation_spec Hvalid Hseed)
    as (si & st & ek & Hsize & Hsi & (_ & Hlpr & Hcells) & Hek & Hrun).
  cbv zeta in *. eexists. split; [exact Hrun|].
  cbn [SimulationResult.portfolio_values].
  destruct (SimulationConfig_valid_inv Hvalid) as (_ & _ & _ & _ & Hcap & _).
  set (T := Z.to_nat (SimulationConfig.num_periods config)) in *.
  set (N := Z.to_nat (SimulationConfig.num_simulations config)) in *.
  set (growth_factors := map2 (fun k r => 1 + k * r) ek (period_returns st)).
  assert (Hlen : length growth_factors = (N * T)%nat).
  { unfold growth_factors. rewrite map2_length.
    - rewrite <- (Forall2_length_eq Hek). exact Hsize.
    - rewrite <- (Forall2_length_eq Hek). symmetry. exact Hlpr. }
  assert (Hpos : Forall (fun g => 0 < g) growth_factors).
  { apply Forall_nth_error. intros c g Hg.
    apply nth_error_map2 in Hg as (k & r & Hk & Hr & ->).
    assert (Hc : (c < length si)%nat).
    { rewrite (Forall2_length_eq Hek). apply nth_error_Some. congruence. }
    destruct (nth_error si c) as [s|] eqn:Es.
    2:{ apply nth_error_None in Es. lia. }
    destruct (Forall2_nth_error Hek _ Es) as (k' & Hk' & Hkelly).
    rewrite Hk in Hk'. injection Hk' as <-.
    apply nth_error_map_inv in Hkelly as (setup & Hsetup & ->).
    rewrite Forall_forall in Hsi. pose proof (Hsi s (nth_error_In _ _ Es)) as Hs.
    destruct (Hcells _ _ Es Hs) as (sc & r' & _ & Hr' & Hdrawn).
    rewrite Hr in Hr'. injection Hr' as <-.
    apply drawn_from_setup in Hdrawn as (setup' & scenario & Hsetup' & Hscenario & ->).
    rewrite Hsetup in Hsetup'. injection Hsetup' as <-.
    apply Hsolvent; eapply nth_error_In; eassumption. }
  split.
  - rewrite !length_map, rows_length. reflexivity.
  - rewrite !Forall_map.
    pose proof (rows_Forall T N Hpos) as Hrows.
    pose proof (rows_row_length T N growth_factors Hlen) as Hshape.
    rewrite Forall_forall in *. intros row Hrow.
    cbn [length]. rewrite length_map, cumprod_length, (Hshape row Hrow).
    split; [reflexivity|]. constructor; [exact Hcap|].
    rewrite Forall_map.
    pose proof (cumprod_positive (Hrows row Hrow)) as Hcum.
    rewrite Forall_forall in *. intros v Hv. specialize (Hcum v Hv). nraQ.
Qed.

End WithEnvironment.

(** A fraction of at most 1 keeps every outcome of a constructed
    configuration solvent. *)
Lemma solvent_without_leverage (config : SimulationConfig.t) :
  SimulationConfig.valid config ->
  (forall setup, In setup (SimulationConfig.setups config) ->
                 SimulationConfig.get_effective_kelly config setup <= 1) ->
  forall setup scenario,
    In setup (SimulationConfig.setups config) ->
    In scenario (Setup.scenarios setup) ->
    0 < 1 + SimulationConfig.get_effective_kelly config setup
            * Scenario.return_pct scenario.
Proof.
  intros Hvalid Hle setup scenario Hsetup Hscenario.
  destruct (SimulationConfig_valid_inv Hvalid) as (_ & _ & _ & _ & _ & Hdef & Hsetups).
  rewrite Forall_forall in Hsetups.
  destruct (Setup_valid_inv (Hsetups setup Hsetup)) as (_ & _ & _ & Hk & Hscs).
  rewrite Forall_forall in Hscs.
  destruct (Scenario_valid_inv (Hscs scenario Hscenario)) as (_ & Hr).
  specialize (Hle setup Hsetup).
  assert (Hf : 0 < SimulationConfig.get_effective_kelly config setup).
  { unfold SimulationConfig.get_effective_kelly.
    destruct (Setup.kelly_fraction setup) as [k|]; [apply Hk; reflexivity | exact Hdef]. }
  nraQ.
Qed.

Lemma two_setup_config_valid : SimulationConfig.valid Fixtures.two_setup_config.
Proof. repeat constructor. Qed.

Lemma leveraged_config_valid : SimulationConfig.valid Fixtures.leveraged_config.
Proof. repeat constructor. Qed.

Lemma constant_stream_uniform (u : Q) : 0 <= u < 1 -> uniform (Fixtures.constant_stream u).
Proof. intros H k. exact H. Qed.

Lemma seed_42_non_negative (s : Z) : Some 42%Z = Some s -> (0 <= s)%Z.
Proof. intros [= <-]. lia. Qed.

Lemma run_simulation_cells_consistent_witness :
  exists res,
    run_simulation (fun _ => Fixtures.constant_stream 0.5) (Fixtures.constant_stream 0.5)
                   (fun _ => 0%nat) (fun _ => 0) Fixtures.two_setup_config = Ok res /\
    forall i j,
      (i < 1000)%nat -> (j < 50)%nat ->
      exists s sc setup scenario,
        cell (SimulationResult.setup_indices res) i j = Some s /\
        cell (SimulationResult.scenario_indices res) i j = Some sc /\
        nth_error (SimulationConfig.setups Fixtures.two_setup_config) s = Some setup /\
        nth_error (Setup.scenarios setup) sc = Some scenario /\
        cell (SimulationResult.period_returns res) i j
          = Some (Scenario.return_pct scenario).
Proof.
  apply (@run_simulation_cells_consistent
           (fun _ => Fixtures.constant_stream 0.5) (Fixtures.constant_stream 0.5)
           (fun _ => 0%nat) (fun _ => 0)
           (fun _ => constant_stream_uniform (u := 0.5) ltac:(lraQ))
           (constant_stream_uniform (u := 0.5) ltac:(lraQ))
           Fixtures.two_setup_config two_setup_config_valid seed_42_non_negative).
Defined.

Lemma run_simulation_portfolio_positive_witness :
  exists res,
    run_simulation (fun _ => Fixtures.constant_stream 0.5) (Fixtures.constant_stream 0.5)
                   (fun _ => 0%nat) (fun _ => 0) Fixtures.two_setup_config = Ok res /\
    length (SimulationResult.portfolio_values res) = 1000%nat /\
    Forall (fun row => length row = 51%nat /\ Forall (fun v => 0 < v) row)
           (SimulationResult.portfolio_values res).
Proof.
  apply (@run_simulation_portfolio_positive
           (fun _ => Fixtures.constant_stream 0.5) (Fixtures.constant_stream 0.5)
           (fun _ => 0%nat) (fun _ => 0)
           (fun _ => constant_stream_uniform (u := 0.5) ltac:(lraQ))
           (constant_stream_uniform (u := 0.5) ltac:(lraQ))
           Fixtures.two_setup_config two_setup_config_valid seed_42_non_negative).
  apply (solvent_without_leverage two_setup_config_valid).
  intros setup [<-|[<-|[]]]; cbv; discriminate.
Defined.

(** C4.  The engine lets a portfolio value go negative although every
    return exceeds -100%.  The configuration is constructed, every return
    of it exceeds -100% and the Kelly fraction 2 is an allowed default, but
    both periods draw the 90% loss: the path goes from 100 to
    [100 * (1 + 2 * -0.9) = -80] and then to 64.  [kelly.py] keeps
    [1 + f * r > 0] on its own paths and [test_portfolio_values_positive]
    expects positive values; [run_simulation] compounds without the
    guard. *)
Lemma leveraged_portfolio_negative :
  SimulationConfig.valid Fixtures.leveraged_config /\
  uniform Fixtures.opening_draws_42 /\
  (forall setup scenario,
      In setup (SimulationConfig.setups Fixtures.leveraged_config) ->
      In scenario (Setup.scenarios setup) ->
      -1 < Scenario.return_pct scenario /\
      0 < SimulationConfig.get_effective_kelly Fixtures.leveraged_config setup) /\
  exists res v1 v2,
    run_simulation (fun _ => Fixtures.opening_draws_42) (Fixtures.constant_stream 0.5)
                   (fun _ => 0%nat) (fun _ => 0) Fixtures.leveraged_config = Ok res /\
    SimulationResult.scenario_indices res = [[1%nat; 1%nat]] /\
    cell (SimulationResult.portfolio_values res) 0 1 = Some v1 /\ v1 == -80 /\
    cell (SimulationResult.portfolio_values res) 0 2 = Some v2 /\ v2 == 64.
Proof.
  split; [exact leveraged_config_valid|].
  split.
  { intros k. unfold Fixtures.opening_draws_42.
    do 9 (destruct k as [|k]; [cbn [nth]; split; lraQ|]).
    destruct k; cbn [nth]; split; lraQ. }
  split.
  - intros setup scenario [<-|[]] [<-|[<-|[]]]; split; reflexivity.
  - do 3 eexists. split; [vm_compute; reflexivity|].
    split; [reflexivity|].
    split; [vm_compute; reflexivity|]. split; [reflexivity|].
    split; [vm_compute; reflexivity|]. reflexivity.
Qed.

(** *** Determinism *)

Lemma sample_categorical_length (rng0 rng1 : Generator) (probs : list Q)
      (size : list Z) (idx : list nat) :
  _sample_categorical rng0 probs size = Ok (idx, rng1) ->
  shape_size size = Ok (length idx).
Proof.
  unfold _sample_categorical, random.
  destruct (setitem_last (cumsum probs) 1) as [c|e]; [|discriminate].
  cbn [bind]. destruct (shape_size size) as [n|e]; [|discriminate].
  cbn [bind]. intros [= <- _]. rewrite !length_map, length_seq. reflexivity.
Qed.

(** One iteration of the loop, run from two states that agree below
    [k], ends alike in two states that agree below [k + 1]: what the
    buffers held in the cells it writes plays no part. *)
Lemma loop_body_agree (scenario_probs scenario_returns : list (list Q))
      (setup_indices : list nat) (st1 st2 : LoopState) (k : nat) :
  agree setup_indices k st1 st2 ->
  alike (agree setup_indices (S k))
        (loop_body scenario_probs scenario_returns setup_indices st1 k)
        (loop_body scenario_probs scenario_returns setup_indices st2 k).
Proof.
  intros (Hrng & Hi1 & Hi2 & Hr1 & Hr2 & Hcells). unfold loop_body.
  set (mask := map (fun s => Nat.eqb s k) setup_indices).
  rewrite <- Hrng.
  destruct (Nat.eqb (mask_sum mask) 0) eqn:Ecount.
  - apply Nat.eqb_eq in Ecount. cbn [alike]. unfold agree.
    do 5 (split; [assumption|]). intros c s Hc Hs.
    destruct (Nat.eq_dec s k) as [->|Hne]; [|apply (Hcells c s Hc); lia].
    exfalso. apply (@mask_sum_positive mask c); [|exact Ecount].
    unfold mask. rewrite (@mask_nth_error setup_indices k c k Hc), Nat.eqb_refl.
    reflexivity.
  - destruct (getitem scenario_probs k) as [probs|e]; [|reflexivity]. cbn [bind].
    destruct (_sample_categorical (rng st1) probs [Z.of_nat (mask_sum mask)])
      as [[sc_idx rng']|e] eqn:Esample; [|reflexivity].
    cbn [bind].
    destruct (setitem_mask_cases mask sc_idx) as [(e & He) | (idx' & Hidx' & Hset)].
    { rewrite !He. reflexivity. }
    rewrite !Hset. cbn [bind].
    destruct (getitem scenario_returns k) as [returns|e]; [|reflexivity]. cbn [bind].
    destruct (take returns sc_idx) as [drawn|e]; [|reflexivity]. cbn [bind].
    destruct (setitem_mask_cases mask drawn) as [(e & He) | (drawn' & Hdrawn' & Hset')].
    { rewrite !He. reflexivity. }
    rewrite !Hset'. cbn [bind alike]. unfold agree.
    cbn [rng scenario_indices period_returns]. rewrite !scatter_length.
    split; [reflexivity|]. do 4 (split; [assumption|]). intros c s Hc Hs.
    pose proof (@mask_nth_error setup_indices k c s Hc) as Hm. fold mask in Hm.
    destruct (Nat.eqb s k) eqn:Esk.
    + split; apply scatter_true; first [congruence | assumption].
    + apply Nat.eqb_neq in Esk. rewrite !scatter_false by exact Hm.
      apply (Hcells c s Hc). lia.
Qed.

Lemma for_range_agree (scenario_probs scenario_returns : list (list Q))
      (setup_indices : list nat) (m : nat) :
  forall (k : nat) (st1 st2 : LoopState),
    agree setup_indices k st1 st2 ->
    alike (agree setup_indices (k + m))
          (for_range (loop_body scenario_probs scenario_returns setup_indices)
                     (seq k m) st1)
          (for_range (loop_body scenario_probs scenario_returns setup_indices)
                     (seq k m) st2).
Proof.
  induction m as [|m IH]; intros k st1 st2 Hagree.
  - cbn [seq for_range alike]. rewrite Nat.add_0_r. exact Hagree.
  - cbn [seq for_range].
    pose proof (@loop_body_agree scenario_probs scenario_returns setup_indices
                  st1 st2 k Hagree) as Hstep.
    destruct (loop_body scenario_probs scenario_returns setup_indices st1 k) as [a1|e1],
             (loop_body scenario_probs scenario_returns setup_indices st2 k) as [a2|e2];
      cbn [alike] in Hstep; try contradiction; cbn [bind].
    + replace (k + S m)%nat with (S k + m)%nat by lia. apply IH. exact Hstep.
    + exact Hstep.
Qed.

(** States that agree on every cell hold the same buffers. *)
Lemma agree_everywhere (setup_indices : list nat) (k : nat) (st1 st2 : LoopState) :
  Forall (fun s => (s < k)%nat) setup_indices ->
  agree setup_indices k st1 st2 ->
  scenario_indices st1 = scenario_indices st2 /\
  period_returns st1 = period_returns st2.
Proof.
  intros Hall (_ & Hi1 & Hi2 & Hr1 & Hr2 & Hcells). rewrite Forall_forall in Hall.
  assert (Hin : forall c s, nth_error setup_indices c = Some s -> (s < k)%nat).
  { intros c s Es. apply Hall. eapply nth_error_In. exact Es. }
  split; apply nth_error_ext; intros c;
    destruct (nth_error setup_indices c) as [s|] eqn:Es.
  - apply (Hcells c s Es (Hin c s Es)).
  - apply nth_error_None in Es.
    rewrite (proj2 (nth_error_None (scenario_indices st1) c)) by lia.
    rewrite (proj2 (nth_error_None (scenario_indices st2) c)) by lia. reflexivity.
  - apply (Hcells c s Es (Hin c s Es)).
  - apply nth_error_None in Es.
    rewrite (proj2 (nth_error_None (period_returns st1) c)) by lia.
    rewrite (proj2 (nth_error_None (period_returns st2) c)) by lia. reflexivity.
Qed.

(** With a seed, neither the entropy of the operating system nor the
    contents of uninitialised buffers reach the result. *)
Lemma run_simulation_seeded (seeded : Z -> nat -> Q) (entropy1 entropy2 : nat -> Q)
      (junk_int1 junk_int2 : nat -> nat) (junk_float1 junk_float2 : nat -> Q)
      (config : SimulationConfig.t) (s : Z) :
  SimulationConfig.seed config = Some s ->
  run_simulation seeded entropy1 junk_int1 junk_float1 config =
  run_simulation seeded entropy2 junk_int2 junk_float2 config.
Proof.
  intros Hseed. unfold run_simulation. rewrite Hseed. unfold default_rng.
  destruct (s <? 0)%Z; [reflexivity|]. cbn [bind].
  set (n := (Z.to_nat (SimulationConfig.num_simulations config)
             * Z.to_nat (SimulationConfig.num_periods config))%nat).
  destruct (_sample_categorical _ _ _) as [[si rng1]|e] eqn:Esample; [|reflexivity].
  cbn [bind]. apply sample_categorical_length, shape_size_matrix in Esample.
  destruct Esample as (_ & _ & Esample). fold n in Esample.
  match goal with
  | |- bind (for_range ?body ?range ?st1) _ = bind (for_range _ _ ?st2) _ =>
      assert (Hloop : alike (agree si (0 + length (SimulationConfig.setups config)))
                            (for_range body range st1) (for_range body range st2));
      [ apply for_range_agree | destruct (for_range body range st1) as [a1|e1],
                                         (for_range body range st2) as [a2|e2] ]
  end.
  - unfold agree, empty. cbn [rng scenario_indices period_returns].
    rewrite !length_map, !length_seq.
    split; [reflexivity|]. do 4 (split; [symmetry; exact Esample|]).
    intros c s0 _ Hs0. lia.
  - cbn [alike bind] in *.
    destruct (take _ si) as [ek|e] eqn:Etake; [|reflexivity]. cbn [bind].
    apply take_ok_inv in Etake. rewrite length_map in Etake.
    destruct (agree_everywhere Etake Hloop) as [-> ->]. reflexivity.
  - contradiction.
  - contradiction.
  - cbn [alike bind] in *. congruence.
Qed.

(** C3.  With a fixed integer seed two invocations of [run_simulation] on
    one constructed configuration, whatever entropy the operating system
    offers and whatever the allocator leaves in fresh buffers, return the
    same result: the same portfolio values, raw returns, setup indices and
    scenario indices. *)
Theorem run_simulation_deterministic (seeded : Z -> nat -> Q)
        (entropy1 entropy2 : nat -> Q)
        (junk_int1 junk_int2 : nat -> nat) (junk_float1 junk_float2 : nat -> Q)
        (config : SimulationConfig.t) (s : Z) :
  SimulationConfig.valid config ->
  SimulationConfig.seed config = Some s ->
  (0 <= s)%Z ->
  (forall s', uniform (seeded s')) ->
  exists res,
    run_simulation seeded entropy1 junk_int1 junk_float1 config = Ok res /\
    run_simulation seeded entropy2 junk_int2 junk_float2 config = Ok res.
Proof.
  intros Hvalid Hseed Hs Hu.
  destruct (@run_simulation_spec seeded (seeded s) junk_int1 junk_float1 Hu (Hu s)
              config Hvalid) as (si & st & ek & _ & _ & _ & _ & Hrun).
  { intros s' Hs'. rewrite Hseed in Hs'. injection Hs' as <-. exact Hs. }
  cbv zeta in Hrun. eexists. split.
  - rewrite (@run_simulation_seeded seeded entropy1 (seeded s) junk_int1 junk_int1
               junk_float1 junk_float1 config s Hseed). exact Hrun.
  - rewrite (@run_simulation_seeded seeded entropy2 (seeded s) junk_int2 junk_int1
               junk_float2 junk_float1 config s Hseed). exact Hrun.
Qed.

Lemma run_simulation_deterministic_witness :
  exists res,
    run_simulation (fun _ => Fixtures.constant_stream 0.5) (Fixtures.constant_stream 0.1)
                   (fun _ => 0%nat) (fun _ => 0) Fixtures.two_setup_config = Ok res /\
    run_simulation (fun _ => Fixtures.constant_stream 0.5) (Fixtures.constant_stream 0.9)
                   (fun _ => 7%nat) (fun _ => 1) Fixtures.two_setup_config = Ok res.
Proof.
  apply (@run_simulation_deterministic
           (fun _ => Fixtures.constant_stream 0.5)
           (Fixtures.constant_stream 0.1) (Fixtures.constant_stream 0.9)
           (fun _ => 0%nat) (fun _ => 7%nat) (fun _ => 0) (fun _ => 1)
           Fixtures.two_setup_config 42%Z two_setup_config_valid eq_refl).
  - lia.
  - intros s'. apply constant_stream_uniform. lraQ.
Defined.

(** *** Compounding along a path *)

Lemma cumprod_from_step (a : list Q) :
  forall acc j,
    nth_error (acc :: cumprod_from acc a) (S j)
    = match nth_error (acc :: cumprod_from acc a) j, nth_error a j with
      | Some v, Some g => Some (v * g)
      | _, _ => None
      end.
Proof.
  induction a as [|x t IH]; intros acc j.
  - destruct j as [|j]; [reflexivity|]. cbn [cumprod_from nth_error].
    destruct j; reflexivity.
  - cbn [cumprod_from]. destruct j as [|j]; [reflexivity|].
    change (nth_error (acc :: acc * x :: cumprod_from (acc * x) t) (S (S j)))
      with (nth_error (acc * x :: cumprod_from (acc * x) t) (S j)).
    rewrite IH. reflexivity.
Qed.

(** [out[j+1] = out[j] * a[j+1]] *)
Lemma cumprod_step (a : list Q) (j : nat) :
  nth_error (cumprod a) (S j)
  = match nth_error (cumprod a) j, nth_error a (S j) with
    | Some v, Some g => Some (v * g)
    | _, _ => None
    end.
Proof.
  destruct a as [|x t]; [destruct j; reflexivity|]. cbn [cumprod].
  rewrite cumprod_from_step. reflexivity.
Qed.

Lemma nth_error_tail (A : Type) (x : A) (l : list A) (n : nat) :
  nth_error (x :: l) (S n) = nth_error l n.
Proof. reflexivity. Qed.

Lemma cumprod_head (a : list Q) : nth_error (cumprod a) 0 = nth_error a 0.
Proof. destruct a; reflexivity. Qed.

Lemma cell_map (A B : Type) (f : list A -> list B) (m : list (list A)) (i j : nat) :
  cell (map f m) i j
  = match nth_error m i with
    | Some row => nth_error (f row) j
    | None => None
    end.
Proof. unfold cell. rewrite nth_error_map. destruct (nth_error m i); reflexivity. Qed.

(** The fraction in force for a setup of a constructed configuration is
    positive. *)
Lemma effective_kelly_positive (config : SimulationConfig.t) (setup : Setup.t) :
  SimulationConfig.valid config ->
  In setup (SimulationConfig.setups config) ->
  0 < SimulationConfig.get_effective_kelly config setup.
Proof.
  intros Hvalid Hin.
  destruct (SimulationConfig_valid_inv Hvalid) as (_ & _ & _ & _ & _ & Hdef & Hsetups).
  rewrite Forall_forall in Hsetups.
  destruct (Setup_valid_inv (Hsetups setup Hin)) as (_ & _ & _ & Hk & _).
  unfold SimulationConfig.get_effective_kelly.
  destruct (Setup.kelly_fraction setup) as [k|]; [apply Hk; reflexivity | exact Hdef].
Qed.

Section Paths.
Variable seeded : Z -> nat -> Q.
Variable entropy : nat -> Q.
Variable junk_int : nat -> nat.
Variable junk_float : nat -> Q.
Hypothesis seeded_uniform : forall s, uniform (seeded s).
Hypothesis entropy_uniform : uniform entropy.

(** What [run_simulation] returns on a constructed configuration: four
    matrices of the announced shapes, every path starting at the initial
    capital and moving, period by period, by the factor [1 + f * r] of the
    scenario drawn and of the Kelly fraction in force for the setup
    drawn. *)
Lemma run_simulation_paths (config : SimulationConfig.t) :
  SimulationConfig.valid config ->
  (forall s, SimulationConfig.seed config = Some s -> (0 <= s)%Z) ->
  let n_sims := Z.to_nat (SimulationConfig.num_simulations config) in
  let n_periods := Z.to_nat (SimulationConfig.num_periods config) in
  exists res,
    run_simulation seeded entropy junk_int junk_float config = Ok res /\
    (SimulationResult.config res = config /\
     length (SimulationResult.portfolio_values res) = n_sims /\
     Forall (fun row => length row = S n_periods)
            (SimulationResult.portfolio_values res) /\
     length (SimulationResult.period_returns res) = n_sims /\
     Forall (fun row => length row = n_periods) (SimulationResult.period_returns res) /\
     length (SimulationResult.setup_indices res) = n_sims /\
     Forall (fun row => length row = n_periods) (SimulationResult.setup_indices res) /\
     length (SimulationResult.scenario_indices res) = n_sims /\
     Forall (fun row => length row = n_periods)
            (SimulationResult.scenario_indices res)) /\
    forall i, (i < n_sims)%nat ->
      cell (SimulationResult.portfolio_values res) i 0
        = Some (SimulationConfig.initial_capital config) /\
      forall j, (j < n_periods)%nat ->
        exists v v' s setup scenario,
          cell (SimulationResult.portfolio_values res) i j = Some v /\
          cell (SimulationResult.portfolio_values res) i (S j) = Some v' /\
          cell (SimulationResult.setup_indices res) i j = Some s /\
          nth_error (SimulationConfig.setups config) s = Some setup /\
          In scenario (Setup.scenarios setup) /\
          cell (SimulationResult.period_returns res) i j
            = Some (Scenario.return_pct scenario) /\
          v' == v * (1 + SimulationConfig.get_effective_kelly config setup
                         * Scenario.return_pct scenario).
Proof.
  intros Hvalid Hseed. cbv zeta.
  destruct (@run_simulation_spec seeded entropy junk_int junk_float seeded_uniform
              entropy_uniform config Hvalid Hseed)
    as (si & st & ek & Hsize & Hsi & (Hlsi & Hlpr & Hcells) & Hek & Hrun).
  cbv zeta in *. eexists. split; [exact Hrun|].
  cbn [SimulationResult.portfolio_values SimulationResult.period_returns
       SimulationResult.setup_indices SimulationResult.scenario_indices
       SimulationResult.config].
  set (T := Z.to_nat (SimulationConfig.num_periods config)) in *.
  set (N := Z.to_nat (SimulationConfig.num_simulations config)) in *.
  set (c0 := SimulationConfig.initial_capital config).
  set (growth_factors := map2 (fun k r => 1 + k * r) ek (period_returns st)).
  assert (Hlen : length growth_factors = (N * T)%nat).
  { unfold growth_factors. rewrite map2_length.
    - rewrite <- (Forall2_length_eq Hek). exact Hsize.
    - rewrite <- (Forall2_length_eq Hek). symmetry. exact Hlpr. }
  split.
  { split; [reflexivity|].
    rewrite !length_map, !rows_length. split; [reflexivity|]. split.
    - rewrite !Forall_map.
      pose proof (rows_row_length T N growth_factors Hlen) as Hshape.
      rewrite Forall_forall in *. intros row Hrow.
      cbn [length]. rewrite length_map, cumprod_length, (Hshape row Hrow). reflexivity.
    - split; [reflexivity|]. split; [apply rows_row_length; lia|].
      split; [reflexivity|]. split; [apply rows_row_length; lia|].
      split; [reflexivity|]. apply rows_row_length; lia. }
  intros i Hi.
  set (row := firstn T (skipn (i * T) growth_factors)).
  assert (Hpv : forall j',
            cell (map (fun row => c0 :: map (Qmult c0) row)
                      (map cumprod (rows N T growth_factors))) i j'
            = nth_error (c0 :: map (Qmult c0) (cumprod row)) j').
  { intros j'. rewrite map_map, cell_map, rows_nth_error by exact Hi. reflexivity. }
  split; [rewrite Hpv; reflexivity|]. intros j Hj. rewrite !Hpv.
  assert (Hrow : forall j', (j' < T)%nat ->
            nth_error row j' = nth_error growth_factors (i * T + j')).
  { intros j' Hj'. unfold row. rewrite nth_error_firstn.
    apply Nat.ltb_lt in Hj'. rewrite Hj'. apply nth_error_skipn. }
  rewrite !rows_cell by assumption.
  assert (Hc : (i * T + j < length si)%nat) by (rewrite Hsize; nia).
  destruct (nth_error si (i * T + j)) as [s|] eqn:Es.
  2:{ apply nth_error_None in Es. lia. }
  rewrite Forall_forall in Hsi. pose proof (Hsi s (nth_error_In _ _ Es)) as Hs.
  destruct (Hcells _ _ Es Hs) as (sc & r & _ & Hr & Hdrawn).
  apply drawn_from_setup in Hdrawn as (setup & scenario & Hsetup & Hscenario & ->).
  destruct (Forall2_nth_error Hek _ Es) as (k & Hk & Hkelly).
  apply nth_error_map_inv in Hkelly as (setup' & Hsetup' & ->).
  rewrite Hsetup in Hsetup'. injection Hsetup' as <-.
  assert (Hg : nth_error row j
               = Some (1 + SimulationConfig.get_effective_kelly config setup
                           * Scenario.return_pct scenario)).
  { rewrite Hrow by exact Hj. unfold growth_factors.
    destruct (nth_error (map2 (fun k r => 1 + k * r) ek (period_returns st)) (i * T + j))
      as [g|] eqn:Eg.
    - apply nth_error_map2 in Eg as (k' & r' & Hk' & Hr' & ->). congruence.
    - apply nth_error_None in Eg. fold growth_factors in Eg. lia. }
  set (g := 1 + SimulationConfig.get_effective_kelly config setup
                * Scenario.return_pct scenario) in *.
  assert (Hcum : exists w, nth_error (cumprod row) j = Some w).
  { destruct (nth_error (cumprod row) j) as [w|] eqn:Ew; [exists w; reflexivity|].
    apply nth_error_None in Ew. rewrite cumprod_length in Ew.
    assert (nth_error row j <> None) by congruence.
    apply nth_error_Some in H. lia. }
  destruct Hcum as (w & Hw).
  destruct j as [|j].
  - rewrite cumprod_head, Hg in Hw. injection Hw as <-.
    exists c0, (c0 * g), s, setup, scenario.
    split; [reflexivity|]. split.
    + rewrite nth_error_tail, nth_error_map, cumprod_head, Hg. reflexivity.
    + split; [reflexivity|]. split; [exact Hsetup|].
      split; [apply nth_error_In in Hscenario; exact Hscenario|].
      split; [exact Hr|]. unfold g. lraQ.
  - rewrite cumprod_step, Hg in Hw.
    destruct (nth_error (cumprod row) j) as [w0|] eqn:Ew0; [|discriminate].
    injection Hw as <-.
    exists (c0 * w0), (c0 * (w0 * g)), s, setup, scenario.
    split; [rewrite nth_error_tail, nth_error_map, Ew0; reflexivity|].
    split; [rewrite nth_error_tail, nth_error_map, cumprod_step, Ew0, Hg; reflexivity|].
    split; [reflexivity|]. split; [exact Hsetup|].
    split; [apply nth_error_In in Hscenario; exact Hscenario|].
    split; [exact Hr|]. unfold g. ring.
Qed.


(** X12.  The result of [run_simulation] on a constructed configuration
    carries that configuration, a portfolio matrix of [num_simulations]
    rows and [num_periods + 1] columns, and three matrices (raw returns,
    setup indices, scenario indices) of [num_simulations] rows and
    [num_periods] columns. *)
Theorem run_simulation_shapes (config : SimulationConfig.t) :
  SimulationConfig.valid config ->
  (forall s, SimulationConfig.seed config = Some s -> (0 <= s)%Z) ->
  let n_sims := Z.to_nat (SimulationConfig.num_simulations config) in
  let n_periods := Z.to_nat (SimulationConfig.num_periods config) in
  exists res,
    run_simulation seeded entropy junk_int junk_float config = Ok res /\
    SimulationResult.config res = config /\
    length (SimulationResult.portfolio_values res) = n_sims /\
    Forall (fun row => length row = S n_periods)
           (SimulationResult.portfolio_values res) /\
    length (SimulationResult.period_returns res) = n_sims /\
    Forall (fun row => length row = n_periods) (SimulationResult.period_returns res) /\
    length (SimulationResult.setup_indices res) = n_sims /\
    Forall (fun row => length row = n_periods) (SimulationResult.setup_indices res) /\
    length (SimulationResult.scenario_indices res) = n_sims /\
    Forall (fun row => length row = n_periods) (SimulationResult.scenario_indices res).
Proof.
  intros Hvalid Hseed. cbv zeta.
  destruct (run_simulation_paths Hvalid Hseed) as (res & Hrun & Hshapes & _).
  exists res. split; [exact Hrun | exact Hshapes].
Qed.

(** Without a negative return no path falls. *)
Lemma paths_never_fall (config : SimulationConfig.t) :
  SimulationConfig.valid config ->
  (forall s, SimulationConfig.seed config = Some s -> (0 <= s)%Z) ->
  (forall setup scenario,
      In setup (SimulationConfig.setups config) ->
      In scenario (Setup.scenarios setup) ->
      0 <= Scenario.return_pct scenario) ->
  exists res,
    run_simulation seeded entropy junk_int junk_float config = Ok res /\
    forall i j,
      (i < Z.to_nat (SimulationConfig.num_simulations config))%nat ->
      (j < Z.to_nat (SimulationConfig.num_periods config))%nat ->
      exists v v',
        cell (SimulationResult.portfolio_values res) i j = Some v /\
        cell (SimulationResult.portfolio_values res) i (S j) = Some v' /\
        SimulationConfig.initial_capital config <= v /\
        v <= v'.
Proof.
  intros Hvalid Hseed Hgain.
  destruct (run_simulation_paths Hvalid Hseed) as (res & Hrun & _ & Hpaths).
  exists res. split; [exact Hrun|]. intros i j Hi.
  destruct (Hpaths i Hi) as [Hstart Hstep].
  destruct (SimulationConfig_valid_inv Hvalid) as (_ & _ & _ & _ & Hcap & _).
  induction j as [|j IH]; intros Hj.
  - destruct (Hstep 0%nat Hj)
      as (v & v' & s & setup & scenario & Hv & Hv' & _ & Hsetup & Hsc & _ & Heq).
    exists v, v'. split; [exact Hv|]. split; [exact Hv'|].
    rewrite Hstart in Hv. injection Hv as <-.
    pose proof (@effective_kelly_positive config setup Hvalid (nth_error_In _ _ Hsetup)) as Hk.
    pose proof (Hgain _ _ (nth_error_In _ _ Hsetup) Hsc) as Hr.
    set (k := SimulationConfig.get_effective_kelly config setup) in *.
    set (r := Scenario.return_pct scenario) in *.
    set (c0 := SimulationConfig.initial_capital config) in *.
    assert (Hkr : 0 <= k * r) by (apply Qmult_le_0_compat; lraQ).
    assert (Hckr : 0 <= c0 * (k * r)) by (apply Qmult_le_0_compat; lraQ).
    split; [lraQ|]. rewrite Heq. lraQ.
  - destruct (IH ltac:(lia)) as (u & u' & _ & Hu' & Hcu & Huu').
    destruct (Hstep (S j) Hj)
      as (v & v' & s & setup & scenario & Hv & Hv' & _ & Hsetup & Hsc & _ & Heq).
    rewrite Hu' in Hv. injection Hv as <-.
    exists u', v'. split; [exact Hu'|]. split; [exact Hv'|].
    pose proof (@effective_kelly_positive config setup Hvalid (nth_error_In _ _ Hsetup)) as Hk.
    pose proof (Hgain _ _ (nth_error_In _ _ Hsetup) Hsc) as Hr.
    set (k := SimulationConfig.get_effective_kelly config setup) in *.
    set (r := Scenario.return_pct scenario) in *.
    assert (Hkr : 0 <= k * r) by (apply Qmult_le_0_compat; lraQ).
    assert (Hukr : 0 <= u' * (k * r)) by (apply Qmult_le_0_compat; lraQ).
    split; [lraQ|]. rewrite Heq. lraQ.
Qed.

(** X13.  When no scenario of a constructed configuration has a negative
    return, no path ever falls: each value is at least the initial capital
    and at most the value that follows it. *)
Theorem run_simulation_never_falls_without_losses (config : SimulationConfig.t) :
  SimulationConfig.valid config ->
  (forall s, SimulationConfig.seed config = Some s -> (0 <= s)%Z) ->
  (forall setup scenario,
      In setup (SimulationConfig.setups config) ->
      In scenario (Setup.scenarios setup) ->
      0 <= Scenario.return_pct scenario) ->
  exists res,
    run_simulation seeded entropy junk_int junk_float config = Ok res /\
    forall i j,
      (i < Z.to_nat (SimulationConfig.num_simulations config))%nat ->
      (j < Z.to_nat (SimulationConfig.num_periods config))%nat ->
      exists v v',
        cell (SimulationResult.portfolio_values res) i j = Some v /\
        cell (SimulationResult.portfolio_values res) i (S j) = Some v' /\
        SimulationConfig.initial_capital config <= v /\
        v <= v'.
Proof.
  intros Hvalid Hseed Hgain. exact (paths_never_fall Hvalid Hseed Hgain).
Qed.

End Paths.


Lemma run_simulation_shapes_witness :
  exists res,
    run_simulation (fun _ => Fixtures.constant_stream 0.5) (Fixtures.constant_stream 0.5)
                   (fun _ => 0%nat) (fun _ => 0) Fixtures.two_setup_config = Ok res /\
    SimulationResult.config res = Fixtures.two_setup_config /\
    length (SimulationResult.portfolio_values res) = 1000%nat /\
    Forall (fun row => length row = 51%nat) (SimulationResult.portfolio_values res) /\
    length (SimulationResult.period_returns res) = 1000%nat /\
    Forall (fun row => length row = 50%nat) (SimulationResult.period_returns res) /\
    length (SimulationResult.setup_indices res) = 1000%nat /\
    Forall (fun row => length row = 50%nat) (SimulationResult.setup_indices res) /\
    length (SimulationResult.scenario_indices res) = 1000%nat /\
    Forall (fun row => length row = 50%nat) (SimulationResult.scenario_indices res).
Proof.
  exact (@run_simulation_shapes
           (fun _ => Fixtures.constant_stream 0.5) (Fixtures.constant_stream 0.5)
           (fun _ => 0%nat) (fun _ => 0)
           (fun _ => constant_stream_uniform (u := 0.5) ltac:(lraQ))
           (constant_stream_uniform (u := 0.5) ltac:(lraQ))
           Fixtures.two_setup_config two_setup_config_valid seed_42_non_negative).
Defined.

Lemma always_positive_config_valid : SimulationConfig.valid Fixtures.always_positive_config.
Proof. repeat constructor. Qed.

Lemma always_positive_config_gains (setup : Setup.t) (scenario : Scenario.t) :
  In setup (SimulationConfig.setups Fixtures.always_positive_config) ->
  In scenario (Setup.scenarios setup) ->
  0 <= Scenario.return_pct scenario.
Proof. intros [<-|[]] [<-|[<-|[]]]; cbn; discriminate. Qed.

Lemma run_simulation_never_falls_without_losses_witness :
  exists res,
    run_simulation (fun _ => Fixtures.constant_stream 0.5) (Fixtures.constant_stream 0.5)
                   (fun _ => 0%nat) (fun _ => 0) Fixtures.always_positive_config = Ok res /\
    forall i j,
      (i < Z.to_nat (SimulationConfig.num_simulations Fixtures.always_positive_config))%nat ->
      (j < Z.to_nat (SimulationConfig.num_periods Fixtures.always_positive_config))%nat ->
      exists v v',
        cell (SimulationResult.portfolio_values res) i j = Some v /\
        cell (SimulationResult.portfolio_values res) i (S j) = Some v' /\
        SimulationConfig.initial_capital Fixtures.always_positive_config <= v /\
        v <= v'.
Proof.
  exact (@run_simulation_never_falls_without_losses
           (fun _ => Fixtures.constant_stream 0.5) (Fixtures.constant_stream 0.5)
           (fun _ => 0%nat) (fun _ => 0)
           (fun _ => constant_stream_uniform (u := 0.5) ltac:(lraQ))
           (constant_stream_uniform (u := 0.5) ltac:(lraQ))
           Fixtures.always_positive_config always_positive_config_valid
           seed_42_non_negative always_positive_config_gains).
Defined.

End EngineProps.

(** ** analytics.py: the longest-run helper *)

Module AnalyticsProps.
Import Numpy Analytics.
Local Open Scope Z_scope.

Lemma last_cons (A : Type) (x y : A) (t : list A) :
  last (y :: t) x = last t y.
Proof.
  revert x y; induction t as [|z t IH]; intros x y; [reflexivity|].
  change (last (y :: z :: t) x) with (last (z :: t) x).
  rewrite (IH x z), (IH y z). reflexivity.
Qed.

Lemma getitem_last_cons (A : Type) (x : A) (t : list A) :
  getitem_last (x :: t) = Ok (last t x).
Proof.
  revert x; induction t as [|y t IH]; intros x; [reflexivity|].
  change (getitem_last (x :: y :: t)) with (getitem_last (y :: t)).
  rewrite IH, last_cons. reflexivity.
Qed.

Lemma any_false_iff (row : list bool) :
  any row = false <-> row = repeat false (length row).
Proof.
  induction row as [|b t IH]; simpl; [tauto|].
  destruct b; simpl.
  - split; discriminate.
  - rewrite IH. split; [intros <-; reflexivity | congruence].
Qed.


Lemma starts_from_cons2 i b c t :
  starts_from i (b :: c :: t) =
  (if negb b && c then [i + 1] else []) ++ starts_from (i + 1) (c :: t).
Proof. unfold starts_from; destruct b, c; reflexivity. Qed.

Lemma ends_from_cons2 i b c t :
  ends_from i (b :: c :: t) =
  (if b && negb c then [i + 1] else []) ++ ends_from (i + 1) (c :: t).
Proof. unfold ends_from; destruct b, c; reflexivity. Qed.


Lemma closing_cons i b c t : closing i b (c :: t) = closing (i + 1) c t.
Proof.
  unfold closing.
  rewrite last_cons.
  replace (i + 1 + Z.of_nat (length (c :: t))) with (i + 1 + 1 + Z.of_nat (length t))
    by (simpl length; lia).
  reflexivity.
Qed.

(** Pairing the [k]-th end with the [k]-th start yields the run lengths.
    [s] is the start of the run that is open at column [i] when the cell
    there is True. *)
Lemma pairing (t : list bool) :
  forall (b : bool) (i : Z),
    let ends := ends_from i (b :: t) ++ closing i b t in
    let starts := starts_from i (b :: t) in
    if b then
      forall s, s <= i ->
        length ends = length (s :: starts) /\
        map2 Z.sub ends (s :: starts) = run_lengths_from (i + 1 - s) t
    else
      length ends = length starts /\
      map2 Z.sub ends starts = run_lengths_from 0 t.
Proof.
  induction t as [|c t IH]; intros b i.
  - destruct b; simpl.
    + intros s Hs. split; [reflexivity|].
      unfold closing; simpl.
      destruct (0 <? i + 1 - s) eqn:E; [f_equal; f_equal; lia|].
      apply Z.ltb_ge in E; lia.
    + split; reflexivity.
  - cbv zeta. rewrite ends_from_cons2, starts_from_cons2, closing_cons.
    specialize (IH c (i + 1)). cbv zeta in IH.
    destruct b, c; simpl andb; simpl negb; cbv iota; simpl app.
    + intros s Hs. destruct (IH s ltac:(lia)) as [Hl Hm].
      split; [exact Hl|]. rewrite Hm. simpl.
      f_equal; lia.
    + intros s Hs. destruct IH as [Hl Hm].
      split; [simpl; simpl in Hl; lia|].
      simpl map2. rewrite Hm. simpl run_lengths_from.
      destruct (0 <? i + 1 - s) eqn:E; [reflexivity|].
      apply Z.ltb_ge in E; lia.
    + destruct (IH (i + 1) ltac:(lia)) as [Hl Hm].
      split; [exact Hl|]. rewrite Hm. simpl.
      f_equal; lia.
    + destruct IH as [Hl Hm]. split; [exact Hl|]. rewrite Hm. reflexivity.
Qed.

Lemma row_markers (b : bool) (t : list bool) :
  let row := b :: t in
  let n_cols := Z.of_nat (length row) in
  let starts := if b then [0] ++ starts_from 0 row else starts_from 0 row in
  let ends := if last t b then ends_from 0 row ++ [n_cols] else ends_from 0 row in
  length ends = length starts /\
  map2 Z.sub ends starts = run_lengths_from 0 row.
Proof.
  cbv zeta. pose proof (pairing t b 0) as P. cbv zeta in P.
  assert (E : ends_from 0 (b :: t) ++ closing 0 b t =
              if last t b then ends_from 0 (b :: t) ++ [Z.of_nat (length (b :: t))]
              else ends_from 0 (b :: t)).
  { unfold closing. destruct (last t b).
    - do 2 f_equal. simpl length. lia.
    - apply app_nil_r. }
  rewrite E in P. destruct b.
  - destruct (P 0 ltac:(lia)) as [Hl Hm]. split; [exact Hl | exact Hm].
  - exact P.
Qed.


Lemma fold_max_le (l : list Z) (a : Z) : a <= fold_left Z.max l a.
Proof.
  revert a; induction l as [|x l IH]; intros a; simpl; [lia|].
  specialize (IH (Z.max a x)). lia.
Qed.

Lemma fold_max_max (l : list Z) (a b : Z) :
  fold_left Z.max l (Z.max a b) = Z.max (fold_left Z.max l a) b.
Proof.
  revert a; induction l as [|x l IH]; intros a; simpl; [reflexivity|].
  rewrite <- IH. f_equal. lia.
Qed.

Lemma run_lengths_cover (row : list bool) :
  forall cur, 0 < cur -> cur <= max0 (run_lengths_from cur row).
Proof.
  unfold max0. induction row as [|b t IH]; intros cur Hc; simpl.
  - apply Z.ltb_lt in Hc as ->. simpl. lia.
  - destruct b.
    + specialize (IH (cur + 1) ltac:(lia)). lia.
    + apply Z.ltb_lt in Hc as Hc'. rewrite Hc'. simpl.
      pose proof (fold_max_le (run_lengths_from 0 t) (Z.max 0 cur)). lia.
Qed.

Lemma scan_run_lengths (row : list bool) :
  forall cur best : nat,
    (cur <= best)%nat ->
    Z.of_nat (longest_run_from cur best row) =
    Z.max (Z.of_nat best) (max0 (run_lengths_from (Z.of_nat cur) row)).
Proof.
  unfold max0. induction row as [|b t IH]; intros cur best Hle; simpl.
  - destruct (0 <? Z.of_nat cur); simpl; lia.
  - destruct b.
    + rewrite IH by lia.
      replace (Z.of_nat (S cur)) with (Z.of_nat cur + 1) by lia.
      pose proof (run_lengths_cover t (cur := Z.of_nat cur + 1) ltac:(lia)) as Hc.
      unfold max0 in Hc. lia.
    + rewrite IH by lia. change (Z.of_nat 0) with 0.
      destruct (0 <? Z.of_nat cur) eqn:E; simpl; [|reflexivity].
      replace (Z.max 0 (Z.of_nat cur)) with (Z.max 0 (Z.of_nat cur)) by reflexivity.
      rewrite fold_max_max. lia.
Qed.

Lemma longest_run_max0 (row : list bool) :
  Z.of_nat (longest_run row) = max0 (run_lengths_from 0 row).
Proof.
  unfold longest_run. rewrite scan_run_lengths by lia.
  pose proof (fold_max_le (run_lengths_from 0 row) 0). unfold max0.
  change (Z.of_nat 0) with 0. lia.
Qed.

Lemma run_lengths_pos (row : list bool) :
  forall cur, 0 <= cur -> Forall (fun x => 0 < x) (run_lengths_from cur row).
Proof.
  induction row as [|b t IH]; intros cur Hc; simpl.
  - destruct (0 <? cur) eqn:E; constructor; [apply Z.ltb_lt; exact E | constructor].
  - destruct b; [apply IH; lia|].
    apply Forall_app; split; [|apply IH; lia].
    destruct (0 <? cur) eqn:E; constructor; [apply Z.ltb_lt; exact E | constructor].
Qed.

Lemma longest_run_all_false (n : nat) : longest_run (repeat false n) = 0%nat.
Proof.
  unfold longest_run. induction n as [|n IH]; [reflexivity | exact IH].
Qed.


Lemma finish_correct (starts ends : list Z) :
  length ends = length starts ->
  Forall (fun x => 0 < x) (map2 Z.sub ends starts) ->
  finish starts ends = Ok (max0 (map2 Z.sub ends starts)).
Proof.
  intros Hl Hpos. unfold finish, subtract. rewrite Hl, Nat.eqb_refl.
  destruct starts as [|s0 st], ends as [|e0 et]; try discriminate Hl.
  - reflexivity.
  - simpl. unfold max0. simpl. inversion Hpos; subst.
    do 2 f_equal. lia.
Qed.

(** What the loop body leaves in [result[i]] for a row of [n_cols] cells. *)
Lemma max_consecutive_true_row_correct (row : list bool) :
  max_consecutive_true_row (Z.of_nat (length row)) row =
  Ok (Z.of_nat (longest_run row)).
Proof.
  unfold max_consecutive_true_row.
  destruct (any row) eqn:Hany; cbv beta iota delta [negb].
  2:{ apply any_false_iff in Hany. rewrite Hany, longest_run_all_false. reflexivity. }
  destruct row as [|b t]; [discriminate|].
  change (getitem (b :: t) 0) with (Ok b : result bool).
  rewrite getitem_last_cons. cbv beta iota delta [bind].
  destruct (row_markers b t) as [Hl Hm]. cbv zeta in Hl, Hm.
  change (finish
            (if b then [0] ++ starts_from 0 (b :: t) else starts_from 0 (b :: t))
            (if last t b
             then ends_from 0 (b :: t) ++ [Z.of_nat (length (b :: t))]
             else ends_from 0 (b :: t)) = Ok (Z.of_nat (longest_run (b :: t)))).
  rewrite finish_correct.
  - rewrite Hm, longest_run_max0. reflexivity.
  - exact Hl.
  - rewrite Hm. apply run_lengths_pos. lia.
Qed.

Lemma is_run_nil (i k : nat) : is_run [] i k -> k = 0%nat.
Proof. intros [H _]. simpl in H. lia. Qed.

Lemma is_run_zero (row : list bool) : is_run row 0 0.
Proof. split; [simpl; lia | intros j Hj; lia]. Qed.

Lemma is_run_shift (b : bool) (t : list bool) (i k : nat) :
  is_run (b :: t) (S i) k <-> is_run t i k.
Proof.
  unfold is_run; simpl length. split; intros [Hl Hr]; (split; [lia|]).
  - intros j Hj. apply (Hr (S j)). lia.
  - intros [|j] Hj; [lia|]. apply (Hr j). lia.
Qed.

Lemma is_run_head (b : bool) (t : list bool) (k : nat) :
  is_run (b :: t) 0 (S k) <-> b = true /\ is_run t 0 k.
Proof.
  unfold is_run; simpl length. split.
  - intros [Hl Hr]. split.
    + specialize (Hr 0%nat ltac:(lia)). simpl in Hr. congruence.
    + split; [lia|]. intros j Hj. apply (Hr (S j)). lia.
  - intros [-> [Hl Hr]]. split; [lia|].
    intros [|j] Hj; [reflexivity|]. apply (Hr j). lia.
Qed.

(** No run is longer than what the scan reports. *)
Lemma scan_upper (row : list bool) :
  forall cur best,
    (cur <= best)%nat ->
    (best <= longest_run_from cur best row)%nat /\
    (forall k, is_run row 0 k -> (cur + k <= longest_run_from cur best row)%nat) /\
    (forall i k, is_run row i k -> (k <= longest_run_from cur best row)%nat).
Proof.
  induction row as [|b t IH]; intros cur best Hle.
  - simpl. repeat split; [lia | |]; intros; match goal with
      | H : is_run [] _ _ |- _ => apply is_run_nil in H end; lia.
  - assert (Hstep : exists c' b', (c' <= b')%nat /\ (best <= b')%nat /\
              (b = true -> c' = S cur) /\
              longest_run_from cur best (b :: t) = longest_run_from c' b' t).
    { destruct b; simpl.
      - exists (S cur), (Nat.max best (S cur)). repeat split; lia.
      - exists 0%nat, best. repeat split; try lia; discriminate. }
    destruct Hstep as (c' & b' & Hc & Hb & Htrue & ->).
    destruct (IH c' b' Hc) as (H1 & H2 & H3).
    assert (Hzero : forall k, is_run (b :: t) 0 k ->
              (cur + k <= longest_run_from c' b' t)%nat).
    { intros [|k] Hk; [lia|].
      apply is_run_head in Hk as [-> Hk]. specialize (H2 k Hk).
      pose proof (Htrue eq_refl) as E. rewrite E in *. lia. }
    repeat split; [lia | exact Hzero |].
    intros [|i] k Hk.
    + specialize (Hzero k Hk). lia.
    + apply is_run_shift in Hk. exact (H3 i k Hk).
Qed.

(** What the scan reports is the length of an actual run. *)
Lemma scan_attained (row : list bool) :
  forall cur best,
    let r := longest_run_from cur best row in
    r = best \/
    (exists k, is_run row 0 k /\ r = (cur + k)%nat) \/
    (exists i, is_run row i r).
Proof.
  induction row as [|b t IH]; intros cur best; cbv zeta.
  - left; reflexivity.
  - destruct b; simpl.
    + pose proof (IH (S cur) (Nat.max best (S cur))) as IH'. cbv zeta in IH'.
      set (r := longest_run_from (S cur) (Nat.max best (S cur)) t) in *.
      destruct IH' as [H | [(k & Hk & H) | (i & Hi)]].
      * destruct (Nat.max_spec best (S cur)) as [[_ E] | [_ E]]; rewrite E in H.
        -- right; left. exists 1%nat. split; [|lia].
           apply is_run_head. split; [reflexivity | apply is_run_zero].
        -- left; exact H.
      * right; left. exists (S k). split; [|lia].
        apply is_run_head. split; [reflexivity | exact Hk].
      * right; right. exists (S i). apply is_run_shift. exact Hi.
    + pose proof (IH 0%nat best) as IH'. cbv zeta in IH'.
      set (r := longest_run_from 0 best t) in *.
      destruct IH' as [H | [(k & Hk & H) | (i & Hi)]].
      * left; exact H.
      * right; right. exists 1%nat. apply is_run_shift. simpl in H. rewrite H. exact Hk.
      * right; right. exists (S i). apply is_run_shift. exact Hi.
Qed.

Lemma longest_run_spec (row : list bool) : longest_true_run row (longest_run row).
Proof.
  unfold longest_true_run, longest_run. split.
  - destruct (scan_attained row 0 0) as [H | [(k & Hk & H) | Hi]].
    + rewrite H. exists 0%nat. apply is_run_zero.
    + rewrite H. exists 0%nat. exact Hk.
    + exact Hi.
  - intros i k Hk. destruct (scan_upper row (cur := 0) (best := 0)) as (_ & _ & H); [lia|].
    exact (H i k Hk).
Qed.

Lemma longest_run_all_true (n : nat) : longest_run (repeat true n) = n.
Proof.
  destruct (longest_run_spec (repeat true n)) as [[i [Hl _]] Hu].
  rewrite repeat_length in Hl.
  assert (is_run (repeat true n) 0 n) as Hn.
  { split; [rewrite repeat_length; lia|]. intros j Hj.
    rewrite nth_error_repeat by lia. reflexivity. }
  specialize (Hu _ _ Hn). lia.
Qed.

Lemma sequence_map_ok (A B : Type) (f : A -> result B) (g : A -> B) (l : list A) :
  Forall (fun a => f a = Ok (g a)) l ->
  sequence (map f l) = Ok (map g l).
Proof.
  induction 1 as [|a l Ha _ IH]; simpl; [reflexivity|].
  rewrite Ha, IH. reflexivity.
Qed.

(** C9.  For every 2-D boolean array of shape [(n_rows, n_cols)],
    [_max_consecutive_true] raises nothing and returns, row by row, the
    length of the longest unbroken run of True cells: some run of the row
    has that length (wherever it lies, the first and the last column
    included) and no run of the row is longer.  An all-False row gives 0,
    an all-True row gives [n_cols], a run that starts in the first column
    or ends in the last one is counted in full, and the row [T,T,F,T,T,T]
    gives 3. *)
Theorem max_consecutive_true_longest_run (n_cols : nat) (arr : list (list bool)) :
  Forall (fun row => length row = n_cols) arr ->
  (exists res,
      _max_consecutive_true (Z.of_nat n_cols) arr = Ok res /\
      Forall2 (fun row r =>
                 (exists L, r = Z.of_nat L /\ longest_true_run row L) /\
                 (row = repeat false n_cols -> r = 0) /\
                 (row = repeat true n_cols -> r = Z.of_nat n_cols) /\
                 (forall k, is_run row 0 k -> Z.of_nat k <= r) /\
                 (forall k, is_run row (n_cols - k) k -> Z.of_nat k <= r))
              arr res) /\
  _max_consecutive_true 6 [[true; true; false; true; true; true]] = Ok [3].
Proof.
  intros Hshape. split; [|reflexivity].
  exists (map (fun row => Z.of_nat (longest_run row)) arr). split.
  - unfold _max_consecutive_true. apply sequence_map_ok.
    eapply Forall_impl; [|exact Hshape].
    intros row <-. apply max_consecutive_true_row_correct.
  - clear Hshape. induction arr as [|row arr IH]; constructor; [|exact IH].
    pose proof (longest_run_spec row) as Hspec.
    split; [|split; [|split; [|split]]].
    + exists (longest_run row). split; [reflexivity | exact Hspec].
    + intros ->. rewrite longest_run_all_false. reflexivity.
    + intros ->. rewrite longest_run_all_true. reflexivity.
    + intros k Hk. apply Nat2Z.inj_le. exact (proj2 Hspec _ _ Hk).
    + intros k Hk. apply Nat2Z.inj_le. exact (proj2 Hspec _ _ Hk).
Qed.

Lemma max_consecutive_true_longest_run_witness :
  (exists res,
      _max_consecutive_true 5 [[true; true; true; false; true];
                               [false; true; true; true; true]] = Ok res /\
      Forall2 (fun row r =>
                 (exists L, r = Z.of_nat L /\ longest_true_run row L) /\
                 (row = repeat false 5 -> r = 0) /\
                 (row = repeat true 5 -> r = 5) /\
                 (forall k, is_run row 0 k -> Z.of_nat k <= r) /\
                 (forall k, is_run row (5 - k) k -> Z.of_nat k <= r))
              [[true; true; true; false; true]; [false; true; true; true; true]] res) /\
  _max_consecutive_true 6 [[true; true; false; true; true; true]] = Ok [3].
Proof.
  apply (@max_consecutive_true_longest_run 5
           [[true; true; true; false; true]; [false; true; true; true; true]]).
  repeat constructor.
Defined.

End AnalyticsProps.

(** ** analytics.py: the report *)

Module ReportProps.
Import Numpy Models Analytics ModelsProps NumpyProps KellyProps EngineProps AnalyticsProps.
Local Open Scope Q_scope.

(** *** Means of finite doubles *)

Lemma fold_fadd_finite (l : list Q) :
  forall acc, fold_left fadd (map finite l) (finite acc) = finite (fold_left Qplus l acc).
Proof. induction l as [|v l IH]; intros acc; cbn [map fold_left fadd]; [reflexivity | apply IH]. Qed.

Lemma count_positive (n : nat) : (0 < n)%nat -> 0 < inject_Z (Z.of_nat n).
Proof.
  intros Hn. change 0 with (inject_Z 0). rewrite <- Zlt_Qlt. lia.
Qed.

Lemma true_divide_count (s : Q) (n : nat) :
  (0 < n)%nat ->
  true_divide s (inject_Z (Z.of_nat n)) = finite (s / inject_Z (Z.of_nat n)).
Proof.
  intros Hn. unfold true_divide.
  destruct (Qeq_bool (inject_Z (Z.of_nat n)) 0) eqn:E; [|reflexivity].
  apply Qeq_bool_iff in E. pose proof (count_positive Hn). lraQ.
Qed.

Lemma mean_finite (l : list Q) :
  l <> [] ->
  mean (map finite l) = finite (sum l / inject_Z (Z.of_nat (length l))).
Proof.
  intros Hne. unfold mean, sum. rewrite fold_fadd_finite, length_map. cbn [divide].
  apply true_divide_count. destruct l; [congruence | simpl; lia].
Qed.

Lemma fold_Qplus_bounds (lo hi : Q) (l : list Q) :
  Forall (fun v => lo <= v <= hi) l ->
  forall acc,
    acc + inject_Z (Z.of_nat (length l)) * lo <= fold_left Qplus l acc
    /\ fold_left Qplus l acc <= acc + inject_Z (Z.of_nat (length l)) * hi.
Proof.
  induction 1 as [|v l [Hlo Hhi] _ IH]; intros acc.
  - cbn [length fold_left]. change (inject_Z (Z.of_nat 0)) with 0. split; lraQ.
  - cbn [fold_left]. destruct (IH (acc + v)) as [H1 H2].
    assert (Hn : inject_Z (Z.of_nat (length (v :: l)))
                 == inject_Z (Z.of_nat (length l)) + 1).
    { cbn [length]. rewrite Nat2Z.inj_succ, <- Z.add_1_r, inject_Z_plus. reflexivity. }
    rewrite Hn. split; nraQ.
Qed.

(** The mean of a non-empty array of finite doubles lies between any two
    bounds of its elements. *)
Lemma mean_between (lo hi : Q) (l : list Q) :
  l <> [] ->
  Forall (fun v => lo <= v <= hi) l ->
  exists m, mean (map finite l) = finite m /\ lo <= m <= hi.
Proof.
  intros Hne Hall. rewrite (mean_finite Hne). eexists. split; [reflexivity|].
  destruct (fold_Qplus_bounds Hall 0) as [H1 H2]. fold (sum l) in H1, H2.
  assert (Hn : 0 < inject_Z (Z.of_nat (length l))).
  { apply count_positive. destruct l; [congruence | simpl; lia]. }
  set (n := inject_Z (Z.of_nat (length l))) in *.
  split.
  - apply Qle_shift_div_l; [exact Hn | lraQ].
  - apply Qle_shift_div_r; [exact Hn | lraQ].
Qed.

(** *** Minima of finite doubles *)

Lemma fold_minimum_finite (t : list Q) :
  forall v,
    fold_left minimum (map finite t) (finite v)
    = finite (fold_left (fun m y => if Qltb y m then y else m) t v).
Proof.
  induction t as [|y t IH]; intros v; cbn [map fold_left]; [reflexivity|].
  unfold minimum at 2. cbn [isnan float_ltb].
  destruct (Qltb y v); apply IH.
Qed.

Lemma amin_finite (l : list Q) :
  l <> [] ->
  exists m, amin (map finite l) = Ok (finite m) /\ In m l /\ forall y, In y l -> m <= y.
Proof.
  destruct l as [|v t]; [congruence|]. intros _.
  cbn [map amin]. rewrite fold_minimum_finite.
  eexists. split; [reflexivity|]. apply min_spec. reflexivity.
Qed.

(** *** Shapes *)

(** A matrix of [n_cols] columns. *)
Lemma last_column_ok (n_cols : nat) (pv : list (list Q)) :
  pv <> [] ->
  Forall (fun row => length row = S n_cols) pv ->
  exists terminal,
    last_column pv = Ok terminal /\
    length terminal = length pv /\
    Forall2 (fun row t => exists front, row = front ++ [t]) pv terminal.
Proof.
  intros Hne Hrows. unfold last_column.
  replace (shape_1 pv =? 0)%nat with false.
  2:{ symmetry. apply Nat.eqb_neq. destruct pv as [|row pv]; [congruence|].
      inversion Hrows; subst. cbn [shape_1]. lia. }
  clear Hne. induction Hrows as [|row pv Hrow _ IH].
  - exists []. repeat split. constructor.
  - destruct IH as (terminal & Hseq & Hlen & Hall).
    destruct (exists_last (l := row)) as (front & t & ->).
    { destruct row; [discriminate | discriminate]. }
    exists (t :: terminal). cbn [map sequence]. rewrite Hseq.
    assert (Hlast : getitem_last (front ++ [t]) = Ok t).
    { destruct front as [|a front]; [reflexivity|].
      cbn [app]. rewrite getitem_last_cons. f_equal. apply last_last. }
    rewrite Hlast. cbn [bind]. split; [reflexivity|]. split; [simpl; lia|].
    constructor; [exists front; reflexivity | exact Hall].
Qed.

Lemma last_column_inv (pv : list (list Q)) (terminal : list Q) :
  last_column pv = Ok terminal -> pv <> [] /\ terminal <> [] /\ shape_1 pv <> 0%nat.
Proof.
  unfold last_column. destruct (shape_1 pv =? 0)%nat eqn:E; [discriminate|].
  apply Nat.eqb_neq in E. intros H.
  destruct pv as [|row pv]; [cbn in E; congruence|].
  split; [discriminate|]. split; [|exact E].
  cbn [map sequence] in H. destruct (getitem_last row); [|discriminate].
  cbn [bind] in H. destruct (sequence _); [|discriminate].
  cbn [bind] in H. injection H as <-. discriminate.
Qed.

Lemma sequence_ok_inv (A B : Type) (f : A -> result B) (l : list A) :
  forall r, sequence (map f l) = Ok r -> Forall2 (fun a b => f a = Ok b) l r.
Proof.
  induction l as [|a l IH]; intros r H; cbn [map sequence] in H.
  - injection H as <-. constructor.
  - destruct (f a) as [b|e] eqn:Ea; [|discriminate]. cbn [bind] in H.
    destruct (sequence (map f l)) as [r'|e]; [|discriminate]. cbn [bind] in H.
    injection H as <-. constructor; [exact Ea | apply IH; reflexivity].
Qed.



Lemma fold_Qplus_pointwise (A : Type) (f g : A -> Q) (l : list A) :
  (forall a, In a l -> f a <= g a) ->
  forall acc acc', acc <= acc' ->
    fold_left Qplus (map f l) acc <= fold_left Qplus (map g l) acc'.
Proof.
  induction l as [|a l IH]; intros Hfg acc acc' Hacc; cbn [map fold_left]; [exact Hacc|].
  apply IH.
  - intros b Hb. apply Hfg. right. exact Hb.
  - pose proof (Hfg a (or_introl eq_refl)). lraQ.
Qed.

(** The share of the cells of an array that pass a test, as [np.mean]
    computes it from the boolean array: it lies in [[0, 1]] and grows with
    the test. *)
Lemma share_monotone (A : Type) (p q : A -> bool) (l : list A) :
  l <> [] ->
  (forall a, In a l -> p a = true -> q a = true) ->
  exists sp sq,
    mean (map (fun a => of_bool (p a)) l) = finite sp /\
    mean (map (fun a => of_bool (q a)) l) = finite sq /\
    0 <= sp /\ sp <= sq /\ sq <= 1.
Proof.
  intros Hne Himp.
  set (ip := fun a => if p a then 1 else 0 : Q).
  set (iq := fun a => if q a then 1 else 0 : Q).
  assert (Hp : map (fun a => of_bool (p a)) l = map finite (map ip l))
    by (rewrite map_map; reflexivity).
  assert (Hq : map (fun a => of_bool (q a)) l = map finite (map iq l))
    by (rewrite map_map; reflexivity).
  assert (Hnp : map ip l <> []) by (destruct l; [congruence | discriminate]).
  assert (Hnq : map iq l <> []) by (destruct l; [congruence | discriminate]).
  rewrite Hp, Hq, (mean_finite Hnp), (mean_finite Hnq), !length_map.
  do 2 eexists. split; [reflexivity|]. split; [reflexivity|].
  assert (Hn : 0 < inject_Z (Z.of_nat (length l))).
  { apply count_positive. destruct l; [congruence | simpl; lia]. }
  set (n := inject_Z (Z.of_nat (length l))) in *.
  assert (H01 : forall f : A -> bool,
            Forall (fun v => 0 <= v <= 1) (map (fun a => if f a then 1 else 0 : Q) l)).
  { intros f. rewrite Forall_map. apply Forall_forall. intros a _.
    destruct (f a); split; lraQ. }
  destruct (fold_Qplus_bounds (H01 p) 0) as [Hp0 _].
  destruct (fold_Qplus_bounds (H01 q) 0) as [_ Hq1].
  rewrite length_map in Hp0, Hq1. fold ip in Hp0. fold iq in Hq1. fold n in Hp0, Hq1.
  assert (Hpq : fold_left Qplus (map ip l) 0 <= fold_left Qplus (map iq l) 0).
  { apply fold_Qplus_pointwise; [|lraQ]. intros a Ha. unfold ip, iq.
    destruct (p a) eqn:Ep; [rewrite (Himp a Ha Ep); lraQ|]. destruct (q a); lraQ. }
  unfold sum. split; [|split].
  - apply Qle_shift_div_l; [exact Hn | lraQ].
  - apply Qle_shift_div_r; [exact Hn|].
    assert (Hdiv : fold_left Qplus (map iq l) 0 / n * n == fold_left Qplus (map iq l) 0).
    { field. lraQ. }
    rewrite Hdiv. exact Hpq.
  - apply Qle_shift_div_r; [exact Hn | lraQ].
Qed.



(** The names the solver reports. *)
Lemma compute_kelly_fraction_name (format_pct0 format_pct1 : Q -> string)
      (minimize_scalar : Kelly.minimizer) (setup : Setup.t) (info : KellyInfo.t) :
  Kelly.compute_kelly_fraction format_pct0 format_pct1 minimize_scalar setup = Ok info ->
  KellyInfo.setup_name info = Setup.name setup.
Proof.
  unfold Kelly.compute_kelly_fraction.
  destruct (Qle_bool _ 0); [intros [= <-]; reflexivity|].
  destruct (min _); [|discriminate]. cbn [bind].
  destruct (minimize_scalar _ _); [|discriminate]. cbn [bind].
  intros [= <-]. reflexivity.
Qed.

(** Stepping through the calls of [compute_analytics] that returned. *)
Ltac analytics_inv H :=
  unfold compute_analytics in H;
  repeat match type of H with
    | and_then (call ?m) _ = Return _ =>
        let E := fresh "Ecall" in
        destruct m eqn:E; cbn [call and_then] in H; [|discriminate H]
    | and_then (if ?c then _ else _) _ = Return _ =>
        let E := fresh "Eperiods" in
        destruct c eqn:E; cbn [and_then] in H; [discriminate H|]
    end;
  injection H as H.

(** *** The calls of [compute_analytics] on a matrix with periods *)

Lemma sequence_total (A B : Type) (f : A -> result B) (l : list A) :
  Forall (fun a => exists b, f a = Ok b) l ->
  exists r, sequence (map f l) = Ok r /\ length r = length l.
Proof.
  induction 1 as [|a l [b Hb] _ (r & Hr & Hlen)].
  - exists []. split; reflexivity.
  - exists (b :: r). cbn [map sequence]. rewrite Hb, Hr. cbn [bind length].
    split; [reflexivity | lia].
Qed.

Lemma map2_map_r (A B C : Type) (g : A -> B -> C) (h : A -> B) (l : list A) :
  map2 g l (map h l) = map (fun a => g a (h a)) l.
Proof. induction l as [|a l IH]; [reflexivity|]. cbn [map map2]. rewrite IH. reflexivity. Qed.

Lemma maximum_accumulate_from_length (a : list Q) :
  forall m, length (maximum_accumulate_from m a) = length a.
Proof. induction a as [|v a IH]; intros m; [reflexivity|]. cbn. rewrite IH. reflexivity. Qed.

Lemma maximum_accumulate_length (a : list Q) : length (maximum_accumulate a) = length a.
Proof.
  destruct a as [|v a]; [reflexivity|]. cbn. rewrite maximum_accumulate_from_length.
  reflexivity.
Qed.

Lemma drawdown_row_length (row : list Q) :
  length (map2 (fun v m => true_divide (v - m) m) row (maximum_accumulate row))
  = length row.
Proof. apply map2_length. rewrite maximum_accumulate_length. reflexivity. Qed.

Section Returns.
Variables format_pct0 format_pct1 : Q -> string.
Variable minimize_scalar : Kelly.minimizer.
Variables np_sqrt np_log : float64 -> float64.
Variable np_power : float64 -> float64 -> float64.
Hypothesis minimize_scalar_bounded : Kelly.bounded_method minimize_scalar.

(** On a matrix with rows and at least two columns, and setups that are
    all constructed, every call of [compute_analytics] returns. *)
Lemma compute_analytics_returns (result : SimulationResult.t) (n_periods : nat) :
  SimulationResult.portfolio_values result <> [] ->
  Forall (fun row => length row = S (S n_periods))
         (SimulationResult.portfolio_values result) ->
  Forall Setup.valid (SimulationConfig.setups (SimulationResult.config result)) ->
  exists report,
    compute_analytics format_pct0 format_pct1 minimize_scalar np_sqrt np_log np_power
                      result = Return report.
Proof.
  intros Hne Hrows Hsetups. unfold compute_analytics.
  set (pv := SimulationResult.portfolio_values result) in *.
  assert (Hshape : shape_1 pv = S (S n_periods)).
  { destruct pv as [|row rest]; [congruence|]. inversion Hrows; subst. assumption. }
  destruct (@last_column_ok (S n_periods) pv Hne Hrows) as (terminal & -> & _).
  cbn [call and_then]. rewrite Hshape.
  replace (Z.of_nat (S (S n_periods)) - 1 =? 0)%Z with false
    by (symmetry; apply Z.eqb_neq; lia).
  cbn [and_then]. rewrite map2_map_r.
  set (dd := fun row => map2 (fun v m => true_divide (v - m) m) row
                             (maximum_accumulate row)).
  destruct (@sequence_total _ _ amin (map dd pv)) as (mdd & Hmdd & Hlen).
  { rewrite Forall_map. eapply Forall_impl; [|exact Hrows]. intros row Hrow.
    destruct (dd row) as [|d ds] eqn:E.
    - apply (f_equal (@length float64)) in E. unfold dd in E.
      rewrite drawdown_row_length, Hrow in E. discriminate.
    - eexists. reflexivity. }
  rewrite Hmdd. cbn [call and_then].
  assert (Hdur : exists durations,
            _max_consecutive_true (Z.of_nat (S (S n_periods)))
              (map (map (fun d => float_ltb d (finite (-0.0000000001)))) (map dd pv))
            = Ok durations).
  { exists (map (fun row => Z.of_nat (longest_run row))
                (map (map (fun d => float_ltb d (finite (-0.0000000001)))) (map dd pv))).
    unfold _max_consecutive_true. apply sequence_map_ok.
    rewrite !Forall_map. eapply Forall_impl; [|exact Hrows]. intros row Hrow.
    cbv beta. rewrite <- Hrow at 1. unfold dd.
    rewrite <- (drawdown_row_length row) at 1.
    rewrite <- (length_map (fun d => float_ltb d (finite (-0.0000000001)))).
    apply max_consecutive_true_row_correct. }
  destruct Hdur as (durations & ->). cbn [call and_then].
  destruct (@sequence_total _ _
              (Kelly.compute_kelly_fraction format_pct0 format_pct1 minimize_scalar)
              (SimulationConfig.setups (SimulationResult.config result)))
    as (kelly_info & -> & _).
  { eapply Forall_impl; [|exact Hsetups]. intros setup Hvalid.
    destruct (compute_kelly_fraction_cases format_pct0 format_pct1
                minimize_scalar_bounded Hvalid) as (info & Hrun & _).
    exists info. exact Hrun. }
  cbn [call and_then].
  destruct mdd as [|m mdd].
  { rewrite length_map in Hlen. destruct pv; [congruence | discriminate]. }
  cbn [amin call and_then]. eexists. reflexivity.
Qed.

End Returns.

Section WithLibraries.
Variables format_pct0 format_pct1 : Q -> string.
Variable minimize_scalar : Kelly.minimizer.
Variables np_sqrt np_log : float64 -> float64.
Variable np_power : float64 -> float64 -> float64.

(** X14.  [compute_analytics] needs at least one period.  On a result
    whose portfolio matrix has rows but no column, reading the terminal
    column raises IndexError; on one with a single column (the initial
    capital alone, zero periods) the exponent [1.0 / n_periods] raises
    ZeroDivisionError, whatever else the result holds. *)
Theorem compute_analytics_needs_a_period (result : SimulationResult.t) (n_cols : nat) :
  SimulationResult.portfolio_values result <> [] ->
  Forall (fun row => length row = n_cols) (SimulationResult.portfolio_values result) ->
  (n_cols = 0%nat ->
   compute_analytics format_pct0 format_pct1 minimize_scalar np_sqrt np_log np_power result
   = Throw (Exception IndexError)) /\
  (n_cols = 1%nat ->
   compute_analytics format_pct0 format_pct1 minimize_scalar np_sqrt np_log np_power result
   = Throw ZeroDivisionError).
Proof.
  intros Hne Hrows. unfold compute_analytics.
  set (pv := SimulationResult.portfolio_values result) in *.
  assert (Hshape : shape_1 pv = n_cols).
  { destruct pv as [|row rest]; [congruence|]. inversion Hrows; subst. reflexivity. }
  split; intros ->.
  - unfold last_column. rewrite Hshape. reflexivity.
  - destruct (@last_column_ok 0%nat pv Hne Hrows) as (terminal & -> & _).
    cbn [call and_then]. rewrite Hshape. reflexivity.
Qed.

(** X15.  When [compute_analytics] returns, the report holds one
    [KellyInfo] per setup of the configuration, in the order of the setups:
    the one [compute_kelly_fraction] returns for that setup, carrying the
    setup's name. *)
Theorem compute_analytics_kelly_info (result : SimulationResult.t)
        (report : AnalyticsReport.t) :
  compute_analytics format_pct0 format_pct1 minimize_scalar np_sqrt np_log np_power result
  = Return report ->
  Forall2 (fun setup info =>
             Kelly.compute_kelly_fraction format_pct0 format_pct1 minimize_scalar setup
             = Ok info /\
             KellyInfo.setup_name info = Setup.name setup)
          (SimulationConfig.setups (SimulationResult.config result))
          (AnalyticsReport.kelly_info report).
Proof.
  intros H. analytics_inv H. subst report. cbn [AnalyticsReport.kelly_info].
  match goal with
  | E : sequence (map (Kelly.compute_kelly_fraction _ _ _) _) = Ok _ |- _ =>
      apply sequence_ok_inv in E; induction E as [|setup info ? ? Hrun _ IH]
  end; constructor; try assumption.
  split; [exact Hrun | exact (compute_kelly_fraction_name _ _ _ _ Hrun)].
Qed.

(** X16.  When [compute_analytics] returns on a result whose initial
    capital is positive, the two probabilities it reports are finite
    numbers of [[0, 1]] and ruin (terminal wealth below a tenth of the
    initial capital) is never reported as more likely than loss (terminal
    wealth below the initial capital). *)
Theorem ruin_no_likelier_than_loss (result : SimulationResult.t)
        (report : AnalyticsReport.t) :
  compute_analytics format_pct0 format_pct1 minimize_scalar np_sqrt np_log np_power result
  = Return report ->
  0 < SimulationConfig.initial_capital (SimulationResult.config result) ->
  exists ruin loss,
    AnalyticsReport.probability_of_ruin report = finite ruin /\
    AnalyticsReport.probability_of_loss report = finite loss /\
    0 <= ruin /\ ruin <= loss /\ loss <= 1.
Proof.
  intros H Hcap. analytics_inv H. subst report.
  cbn [AnalyticsReport.probability_of_ruin AnalyticsReport.probability_of_loss].
  match goal with
  | E : last_column _ = Ok ?terminal |- _ =>
      destruct (last_column_inv _ E) as (_ & Hne & _);
      apply (@share_monotone Q _ _ terminal Hne)
  end.
  intros t _ Ht. apply Qltb_lt in Ht. apply Qltb_lt.
  set (c := SimulationConfig.initial_capital (SimulationResult.config result)) in *.
  lraQ.
Qed.


End WithLibraries.

Lemma three_paths_report :
  exists report,
    compute_analytics Fixtures.no_format Fixtures.no_format (Kelly.nearest_point 4)
                      Fixtures.unary Fixtures.unary Fixtures.binary Fixtures.three_paths
    = Return report.
Proof.
  apply (@compute_analytics_returns Fixtures.no_format Fixtures.no_format
           (Kelly.nearest_point 4) Fixtures.unary Fixtures.unary Fixtures.binary
           (nearest_point_bounded 4) Fixtures.three_paths 2%nat).
  - discriminate.
  - repeat constructor.
  - apply two_setup_config_valid.
Qed.

Lemma compute_analytics_needs_a_period_witness :
  (1%nat = 0%nat ->
   compute_analytics Fixtures.no_format Fixtures.no_format (Kelly.nearest_point 4)
                     Fixtures.unary Fixtures.unary Fixtures.binary Fixtures.no_period
   = Throw (Exception IndexError)) /\
  (1%nat = 1%nat ->
   compute_analytics Fixtures.no_format Fixtures.no_format (Kelly.nearest_point 4)
                     Fixtures.unary Fixtures.unary Fixtures.binary Fixtures.no_period
   = Throw ZeroDivisionError).
Proof.
  apply (@compute_analytics_needs_a_period Fixtures.no_format Fixtures.no_format
           (Kelly.nearest_point 4) Fixtures.unary Fixtures.unary Fixtures.binary
           Fixtures.no_period 1%nat).
  - discriminate.
  - repeat constructor.
Defined.

Lemma compute_analytics_kelly_info_witness :
  exists report,
    compute_analytics Fixtures.no_format Fixtures.no_format (Kelly.nearest_point 4)
                      Fixtures.unary Fixtures.unary Fixtures.binary Fixtures.three_paths
    = Return report /\
    Forall2 (fun setup info =>
               Kelly.compute_kelly_fraction Fixtures.no_format Fixtures.no_format
                                            (Kelly.nearest_point 4) setup = Ok info /\
               KellyInfo.setup_name info = Setup.name setup)
            (SimulationConfig.setups (SimulationResult.config Fixtures.three_paths))
            (AnalyticsReport.kelly_info report).
Proof.
  destruct three_paths_report as (report & Hreport). exists report.
  split; [exact Hreport|].
  exact (@compute_analytics_kelly_info Fixtures.no_format Fixtures.no_format
           (Kelly.nearest_point 4) Fixtures.unary Fixtures.unary Fixtures.binary
           Fixtures.three_paths report Hreport).
Defined.

Lemma ruin_no_likelier_than_loss_witness :
  exists report,
    compute_analytics Fixtures.no_format Fixtures.no_format (Kelly.nearest_point 4)
                      Fixtures.unary Fixtures.unary Fixtures.binary Fixtures.three_paths
    = Return report /\
    exists ruin loss,
      AnalyticsReport.probability_of_ruin report = finite ruin /\
      AnalyticsReport.probability_of_loss report = finite loss /\
      0 <= ruin /\ ruin <= loss /\ loss <= 1.
Proof.
  destruct three_paths_report as (report & Hreport). exists report.
  split; [exact Hreport|].
  apply (@ruin_no_likelier_than_loss Fixtures.no_format Fixtures.no_format
           (Kelly.nearest_point 4) Fixtures.unary Fixtures.unary Fixtures.binary
           Fixtures.three_paths report Hreport).
  reflexivity.
Defined.


(** *** Sorting *)









(** *** Drawdowns of a path that starts above zero *)

Lemma drawdown_cell (v m : Q) :
  0 < m -> v <= m ->
  true_divide (v - m) m = finite ((v - m) / m) /\
  (v - m) / m <= 0 /\
  (0 < v -> -1 < (v - m) / m) /\
  (v == m -> (v - m) / m == 0).
Proof.
  intros Hm Hv. unfold true_divide.
  replace (Qeq_bool m 0) with false.
  2:{ symmetry. destruct (Qeq_bool m 0) eqn:E; [|reflexivity].
      apply Qeq_bool_iff in E. lraQ. }
  split; [reflexivity|]. split; [|split].
  - apply Qle_shift_div_r; [exact Hm | lraQ].
  - intros H0. apply Qlt_shift_div_l; [exact Hm | lraQ].
  - intros E. rewrite E. unfold Qdiv. setoid_replace (m - m) with 0 by ring. ring.
Qed.

Lemma drawdown_from (t : list Q) :
  forall m,
    0 < m ->
    exists ds,
      map2 (fun v m => true_divide (v - m) m) t (maximum_accumulate_from m t)
      = map finite ds /\
      length ds = length t /\
      Forall (fun d => d <= 0) ds /\
      (Forall (fun v => 0 < v) t -> Forall (fun d => -1 < d) ds) /\
      ((forall j v v', nth_error (m :: t) j = Some v ->
                       nth_error (m :: t) (S j) = Some v' -> v <= v') ->
       Forall (fun d => d == 0) ds).
Proof.
  induction t as [|v t IH]; intros m Hm.
  - exists []. repeat split; constructor.
  - cbn [maximum_accumulate_from map2].
    set (m' := if Qltb m v then v else m).
    assert (Hm' : 0 < m' /\ v <= m' /\ m <= m').
    { unfold m'. destruct (Qltb m v) eqn:E.
      - apply Qltb_lt in E. repeat split; lraQ.
      - apply Qltb_ge in E. repeat split; lraQ. }
    destruct Hm' as (Hpos & Hvm & Hmm).
    destruct (IH m' Hpos) as (ds & Hds & Hlen & Hle & Hgt & Hflat).
    destruct (drawdown_cell Hpos Hvm) as (Hcell & Hd0 & Hd1 & Hdz).
    exists ((v - m') / m' :: ds). rewrite Hcell, Hds.
    split; [reflexivity|]. split; [simpl; lia|]. split; [constructor; assumption|].
    split.
    + intros Hall. inversion Hall; subst. constructor; [apply Hd1; assumption|].
      apply Hgt. assumption.
    + intros Hstep.
      assert (Hmv : m <= v) by (apply (Hstep 0%nat); reflexivity).
      assert (Hvm' : v == m').
      { unfold m'. destruct (Qltb m v) eqn:E; [reflexivity|].
        apply Qltb_ge in E. lraQ. }
      constructor; [apply Hdz; exact Hvm'|]. apply Hflat.
      intros [|j] a b Ha Hb.
      * injection Ha as <-. rewrite <- Hvm'.
        apply (Hstep 1%nat); [reflexivity | exact Hb].
      * apply (Hstep (S (S j))); [exact Ha | exact Hb].
Qed.

(** The drawdowns of one path: finite, never positive, zero in the first
    period; above -1 when the path stays positive; zero throughout when the
    path never falls. *)
Lemma drawdown_row (v : Q) (t : list Q) :
  0 < v ->
  exists d0 ds,
    map2 (fun v m => true_divide (v - m) m) (v :: t) (maximum_accumulate (v :: t))
    = map finite (d0 :: ds) /\
    d0 == 0 /\
    length ds = length t /\
    Forall (fun d => d <= 0) ds /\
    (Forall (fun v => 0 < v) t -> Forall (fun d => -1 < d) ds) /\
    ((forall j a b, nth_error (v :: t) j = Some a ->
                    nth_error (v :: t) (S j) = Some b -> a <= b) ->
     Forall (fun d => d == 0) ds).
Proof.
  intros Hv. destruct (drawdown_from t Hv) as (ds & Hds & Hlen & Hle & Hgt & Hflat).
  destruct (@drawdown_cell v v Hv ltac:(lraQ)) as (Hcell & _ & _ & Hz).
  exists ((v - v) / v), ds. cbn [maximum_accumulate map2]. rewrite Hcell, Hds.
  split; [reflexivity|]. split; [apply Hz; reflexivity|].
  repeat split; assumption.
Qed.

Lemma drawdown_matrix (pv : list (list Q)) :
  Forall starts_positive pv ->
  exists dds,
    map (fun row => map2 (fun v m => true_divide (v - m) m) row (maximum_accumulate row)) pv
    = map (map finite) dds /\
    Forall2 (fun row ds =>
               length ds = length row /\
               Forall (fun d => d <= 0) ds /\
               (exists d0 rest, ds = d0 :: rest /\ d0 == 0) /\
               (Forall (fun v => 0 < v) row -> Forall (fun d => -1 < d) ds) /\
               (never_falls row -> Forall (fun d => d == 0) ds))
            pv dds.
Proof.
  induction 1 as [|row pv (v & t & -> & Hv) _ (dds & Hdds & Hall)].
  - exists []. split; [reflexivity | constructor].
  - destruct (drawdown_row t Hv) as (d0 & ds & Hrow & Hd0 & Hlen & Hle & Hgt & Hflat).
    exists ((d0 :: ds) :: dds). cbn [map]. rewrite Hrow, Hdds.
    split; [reflexivity|]. constructor; [|exact Hall].
    split; [simpl; lia|]. split; [constructor; [lraQ | exact Hle]|].
    split; [exists d0, ds; split; [reflexivity | exact Hd0]|]. split.
    + intros Hpos. inversion Hpos; subst. constructor; [lraQ | apply Hgt; assumption].
    + intros Hstep. constructor; [exact Hd0 | apply Hflat; exact Hstep].
Qed.

Lemma amin_rows (dds : list (list Q)) :
  Forall (fun ds => ds <> []) dds ->
  exists mins,
    sequence (map amin (map (map finite) dds)) = Ok (map finite mins) /\
    Forall2 (fun ds m => In m ds /\ forall y, In y ds -> m <= y) dds mins.
Proof.
  induction 1 as [|ds dds Hne _ (mins & Hseq & Hall)].
  - exists []. split; [reflexivity | constructor].
  - destruct (amin_finite Hne) as (m & Hm & Hin & Hlow).
    exists (m :: mins). cbn [map sequence]. rewrite Hm, Hseq. cbn [bind].
    split; [reflexivity|]. constructor; [split; assumption | exact Hall].
Qed.

Lemma map_finite_injective (l1 l2 : list Q) : map finite l1 = map finite l2 -> l1 = l2.
Proof.
  revert l2. induction l1 as [|v l1 IH]; intros [|w l2] H; try discriminate; [reflexivity|].
  cbn [map] in H. injection H as -> H. f_equal. apply IH. exact H.
Qed.

Lemma Forall2_bound (A : Type) (P : list A -> Prop) (Q0 : A -> Prop)
      (dds : list (list A)) (mins : list A) :
  Forall2 (fun ds m => In m ds /\ P ds) dds mins ->
  (forall ds, P ds -> Forall Q0 ds) ->
  Forall Q0 mins.
Proof.
  intros H HP. induction H as [|ds m dds mins [Hin Hp] _ IH]; constructor; [|exact IH].
  pose proof (HP ds Hp) as Hall. rewrite Forall_forall in Hall. apply Hall. exact Hin.
Qed.

Lemma Forall2_In_r (A B : Type) (R : A -> B -> Prop) (l1 : list A) (l2 : list B) (b : B) :
  Forall2 R l1 l2 -> In b l2 -> exists a, In a l1 /\ R a b.
Proof.
  induction 1 as [|a0 b0 l1 l2 Hab _ IH]; intros Hin; [contradiction|].
  destruct Hin as [<-|Hin].
  - exists a0. split; [left; reflexivity | exact Hab].
  - destruct (IH Hin) as (a & Ha & HR). exists a. split; [right; exact Ha | exact HR].
Qed.

Section Drawdowns.
Variables format_pct0 format_pct1 : Q -> string.
Variable minimize_scalar : Kelly.minimizer.
Variables np_sqrt np_log : float64 -> float64.
Variable np_power : float64 -> float64 -> float64.

(** What the drawdown block of [compute_analytics] computed when the
    function returned on paths that start above zero. *)
Lemma drawdown_block (result : SimulationResult.t) (report : AnalyticsReport.t) :
  compute_analytics format_pct0 format_pct1 minimize_scalar np_sqrt np_log np_power result
  = Return report ->
  Forall starts_positive (SimulationResult.portfolio_values result) ->
  exists dds mins worst durations,
    Forall2 (fun row ds =>
               length ds = length row /\
               Forall (fun d => d <= 0) ds /\
               (exists d0 rest, ds = d0 :: rest /\ d0 == 0) /\
               (Forall (fun v => 0 < v) row -> Forall (fun d => -1 < d) ds) /\
               (never_falls row -> Forall (fun d => d == 0) ds))
            (SimulationResult.portfolio_values result) dds /\
    Forall2 (fun ds m => In m ds /\ forall y, In y ds -> m <= y) dds mins /\
    mins <> [] /\
    In worst mins /\ (forall m, In m mins -> worst <= m) /\
    _max_consecutive_true
      (Z.of_nat (shape_1 (SimulationResult.portfolio_values result)))
      (map (map (fun d => Qltb d (-0.0000000001))) dds) = Ok durations /\
    AnalyticsReport.max_drawdown_worst report = finite worst /\
    AnalyticsReport.max_drawdown_mean report = mean (map finite mins) /\
    AnalyticsReport.max_drawdown_median report = median (map finite mins) /\
    AnalyticsReport.max_drawdown_duration_mean report
      = mean (map finite (map inject_Z durations)) /\
    AnalyticsReport.avg_drawdown report
      = (if any (map (fun d => Qltb d (-0.0000000001)) (concat dds))
         then mean (map finite (filter (fun d => Qltb d (-0.0000000001)) (concat dds)))
         else finite 0).
Proof.
  intros H Hstart.
  destruct (drawdown_matrix Hstart) as (dds & Hdds & Hrows).
  analytics_inv H. subst report.
  rewrite map2_map_r, Hdds in *.
  cbn [AnalyticsReport.max_drawdown_worst AnalyticsReport.max_drawdown_mean
       AnalyticsReport.max_drawdown_median AnalyticsReport.max_drawdown_duration_mean
       AnalyticsReport.avg_drawdown].
  match goal with
  | E : last_column _ = Ok _ |- _ => destruct (last_column_inv _ E) as (Hpv & _ & _)
  end.
  destruct (@amin_rows dds) as (mins & Hmins & Hmin).
  { clear - Hrows. induction Hrows as [|row ds pv dds (_ & _ & (d0 & rest & -> & _) & _) _ IH];
      constructor; [discriminate | exact IH]. }
  assert (Hne : mins <> []).
  { intros ->. inversion Hmin; subst. inversion Hrows; subst. congruence. }
  match goal with
  | E : sequence (map amin _) = Ok ?a |- _ =>
      rewrite Hmins in E; injection E as <-
  end.
  destruct (amin_finite Hne) as (worst & Hworst & Hin & Hlow).
  match goal with
  | E : amin (map finite mins) = Ok ?a |- _ =>
      rewrite Hworst in E; injection E as <-
  end.
  assert (Hmask : map (map (fun d => float_ltb d (finite (-0.0000000001))))
                      (map (map finite) dds)
                  = map (map (fun d => Qltb d (-0.0000000001))) dds).
  { rewrite map_map. apply map_ext. intros ds. rewrite map_map. reflexivity. }
  rewrite Hmask in *.
  match goal with
  | E : _max_consecutive_true _ _ = Ok ?a |- _ => rename a into durations
  end.
  exists dds, mins, worst, durations.
  do 5 (split; [assumption|]). split; [assumption|].
  split; [reflexivity|]. split; [reflexivity|]. split; [reflexivity|].
  split; [rewrite map_map; reflexivity|].
  rewrite <- !concat_map.
  replace (map finite (concat dds)) with (map finite (concat dds)) by reflexivity.
  assert (Hsel : compress (map finite (concat dds))
                          (map (fun d => Qltb d (-0.0000000001)) (concat dds))
                 = map finite (filter (fun d => Qltb d (-0.0000000001)) (concat dds))).
  { generalize (concat dds). intros l. induction l as [|d l IH]; [reflexivity|].
    cbn [map compress filter]. destruct (Qltb d (-0.0000000001)); cbn [map];
      rewrite IH; reflexivity. }
  rewrite Hsel. reflexivity.
Qed.


End Drawdowns.

Lemma three_paths_start_positive :
  Forall starts_positive (SimulationResult.portfolio_values Fixtures.three_paths).
Proof.
  repeat constructor; eexists _, _; (split; [reflexivity | reflexivity]).
Qed.


(** A run of True cells cannot start in a first cell that is False. *)
Lemma longest_run_after_false (rest : list bool) :
  (longest_run (false :: rest) <= length rest)%nat.
Proof.
  destruct (longest_run_spec (false :: rest)) as [(i & Hlen & Hcells) _].
  destruct (longest_run (false :: rest)) as [|L]; [lia|].
  destruct i as [|i]; [|cbn [length] in Hlen; lia].
  specialize (Hcells 0%nat ltac:(lia)). discriminate.
Qed.


Section Durations.
Variables format_pct0 format_pct1 : Q -> string.
Variable minimize_scalar : Kelly.minimizer.
Variables np_sqrt np_log : float64 -> float64.
Variable np_power : float64 -> float64 -> float64.

(** The durations [compute_analytics] read off the drawdown flags of a
    rectangular matrix of paths that start above zero. *)
Lemma duration_block (result : SimulationResult.t) (report : AnalyticsReport.t) :
  compute_analytics format_pct0 format_pct1 minimize_scalar np_sqrt np_log np_power result
  = Return report ->
  Forall starts_positive (SimulationResult.portfolio_values result) ->
  Forall (fun row => length row = shape_1 (SimulationResult.portfolio_values result))
         (SimulationResult.portfolio_values result) ->
  exists flags,
    flags <> [] /\
    Forall2 (fun row mask => exists rest,
               mask = false :: rest /\ length mask = length row /\
               (never_falls row -> Forall (fun b => b = false) mask))
            (SimulationResult.portfolio_values result) flags /\
    AnalyticsReport.max_drawdown_duration_mean report
    = mean (map finite (map (fun mask => inject_Z (Z.of_nat (longest_run mask))) flags)).
Proof.
  intros H Hstart Hshape.
  destruct (@drawdown_block format_pct0 format_pct1 minimize_scalar np_sqrt np_log
              np_power result report H Hstart)
    as (dds & mins & worst & durations & Hrows & Hmin & Hne & _ & _ & Hdur
        & _ & _ & _ & -> & _).
  set (n := shape_1 (SimulationResult.portfolio_values result)) in *.
  set (flags := map (map (fun d => Qltb d (-0.0000000001))) dds) in *.
  assert (Hflags : Forall2 (fun row mask => exists rest,
                      mask = false :: rest /\ length mask = length row /\
                      (never_falls row -> Forall (fun b => b = false) mask))
                     (SimulationResult.portfolio_values result) flags).
  { unfold flags. clear - Hrows.
    induction Hrows as [|row ds pv dds (Hlen & _ & (d0 & rest & -> & Hd0) & _ & Hflat) _ IH];
      cbn [map]; constructor; [|exact IH].
    exists (map (fun d => Qltb d (-0.0000000001)) rest).
    replace (Qltb d0 (-0.0000000001)) with false
      by (symmetry; apply Qltb_ge; rewrite Hd0; discriminate).
    split; [reflexivity|]. split; [rewrite <- Hlen; cbn [length]; rewrite length_map;
                                   reflexivity|].
    intros Hnf. specialize (Hflat Hnf). constructor; [reflexivity|].
    inversion Hflat as [|? ? _ Hrest]; subst. rewrite Forall_map.
    eapply Forall_impl; [|exact Hrest]. intros d Hd. cbv beta.
    apply Qltb_ge. rewrite Hd. discriminate. }
  assert (Hcorrect : _max_consecutive_true (Z.of_nat n) flags
                     = Ok (map (fun mask => Z.of_nat (longest_run mask)) flags)).
  { unfold _max_consecutive_true. apply sequence_map_ok.
    apply Forall_forall. intros mask Hmask.
    destruct (@Forall2_In_r _ _ _ _ _ _ Hflags Hmask) as (row & Hrow & rest & _ & Hlen & _).
    rewrite Forall_forall in Hshape. rewrite <- (Hshape row Hrow), <- Hlen.
    apply max_consecutive_true_row_correct. }
  rewrite Hcorrect in Hdur. injection Hdur as <-.
  exists flags. split.
  - intros E. rewrite E in Hflags. inversion Hflags as [Hpv|]; subst.
    inversion Hrows; subst; [|congruence]. inversion Hmin; subst. congruence.
  - split; [exact Hflags|]. rewrite !map_map. reflexivity.
Qed.

(** X20.  When [compute_analytics] returns on a rectangular matrix of
    paths that start above zero, the mean drawdown duration it reports is a
    finite number between 0 and the number of periods: the first column is
    never in drawdown. *)
Theorem drawdown_duration_bounds (result : SimulationResult.t)
        (report : AnalyticsReport.t) :
  compute_analytics format_pct0 format_pct1 minimize_scalar np_sqrt np_log np_power result
  = Return report ->
  Forall starts_positive (SimulationResult.portfolio_values result) ->
  Forall (fun row => length row = shape_1 (SimulationResult.portfolio_values result))
         (SimulationResult.portfolio_values result) ->
  exists duration,
    AnalyticsReport.max_drawdown_duration_mean report = finite duration /\
    0 <= duration /\
    duration <= inject_Z (Z.of_nat (shape_1 (SimulationResult.portfolio_values result)) - 1).
Proof.
  intros H Hstart Hshape.
  destruct (@duration_block result report H Hstart Hshape) as (flags & Hne & Hflags & ->).
  set (n := shape_1 (SimulationResult.portfolio_values result)) in *.
  destruct (@mean_between 0 (inject_Z (Z.of_nat n - 1))
              (map (fun mask => inject_Z (Z.of_nat (longest_run mask))) flags))
    as (duration & Hmean & Hbounds).
  - destruct flags; [congruence | discriminate].
  - rewrite Forall_map. apply Forall_forall. intros mask Hmask.
    destruct (@Forall2_In_r _ _ _ _ _ _ Hflags Hmask) as (row & Hrow & rest & -> & Hlen & _).
    rewrite Forall_forall in Hshape. rewrite (Hshape row Hrow) in Hlen. fold n in Hlen.
    pose proof (longest_run_after_false rest) as Hrun. cbn [length] in Hlen.
    split.
    + change 0 with (inject_Z 0). rewrite <- Zle_Qle. lia.
    + rewrite <- Zle_Qle. lia.
  - exists duration. split; [exact Hmean | exact Hbounds].
Qed.

End Durations.

Lemma drawdown_duration_bounds_witness :
  exists report,
    compute_analytics Fixtures.no_format Fixtures.no_format (Kelly.nearest_point 4)
                      Fixtures.unary Fixtures.unary Fixtures.binary Fixtures.three_paths
    = Return report /\
    exists duration,
      AnalyticsReport.max_drawdown_duration_mean report = finite duration /\
      0 <= duration /\
      duration
      <= inject_Z (Z.of_nat (shape_1 (SimulationResult.portfolio_values Fixtures.three_paths))
                   - 1).
Proof.
  destruct three_paths_report as (report & Hreport). exists report.
  split; [exact Hreport|].
  apply (@drawdown_duration_bounds Fixtures.no_format Fixtures.no_format
           (Kelly.nearest_point 4) Fixtures.unary Fixtures.unary Fixtures.binary
           Fixtures.three_paths report Hreport three_paths_start_positive).
  repeat constructor.
Defined.




Section Risk.
Variables format_pct0 format_pct1 : Q -> string.
Variable minimize_scalar : Kelly.minimizer.
Variables np_sqrt np_log : float64 -> float64.
Variable np_power : float64 -> float64 -> float64.


End Risk.

(** *** Percentiles *)













Section Terminal.
Variables format_pct0 format_pct1 : Q -> string.
Variable minimize_scalar : Kelly.minimizer.
Variables np_sqrt np_log : float64 -> float64.
Variable np_power : float64 -> float64 -> float64.


End Terminal.


(** *** The pipeline of the application *)

Section Pipeline.
Variables format_pct0 format_pct1 : Q -> string.
Variable minimize_scalar : Kelly.minimizer.
Variables np_sqrt np_log : float64 -> float64.
Variable np_power : float64 -> float64 -> float64.
Variable seeded : Z -> nat -> Q.
Variable entropy : nat -> Q.
Variable junk_int : nat -> nat.
Variable junk_float : nat -> Q.
Hypothesis minimize_scalar_bounded : Kelly.bounded_method minimize_scalar.
Hypothesis seeded_uniform : forall s, Engine.uniform (seeded s).
Hypothesis entropy_uniform : Engine.uniform entropy.





End Pipeline.



End ReportProps.
